(** * Teams voice bridge: codec, voice-activity detection, turn taking, routing

    A shallow embedding of the stateful core of the repository:
    - [Conversation]: the turn-taking state machine of
      [MeetingConversationManager] (src/teams);
    - [Vad] and [Codec]: the voice-activity detector and the frame codec of
      [AudioProcessingEngine] (src/demo/demo-server.js);
    - [Bridge]: the audio fan-out and the room membership of
      [TeamsLiveKitBridge] (src/websocket), with the rooms of
      [LiveKitVoiceAgent] (src/livekit);
    - [Engine]: the processing statistics and the sample conversions of
      [AudioProcessingEngine];
    - [VoiceAgent]: the conversation histories and the WAV container of
      [LiveKitVoiceAgent];
    - [MediaBot]: the table of active calls of [TeamsMediaBotController]
      (src/teams).

    Conventions of the model:
    - JavaScript objects that the code mutates in place are reached only
      through the maps of the object that owns them, so an in-place mutation
      is an update of the map entry;
    - the calls on one object are applied one after the other: the methods
      await nothing but each other, so a call runs to its end before the
      next one starts;
    - wall-clock reads ([new Date()], [Date.now()]) are explicit arguments
      (milliseconds since the epoch) of the call that makes them.  A call of
      [Conversation] reads the clock at several places and stores the
      readings in different fields: each place has a reading of its own
      ([Conversation.Clock]), and nothing is assumed about how the readings
      of one call compare.  Elsewhere a call is given the one reading [now]
      that its result depends on;
    - a number that the code computes in floating point is the exact result
      of each operation, rounded: in [Vad] every arithmetic operation rounds
      with [fl], the function that gives the double nearest to a rational,
      which the model takes as a parameter; the quotient of two integers is
      kept as its two operands ([Conversation.Average]);
    - identifiers are strings, times and durations are integers. *)

From Stdlib Require Import ZArith QArith Qround Lia Lqa List Strings.Byte Strings.Ascii.
From stdpp Require Import base gmap strings list fin_maps pretty.

(** A JavaScript call either throws an [Error] carrying a message or returns. *)
Inductive Outcome (A : Type) : Type :=
  | Throw (msg : string)
  | Return (a : A).
Arguments Throw {A} msg.
Arguments Return {A} a.

Definition returned {A} (o : Outcome A) : bool :=
  match o with Return _ => true | Throw _ => false end.

(** [x > y] on JavaScript numbers that are finite rationals. *)
Definition Qgtb (x y : Q) : bool := negb (Qle_bool x y).

Lemma Qgtb_lt x y : Qgtb x y = true <-> (y < x)%Q.
Proof.
  unfold Qgtb. rewrite negb_true_iff.
  split; intros H.
  - apply Qnot_le_lt. intros Hle. apply Qle_bool_iff in Hle. congruence.
  - destruct (Qle_bool x y) eqn:E; [|reflexivity].
    apply Qle_bool_iff in E. exfalso. apply (Qlt_not_le _ _ H E).
Qed.

(** The operand of [||] and [!] when it is a string or missing: the empty
    string and [undefined] are falsy. *)
Definition truthy (o : option string) : option string :=
  match o with
  | Some s => if decide (s = "") then None else Some s
  | None => None
  end.

(** * The turn-taking state machine *)
Module Conversation.

Local Open Scope Z_scope.

(** ** The clock

    A call reads the wall clock at several places, and nothing makes two
    readings of one call agree.  A call is therefore given the reading of
    each of its places: [at_turnEnd] is what [new Date()] gives in
    [endCurrentTurn], [at_turnStart] what it gives in [startNewTurn], and so
    on.  [addParticipant] runs once per initial participant inside
    [initializeMeeting]; its places are read once for each run. *)
Record JoinClock := {
  at_id : Z;             (* Date.now() in the id given to a nameless participant *)
  at_join : Z;           (* joinTime *)
  at_firstActivity : Z;  (* lastActivity *)
  at_joinLog : Z         (* timestamp of the participant_joined entry *)
}.

Record Clock := {
  at_meetingStart : Z;        (* initializeMeeting: startTime *)
  at_joins : nat → JoinClock; (* the n-th addParticipant of the call *)
  at_leave : Z;               (* removeParticipant: leaveTime *)
  at_turnEnd : Z;             (* endCurrentTurn: turnEnd *)
  at_turnStart : Z;           (* startNewTurn: turnStart *)
  at_turnId : Z;              (* startNewTurn: Date.now() in the turnId *)
  at_activity : Z;            (* handleVoiceActivity: lastActivity *)
  at_meetingEnd : Z;          (* endMeeting: endTime *)
  at_log : Z;                 (* logConversationEvent: timestamp *)
  at_status : Z               (* getMeetingStatus: currentTime *)
}.

(** A call all of whose readings are [now]. *)
Definition instant (now : Z) : Clock :=
  let join := {| at_id := now; at_join := now; at_firstActivity := now; at_joinLog := now |} in
  {| at_meetingStart := now; at_joins := λ _, join; at_leave := now; at_turnEnd := now;
     at_turnStart := now; at_turnId := now; at_activity := now; at_meetingEnd := now;
     at_log := now; at_status := now |}.

(** A call during which the clock advances by one between any two places,
    in the order in which a call comes to them. *)
Definition ticking (now : Z) : Clock :=
  {| at_meetingStart := now;
     at_joins := λ n, {| at_id := now + 4 * Z.of_nat n + 1; at_join := now + 4 * Z.of_nat n + 2;
                         at_firstActivity := now + 4 * Z.of_nat n + 3;
                         at_joinLog := now + 4 * Z.of_nat n + 4 |};
     at_leave := now; at_turnEnd := now + 1; at_turnStart := now + 2; at_turnId := now + 3;
     at_activity := now + 4; at_meetingEnd := now + 5; at_log := now + 6; at_status := now |}.

(** A number the code obtains by dividing one integer by another: the
    double nearest to the quotient, kept as the two operands; or the
    literal 0. *)
Inductive Average :=
  | Zero
  | Quotient (total count : Z).

Inductive ParticipantStatus := StatusActive | StatusLeft.
Inductive MeetingStatus := MeetingActive | MeetingEnded.

#[global] Instance ParticipantStatus_eq_dec : EqDecision ParticipantStatus.
Proof. solve_decision. Defined.

(** The object handed to [addParticipant]; a missing property is [None]. *)
Record ParticipantInfo := {
  info_id : option string;
  info_email : option string;
  info_displayName : option string;
  info_name : option string;
  info_role : option string
}.

Record Participant := {
  p_id : string;
  displayName : string;
  email : option string;
  role : string;
  joinTime : Z;
  lastActivity : Z;
  status : ParticipantStatus;
  leaveTime : option Z;
  speakingTime : Z;
  turnCount : Z;
  isMuted : bool;
  isPresenting : bool
}.

(** [turnId] is the template string [turn_${Date.now()}_${participantId}],
    kept as its two holes.  [endTime] and [duration] exist only on the
    copy pushed to the history. *)
Record Turn := {
  participantId : string;
  startTime : Z;
  confidence : Q;
  turnId : Z * string;
  endTime : option Z;
  duration : option Z
}.

Record ParticipantStats := {
  ps_totalSpeakingTime : Z;
  ps_totalTurns : Z;
  averageTurnDuration : Average;
  lastSpeakTime : option Z
}.

Record Statistics := {
  totalTurns : Z;
  totalSpeakingTime : Z;
  participantStats : gmap string ParticipantStats
}.

Inductive EventType :=
  | participant_joined | participant_left | voice_activity | meeting_ended.

(** A conversation-log entry; the random [eventId] and the payload [data]
    are not observed by any operation and are left out. *)
Record LogEntry := {
  le_timestamp : Z;
  le_type : EventType;
  le_participantId : option string
}.

Record Meeting := {
  meetingId : string;
  m_startTime : Z;
  m_status : MeetingStatus;
  m_endTime : option Z;
  participants : gmap string Participant;
  activeSpeaker : option string;
  currentTurn : option Turn;
  turnHistory : list Turn;
  conversationLog : list LogEntry;
  statistics : Statistics
}.

Record Config := {
  turnTimeoutMs : Z;
  maxParticipants : Z;
  conversationLogLimit : nat
}.

Definition defaultConfig : Config :=
  {| turnTimeoutMs := 3000; maxParticipants := 50; conversationLogLimit := 1000 |}.

(** The manager object: [this.meetings] and [this.config]. *)
Record Manager := {
  meetings : gmap string Meeting;
  config : Config
}.

Definition newManager (cfg : Config) : Manager :=
  {| meetings := ∅; config := cfg |}.

(** ** Field updates (JavaScript assignments to one property) *)

Definition set_meetings (f : gmap string Meeting → gmap string Meeting) (w : Manager) : Manager :=
  {| meetings := f (meetings w); config := config w |}.

Definition set_participants (f : gmap string Participant → gmap string Participant)
    (m : Meeting) : Meeting :=
  {| meetingId := meetingId m; m_startTime := m_startTime m; m_status := m_status m;
     m_endTime := m_endTime m; participants := f (participants m);
     activeSpeaker := activeSpeaker m; currentTurn := currentTurn m;
     turnHistory := turnHistory m; conversationLog := conversationLog m;
     statistics := statistics m |}.

Definition set_turn (speaker : option string) (t : option Turn) (m : Meeting) : Meeting :=
  {| meetingId := meetingId m; m_startTime := m_startTime m; m_status := m_status m;
     m_endTime := m_endTime m; participants := participants m;
     activeSpeaker := speaker; currentTurn := t;
     turnHistory := turnHistory m; conversationLog := conversationLog m;
     statistics := statistics m |}.

Definition set_turnHistory (h : list Turn) (m : Meeting) : Meeting :=
  {| meetingId := meetingId m; m_startTime := m_startTime m; m_status := m_status m;
     m_endTime := m_endTime m; participants := participants m;
     activeSpeaker := activeSpeaker m; currentTurn := currentTurn m;
     turnHistory := h; conversationLog := conversationLog m;
     statistics := statistics m |}.

Definition set_conversationLog (l : list LogEntry) (m : Meeting) : Meeting :=
  {| meetingId := meetingId m; m_startTime := m_startTime m; m_status := m_status m;
     m_endTime := m_endTime m; participants := participants m;
     activeSpeaker := activeSpeaker m; currentTurn := currentTurn m;
     turnHistory := turnHistory m; conversationLog := l;
     statistics := statistics m |}.

Definition set_statistics (f : Statistics → Statistics) (m : Meeting) : Meeting :=
  {| meetingId := meetingId m; m_startTime := m_startTime m; m_status := m_status m;
     m_endTime := m_endTime m; participants := participants m;
     activeSpeaker := activeSpeaker m; currentTurn := currentTurn m;
     turnHistory := turnHistory m; conversationLog := conversationLog m;
     statistics := f (statistics m) |}.

Definition set_ended (t : Z) (m : Meeting) : Meeting :=
  {| meetingId := meetingId m; m_startTime := m_startTime m; m_status := MeetingEnded;
     m_endTime := Some t; participants := participants m;
     activeSpeaker := activeSpeaker m; currentTurn := currentTurn m;
     turnHistory := turnHistory m; conversationLog := conversationLog m;
     statistics := statistics m |}.

Definition add_speakingTime (d : Z) (p : Participant) : Participant :=
  {| p_id := p_id p; displayName := displayName p; email := email p; role := role p;
     joinTime := joinTime p; lastActivity := lastActivity p; status := status p;
     leaveTime := leaveTime p; speakingTime := speakingTime p + d;
     turnCount := turnCount p; isMuted := isMuted p; isPresenting := isPresenting p |}.

Definition incr_turnCount (p : Participant) : Participant :=
  {| p_id := p_id p; displayName := displayName p; email := email p; role := role p;
     joinTime := joinTime p; lastActivity := lastActivity p; status := status p;
     leaveTime := leaveTime p; speakingTime := speakingTime p;
     turnCount := turnCount p + 1; isMuted := isMuted p; isPresenting := isPresenting p |}.

Definition set_lastActivity (t : Z) (p : Participant) : Participant :=
  {| p_id := p_id p; displayName := displayName p; email := email p; role := role p;
     joinTime := joinTime p; lastActivity := t; status := status p;
     leaveTime := leaveTime p; speakingTime := speakingTime p;
     turnCount := turnCount p; isMuted := isMuted p; isPresenting := isPresenting p |}.

Definition mark_left (t : Z) (p : Participant) : Participant :=
  {| p_id := p_id p; displayName := displayName p; email := email p; role := role p;
     joinTime := joinTime p; lastActivity := lastActivity p; status := StatusLeft;
     leaveTime := Some t; speakingTime := speakingTime p;
     turnCount := turnCount p; isMuted := isMuted p; isPresenting := isPresenting p |}.

Definition complete (turnEnd turnDuration : Z) (t : Turn) : Turn :=
  {| participantId := participantId t; startTime := startTime t;
     confidence := confidence t; turnId := turnId t;
     endTime := Some turnEnd; duration := Some turnDuration |}.

Definition record_turn (turnDuration turnEnd : Z) (s : ParticipantStats) : ParticipantStats :=
  {| ps_totalSpeakingTime := ps_totalSpeakingTime s + turnDuration;
     ps_totalTurns := ps_totalTurns s + 1;
     averageTurnDuration :=
       Quotient (ps_totalSpeakingTime s + turnDuration) (ps_totalTurns s + 1);
     lastSpeakTime := Some turnEnd |}.

(** ** Operations on one meeting object *)

Definition resolveParticipantId (stamp : Z) (info : ParticipantInfo) : string :=
  default (default ("participant_" +:+ pretty stamp) (truthy (info_email info)))
          (truthy (info_id info)).

(** [log.slice(-limit)]: the last [limit] entries; [slice(-0)] is
    [slice(0)], the whole log. *)
Definition sliceLast {A} (limit : nat) (log : list A) : list A :=
  match limit with
  | O => log
  | S _ => drop (length log - limit)%nat log
  end.

(** [logConversationEvent]: push, then keep the last [limit] entries once
    the log is longer than the limit. *)
Definition logConversationEventIn (limit : nat) (timestamp : Z) (ty : EventType)
    (pid : option string) (m : Meeting) : Meeting :=
  let logEntry := {| le_timestamp := timestamp; le_type := ty; le_participantId := pid |} in
  let log := conversationLog m ++ [logEntry] in
  set_conversationLog (if (limit <? length log)%nat then sliceLast limit log else log) m.

(** [endCurrentTurn] on the meeting object it fetched. *)
Definition endCurrentTurnIn (turnEnd : Z) (m : Meeting) : Meeting * option Turn :=
  match currentTurn m with
  | None => (m, None)
  | Some cur =>
      let turnDuration := turnEnd - startTime cur in
      let completedTurn := complete turnEnd turnDuration cur in
      let m := set_turnHistory (turnHistory m ++ [completedTurn]) m in
      let m := set_participants (alter (add_speakingTime turnDuration) (participantId cur)) m in
      let m := set_statistics (fun s =>
                 {| totalTurns := totalTurns s;
                    totalSpeakingTime := totalSpeakingTime s;
                    participantStats :=
                      alter (record_turn turnDuration turnEnd) (participantId cur)
                            (participantStats s) |}) m in
      let m := set_statistics (fun s =>
                 {| totalTurns := totalTurns s;
                    totalSpeakingTime := totalSpeakingTime s + turnDuration;
                    participantStats := participantStats s |}) m in
      let m := set_turn None None m in
      (m, Some completedTurn)
  end.

(** [startNewTurn] on the meeting object it fetched; [turnEnd] is the
    reading of the [endCurrentTurn] it calls, [stamp] that of [Date.now()]
    in the turn id. *)
Definition startNewTurnIn (turnEnd turnStart stamp : Z) (pid : string) (conf : Q)
    (m : Meeting) : Meeting :=
  let m := match currentTurn m with
           | Some _ => fst (endCurrentTurnIn turnEnd m)
           | None => m
           end in
  let m := set_turn (Some pid)
             (Some {| participantId := pid; startTime := turnStart; confidence := conf;
                      turnId := (stamp, pid); endTime := None; duration := None |}) m in
  let m := set_participants (alter incr_turnCount pid) m in
  set_statistics (fun s =>
    {| totalTurns := totalTurns s + 1;
       totalSpeakingTime := totalSpeakingTime s;
       participantStats := participantStats s |}) m.

Definition newParticipant (c : JoinClock) (info : ParticipantInfo) : Participant :=
  {| p_id := resolveParticipantId (at_id c) info;
     displayName :=
       default (default "Unknown" (truthy (info_name info))) (truthy (info_displayName info));
     email := info_email info;
     role := default "participant" (truthy (info_role info));
     joinTime := at_join c; lastActivity := at_firstActivity c; status := StatusActive;
     leaveTime := None;
     speakingTime := 0; turnCount := 0; isMuted := false; isPresenting := false |}.

Definition freshStats : ParticipantStats :=
  {| ps_totalSpeakingTime := 0; ps_totalTurns := 0; averageTurnDuration := Zero;
     lastSpeakTime := None |}.

Definition addParticipantIn (limit : nat) (c : JoinClock) (info : ParticipantInfo)
    (m : Meeting) : Meeting :=
  let participant := newParticipant c info in
  let pid := p_id participant in
  let m := set_participants (insert pid participant) m in
  let m := set_statistics (fun s =>
             {| totalTurns := totalTurns s;
                totalSpeakingTime := totalSpeakingTime s;
                participantStats := <[pid := freshStats]> (participantStats s) |}) m in
  logConversationEventIn limit (at_joinLog c) participant_joined (Some pid) m.

(** [Array.from(meeting.participants.values()).filter(p => p.status ===
    'active')]: the array lists the active participants in the order in
    which their keys were first put into the [Map]; it is kept as the
    entries it lists, under their keys, without that order. *)
Definition activeParticipants (m : Meeting) : gmap string Participant :=
  filter (λ kp, status kp.2 = StatusActive) (participants m).

(** ** The manager's methods *)

Record AddResult := {
  ar_participantId : string;
  ar_participant : Participant;
  ar_totalParticipants : nat
}.

Definition addParticipant (c : JoinClock) (mid : string) (info : ParticipantInfo)
    (updateMeeting : bool) (w : Manager) : Outcome AddResult * Manager :=
  match meetings w !! mid with
  | None => (Throw "Failed to add participant: Meeting not found", w)
  | Some meeting =>
      let meeting' := addParticipantIn (conversationLogLimit (config w)) c info meeting in
      (Return {| ar_participantId := resolveParticipantId (at_id c) info;
                 ar_participant := newParticipant c info;
                 ar_totalParticipants := size (participants meeting') |},
       set_meetings (insert mid meeting') w)
  end.

Record InitResult := {
  ir_meetingId : string;
  ir_status : MeetingStatus;
  ir_startTime : Z;
  ir_participantCount : nat
}.

Definition newMeetingState (startTime : Z) (mid : string) : Meeting :=
  {| meetingId := mid; m_startTime := startTime; m_status := MeetingActive; m_endTime := None;
     participants := ∅; activeSpeaker := None; currentTurn := None;
     turnHistory := []; conversationLog := [];
     statistics := {| totalTurns := 0; totalSpeakingTime := 0; participantStats := ∅ |} |}.

(** The loop [for (const participant of initialParticipants) await
    this.addParticipant(meetingId, participant, false)]; a throw leaves the
    loop.  [cs n] holds the readings of the [n]-th run that is still to
    come. *)
Fixpoint addInitialParticipants (cs : nat → JoinClock) (mid : string)
    (ps : list ParticipantInfo) (w : Manager) : Outcome unit * Manager :=
  match ps with
  | [] => (Return tt, w)
  | p :: rest =>
      match addParticipant (cs O) mid p false w with
      | (Throw msg, w') => (Throw msg, w')
      | (Return _, w') => addInitialParticipants (λ n, cs (S n)) mid rest w'
      end
  end.

(** [initializeMeeting]: the new state object is built, the participants
    are added through [addParticipant] (which looks [meetingId] up in
    [this.meetings]), and only then is the new object stored. *)
Definition initializeMeeting (clk : Clock) (mid : string)
    (initialParticipants : list ParticipantInfo) (w : Manager)
    : Outcome InitResult * Manager :=
  let meetingState := newMeetingState (at_meetingStart clk) mid in
  match addInitialParticipants (at_joins clk) mid initialParticipants w with
  | (Throw msg, w') => (Throw ("Meeting initialization failed: " +:+ msg), w')
  | (Return _, w') =>
      (Return {| ir_meetingId := mid; ir_status := MeetingActive;
                 ir_startTime := m_startTime meetingState;
                 ir_participantCount := length initialParticipants |},
       set_meetings (insert mid meetingState) w')
  end.

(** [startNewTurn] and [endCurrentTurn] do not look whether the meeting
    is there: without it, reading [meeting.currentTurn] throws the
    [TypeError] of the runtime, whose message this is. *)
Definition startNewTurn (clk : Clock) (mid pid : string) (conf : Q) (w : Manager)
    : Outcome unit * Manager :=
  match meetings w !! mid with
  | None => (Throw "Cannot read properties of undefined (reading 'currentTurn')", w)
  | Some meeting =>
      (Return tt,
       set_meetings
         (insert mid (startNewTurnIn (at_turnEnd clk) (at_turnStart clk) (at_turnId clk)
                        pid conf meeting)) w)
  end.

Definition endCurrentTurn (clk : Clock) (mid : string) (updateMeeting : bool) (w : Manager)
    : Outcome (option Turn) * Manager :=
  match meetings w !! mid with
  | None => (Throw "Cannot read properties of undefined (reading 'currentTurn')", w)
  | Some meeting =>
      let '(meeting', completed) := endCurrentTurnIn (at_turnEnd clk) meeting in
      (Return completed, set_meetings (insert mid meeting') w)
  end.

Record RemoveResult := {
  rr_participantId : string;
  rr_participant : option Participant;
  rr_totalParticipants : nat
}.

Definition removeParticipant (clk : Clock) (mid pid : string) (w : Manager)
    : Outcome RemoveResult * Manager :=
  match meetings w !! mid with
  | None => (Throw "Failed to remove participant: Meeting not found", w)
  | Some meeting =>
      match participants meeting !! pid with
      | None => (Throw "Failed to remove participant: Participant not found", w)
      | Some participant =>
          let meeting :=
            set_participants (insert pid (mark_left (at_leave clk) participant)) meeting in
          let meeting := if bool_decide (activeSpeaker meeting = Some pid)
                         then fst (endCurrentTurnIn (at_turnEnd clk) meeting) else meeting in
          let meeting := logConversationEventIn (conversationLogLimit (config w)) (at_log clk)
                           participant_left (Some pid) meeting in
          (Return {| rr_participantId := pid;
                     rr_participant := participants meeting !! pid;
                     rr_totalParticipants := size (activeParticipants meeting) |},
           set_meetings (insert mid meeting) w)
      end
  end.

Record VoiceActivityData := {
  va_participantId : string;
  va_isSpeaking : bool;
  va_confidence : Q;
  va_audioLevel : Q
}.

(** The object [handleVoiceActivity] returns; [vr_success = false] is the
    non-throwing answer to an unknown participant. *)
Record VoiceResult := {
  vr_success : bool;
  vr_error : option string;
  vr_activeSpeaker : option string;
  vr_currentTurn : option Turn
}.

Definition handleVoiceActivity (clk : Clock) (mid : string) (d : VoiceActivityData)
    (w : Manager) : Outcome VoiceResult * Manager :=
  let pid := va_participantId d in
  match meetings w !! mid with
  | None => (Throw "Voice activity handling failed: Meeting not found", w)
  | Some meeting =>
      match participants meeting !! pid with
      | None =>
          (Return {| vr_success := false; vr_error := Some "Participant not found";
                     vr_activeSpeaker := None; vr_currentTurn := None |}, w)
      | Some _ =>
          let meeting :=
            if va_isSpeaking d && Qgtb (va_confidence d) (7 # 10)
            then startNewTurnIn (at_turnEnd clk) (at_turnStart clk) (at_turnId clk)
                   pid (va_confidence d) meeting
            else if negb (va_isSpeaking d) && bool_decide (activeSpeaker meeting = Some pid)
            then fst (endCurrentTurnIn (at_turnEnd clk) meeting)
            else meeting in
          let meeting :=
            set_participants (alter (set_lastActivity (at_activity clk)) pid) meeting in
          let meeting := logConversationEventIn (conversationLogLimit (config w)) (at_log clk)
                           voice_activity (Some pid) meeting in
          (Return {| vr_success := true; vr_error := None;
                     vr_activeSpeaker := activeSpeaker meeting;
                     vr_currentTurn := currentTurn meeting |},
           set_meetings (insert mid meeting) w)
      end
  end.

Record ParticipantSummary := {
  s_id : string;
  s_displayName : string;
  s_role : string;
  s_speakingTime : Z;
  s_turnCount : Z;
  s_lastActivity : Z
}.

Definition summary (p : Participant) : ParticipantSummary :=
  {| s_id := p_id p; s_displayName := displayName p; s_role := role p;
     s_speakingTime := speakingTime p; s_turnCount := turnCount p;
     s_lastActivity := lastActivity p |}.

(** [sr_list] is [participants.list], kept like [activeParticipants]. *)
Record StatusResult := {
  sr_status : MeetingStatus;
  sr_startTime : Z;
  sr_duration : Z;
  sr_activeSpeaker : option string;
  sr_currentTurn : option Turn;
  sr_total : nat;
  sr_active : nat;
  sr_list : gmap string ParticipantSummary;
  sr_totalTurns : Z;
  sr_totalSpeakingTime : Z;
  sr_averageTurnDuration : Average
}.

Definition getMeetingStatus (clk : Clock) (mid : string) (w : Manager)
    : Outcome StatusResult :=
  match meetings w !! mid with
  | None => Throw "Failed to get meeting status: Meeting not found"
  | Some meeting =>
      let active := activeParticipants meeting in
      let st := statistics meeting in
      Return {| sr_status := m_status meeting; sr_startTime := m_startTime meeting;
                sr_duration := at_status clk - m_startTime meeting;
                sr_activeSpeaker := activeSpeaker meeting;
                sr_currentTurn := currentTurn meeting;
                sr_total := size (participants meeting);
                sr_active := size active;
                sr_list := summary <$> active;
                sr_totalTurns := totalTurns st;
                sr_totalSpeakingTime := totalSpeakingTime st;
                sr_averageTurnDuration :=
                  if 0 <? totalTurns st
                  then Quotient (totalSpeakingTime st) (totalTurns st)
                  else Zero |}
  end.

Definition endMeeting (clk : Clock) (mid : string) (w : Manager) : Outcome Z * Manager :=
  match meetings w !! mid with
  | None => (Throw "Failed to end meeting: Meeting not found", w)
  | Some meeting =>
      let meeting := match currentTurn meeting with
                     | Some _ => fst (endCurrentTurnIn (at_turnEnd clk) meeting)
                     | None => meeting
                     end in
      let meeting := set_ended (at_meetingEnd clk) meeting in
      let meeting := logConversationEventIn (conversationLogLimit (config w)) (at_log clk)
                       meeting_ended None meeting in
      (Return (at_meetingEnd clk), set_meetings (insert mid meeting) w)
  end.

Definition cleanup (w : Manager) : Manager := set_meetings (fun _ => ∅) w.

(** ** Sequences of calls *)

Inductive Op :=
  | InitializeMeeting (mid : string) (ps : list ParticipantInfo)
  | AddParticipant (mid : string) (info : ParticipantInfo) (updateMeeting : bool)
  | RemoveParticipant (mid pid : string)
  | HandleVoiceActivity (mid : string) (d : VoiceActivityData)
  | StartNewTurn (mid pid : string) (conf : Q)
  | EndCurrentTurn (mid : string) (updateMeeting : bool)
  | GetMeetingStatus (mid : string)
  | EndMeeting (mid : string)
  | Cleanup.

(** The manager after one call that reads the clock [clk] (whether it
    returned or threw). *)
Definition perform (clk : Clock) (op : Op) (w : Manager) : Manager :=
  match op with
  | InitializeMeeting mid ps => snd (initializeMeeting clk mid ps w)
  | AddParticipant mid info u => snd (addParticipant (at_joins clk O) mid info u w)
  | RemoveParticipant mid pid => snd (removeParticipant clk mid pid w)
  | HandleVoiceActivity mid d => snd (handleVoiceActivity clk mid d w)
  | StartNewTurn mid pid conf => snd (startNewTurn clk mid pid conf w)
  | EndCurrentTurn mid u => snd (endCurrentTurn clk mid u w)
  | GetMeetingStatus mid => w
  | EndMeeting mid => snd (endMeeting clk mid w)
  | Cleanup => cleanup w
  end.

Fixpoint run (calls : list (Clock * Op)) (w : Manager) : Manager :=
  match calls with
  | [] => w
  | (clk, op) :: rest => run rest (perform clk op w)
  end.

(** ** Invariants of every meeting held by the manager *)

Definition all_meetings (P : Meeting → Prop) (w : Manager) : Prop :=
  ∀ mid m, meetings w !! mid = Some m → P m.

(** The turns of a meeting that are still open: those of the history with no
    end time, and the current one. *)
Definition openTurns (m : Meeting) : list Turn :=
  filter (λ t, endTime t = None) (turnHistory m ++ option_list (currentTurn m)).

Definition atMostOneOpenTurn (m : Meeting) : Prop := (length (openTurns m) ≤ 1)%nat.

Definition speakerIffTurn (m : Meeting) : Prop :=
  (activeSpeaker m ≠ None ↔ currentTurn m ≠ None) ∧
  (∀ t, currentTurn m = Some t → activeSpeaker m = Some (participantId t)).

(** The inductive form: every turn of the history is closed and the active
    speaker is read off the current turn. *)
Definition turns_ok (m : Meeting) : Prop :=
  Forall (λ t, endTime t ≠ None) (turnHistory m) ∧
  activeSpeaker m = participantId <$> currentTurn m.

(** Every participant is stored under its own id. *)
Definition keyed (m : Meeting) : Prop :=
  ∀ k p, participants m !! k = Some p → p_id p = k.

Definition durations (h : list Turn) : Z :=
  foldr (λ t acc, default 0 (duration t) + acc) 0 h.

Definition turnsOf (pid : string) (h : list Turn) : list Turn :=
  filter (λ t, participantId t = pid) h.

Definition participantTimeMatches (m : Meeting) : Prop :=
  ∀ k p, participants m !! k = Some p →
         speakingTime p = durations (turnsOf k (turnHistory m)).

Definition totalTimeMatches (m : Meeting) : Prop :=
  totalSpeakingTime (statistics m) = durations (turnHistory m).

(** [addParticipant] is not applied to the id [k] of the meeting [mid] while
    the history attributes a completed turn to [k]. *)
Definition freshAdd (mid k : string) (c : JoinClock) (info : ParticipantInfo) (m : Meeting)
    : Prop :=
  meetingId m = mid → resolveParticipantId (at_id c) info = k →
  turnsOf k (turnHistory m) = [].

Section Preservation.
Variable P : Meeting → Prop.
Variable ok_add : JoinClock → ParticipantInfo → Meeting → Prop.

Hypothesis P_new : ∀ startTime mid, P (newMeetingState startTime mid).
Hypothesis P_log : ∀ limit now ty pid m, P m → P (logConversationEventIn limit now ty pid m).
Hypothesis P_end : ∀ now m, P m → P (fst (endCurrentTurnIn now m)).
Hypothesis P_start : ∀ te ts st pid conf m, P m → P (startNewTurnIn te ts st pid conf m).
Hypothesis P_add : ∀ limit c info m,
  ok_add c info m → P m → P (addParticipantIn limit c info m).
Hypothesis P_left : ∀ now pid p m,
  participants m !! pid = Some p → P m →
  P (set_participants (insert pid (mark_left now p)) m).
Hypothesis P_activity : ∀ now pid m,
  P m → P (set_participants (alter (set_lastActivity now) pid) m).
Hypothesis P_ended : ∀ now m, P m → P (set_ended now m).

(** The one side condition: what [addParticipant] is applied to. *)
Definition admissible (clk : Clock) (op : Op) (w : Manager) : Prop :=
  match op with
  | AddParticipant mid info _ =>
      ∀ m, meetings w !! mid = Some m → ok_add (at_joins clk O) info m
  | _ => True
  end.

Fixpoint admissible_run (calls : list (Clock * Op)) (w : Manager) : Prop :=
  match calls with
  | [] => True
  | (clk, op) :: rest => admissible clk op w ∧ admissible_run rest (perform clk op w)
  end.

Lemma all_meetings_insert mid m w :
  P m → all_meetings P w → all_meetings P (set_meetings (insert mid m) w).
Proof.
  intros Hm Hw k m'. simpl. rewrite lookup_insert.
  case_decide; [intros [= <-]; exact Hm | apply Hw].
Qed.

Lemma addInitialParticipants_returns cs mid ps w :
  is_Some (meetings w !! mid) →
  ∃ w', addInitialParticipants cs mid ps w = (Return tt, w').
Proof.
  revert cs w. induction ps as [|p rest IH]; intros cs w [m0 E]; simpl; [by eexists|].
  unfold addParticipant. rewrite E. apply IH. simpl. rewrite lookup_insert_eq. by eexists.
Qed.

Lemma addInitialParticipants_throw cs mid ps w msg w' :
  addInitialParticipants cs mid ps w = (Throw msg, w') →
  w' = w ∧ meetings w !! mid = None ∧ ps ≠ [].
Proof.
  destruct (meetings w !! mid) as [m0|] eqn:E.
  - destruct (addInitialParticipants_returns cs mid ps w) as [w1 H1]; [by eexists|].
    rewrite H1. discriminate.
  - destruct ps as [|p rest]; simpl; [discriminate|].
    unfold addParticipant. rewrite E. intros [= _ <-]. done.
Qed.

Lemma addInitialParticipants_other cs mid ps w k :
  k ≠ mid →
  meetings (snd (addInitialParticipants cs mid ps w)) !! k = meetings w !! k.
Proof.
  intros Hk. revert cs w. induction ps as [|p rest IH]; intros cs w; simpl; [reflexivity|].
  unfold addParticipant. destruct (meetings w !! mid); simpl; [|reflexivity].
  rewrite IH. simpl. by rewrite lookup_insert_ne.
Qed.

Lemma perform_preserves clk op w :
  admissible clk op w → all_meetings P w → all_meetings P (perform clk op w).
Proof.
  intros Hadm Hw. destruct op as [mid ps|mid info u|mid pid|mid d|mid pid conf|mid u|mid|mid|];
    simpl.
  - (* initializeMeeting *)
    unfold initializeMeeting.
    destruct (addInitialParticipants (at_joins clk) mid ps w) as [[msg|[]] w'] eqn:E; simpl.
    + apply addInitialParticipants_throw in E as (-> & _ & _). exact Hw.
    + intros k m'. simpl. rewrite lookup_insert. case_decide as Hk.
      * intros [= <-]. apply P_new.
      * pose proof (addInitialParticipants_other (at_joins clk) mid ps w k (not_eq_sym Hk))
          as Ho.
        rewrite E in Ho. simpl in Ho. rewrite Ho. apply Hw.
  - (* addParticipant *)
    unfold addParticipant. destruct (meetings w !! mid) as [m|] eqn:E; simpl; [|exact Hw].
    apply all_meetings_insert; [|exact Hw]. apply P_add; [by apply Hadm | by eapply Hw].
  - (* removeParticipant *)
    unfold removeParticipant. destruct (meetings w !! mid) as [m|] eqn:E; simpl; [|exact Hw].
    destruct (participants m !! pid) as [p|] eqn:Ep; simpl; [|exact Hw].
    apply all_meetings_insert; [|exact Hw]. apply P_log.
    assert (P (set_participants (insert pid (mark_left (at_leave clk) p)) m)) as Hm
      by (apply P_left; [exact Ep | by eapply Hw]).
    case_bool_decide; [by apply P_end | exact Hm].
  - (* handleVoiceActivity *)
    unfold handleVoiceActivity. destruct (meetings w !! mid) as [m|] eqn:E; simpl; [|exact Hw].
    destruct (participants m !! va_participantId d) as [p|] eqn:Ep; simpl; [|exact Hw].
    apply all_meetings_insert; [|exact Hw]. apply P_log, P_activity.
    pose proof (Hw _ _ E) as Hm.
    destruct (va_isSpeaking d && Qgtb (va_confidence d) (7 # 10)); [by apply P_start|].
    destruct (negb (va_isSpeaking d) && bool_decide (activeSpeaker m = Some (va_participantId d)));
      [by apply P_end | exact Hm].
  - (* startNewTurn *)
    unfold startNewTurn. destruct (meetings w !! mid) as [m|] eqn:E; simpl; [|exact Hw].
    apply all_meetings_insert; [|exact Hw]. apply P_start. by eapply Hw.
  - (* endCurrentTurn *)
    unfold endCurrentTurn. destruct (meetings w !! mid) as [m|] eqn:E; simpl; [|exact Hw].
    pose proof (P_end (at_turnEnd clk) m (Hw _ _ E)) as Hm.
    destruct (endCurrentTurnIn (at_turnEnd clk) m) as [m' c]. simpl in *.
    by apply all_meetings_insert.
  - exact Hw.
  - (* endMeeting *)
    unfold endMeeting. destruct (meetings w !! mid) as [m|] eqn:E; simpl; [|exact Hw].
    apply all_meetings_insert; [|exact Hw]. apply P_log, P_ended.
    pose proof (Hw _ _ E) as Hm.
    destruct (currentTurn m); [by apply P_end | exact Hm].
  - intros k m'. simpl. by rewrite lookup_empty.
Qed.

Lemma run_preserves calls w :
  admissible_run calls w → all_meetings P w → all_meetings P (run calls w).
Proof.
  revert w. induction calls as [|[clk op] rest IH]; intros w Hadm Hw; simpl; [exact Hw|].
  destruct Hadm as [Ha Hr]. apply IH; [exact Hr|]. by apply perform_preserves.
Qed.

Lemma all_meetings_new cfg : all_meetings P (newManager cfg).
Proof. intros k m. simpl. by rewrite lookup_empty. Qed.
End Preservation.

Lemma admissible_run_trivial calls w : admissible_run (λ _ _ _, True) calls w.
Proof.
  revert w. induction calls as [|[clk op] rest IH]; intros w; simpl; [done|].
  split; [by destruct op | apply IH].
Qed.

Lemma run_from_steps (P : Manager → Prop) calls w :
  (∀ clk op w, P w → P (perform clk op w)) → P w → P (run calls w).
Proof.
  intros Hstep. revert w. induction calls as [|[clk op] rest IH]; intros w Hw; simpl;
    [exact Hw | by apply IH, Hstep].
Qed.

(** ** The single-open-turn invariant *)

Lemma turns_ok_new now mid : turns_ok (newMeetingState now mid).
Proof. split; [constructor | reflexivity]. Qed.

Lemma turns_ok_end now m : turns_ok m → turns_ok (fst (endCurrentTurnIn now m)).
Proof.
  intros [Hh Hs]. unfold endCurrentTurnIn.
  destruct (currentTurn m) as [cur|] eqn:E; simpl;
    [|split; [exact Hh | by rewrite E]].
  split; simpl; [|reflexivity].
  apply Forall_app. split; [exact Hh|]. by repeat constructor.
Qed.

Lemma turns_ok_start te ts st pid conf m : turns_ok m → turns_ok (startNewTurnIn te ts st pid conf m).
Proof.
  intros Hm. unfold startNewTurnIn.
  assert (turns_ok (match currentTurn m with
                    | Some _ => fst (endCurrentTurnIn te m)
                    | None => m
                    end)) as [Hh _]
    by (destruct (currentTurn m); [by apply turns_ok_end | exact Hm]).
  split; simpl; [exact Hh | reflexivity].
Qed.

Lemma turns_ok_perform clk op w :
  all_meetings turns_ok w → all_meetings turns_ok (perform clk op w).
Proof.
  apply (perform_preserves turns_ok (λ _ _ _, True)).
  - apply turns_ok_new.
  - by intros limit now' ty pid m [? ?].
  - apply turns_ok_end.
  - apply turns_ok_start.
  - by intros limit now' info m _ [? ?].
  - by intros now' pid p m _ [? ?].
  - by intros now' pid m [? ?].
  - by intros now' m [? ?].
  - by destruct op.
Qed.

Lemma turns_ok_run cfg calls : all_meetings turns_ok (run calls (newManager cfg)).
Proof.
  apply run_from_steps; [apply turns_ok_perform|].
  intros k m. simpl. by rewrite lookup_empty.
Qed.

Lemma turns_ok_sound m : turns_ok m → atMostOneOpenTurn m ∧ speakerIffTurn m.
Proof.
  intros [Hh Hs]. split.
  - unfold atMostOneOpenTurn, openTurns. rewrite filter_app, length_app.
    assert (filter (λ t, endTime t = None) (turnHistory m) = []) as ->.
    { induction Hh as [|t h Ht _ IH]; [reflexivity|]. by rewrite filter_cons_False. }
    simpl. etrans; [apply length_filter|]. destruct (currentTurn m); simpl; lia.
  - unfold speakerIffTurn. rewrite Hs. destruct (currentTurn m) as [t|]; simpl.
    + split; [done|]. by intros t' [= ->].
    + done.
Qed.

(** ** Participants are stored under their own id *)

Lemma keyed_alter f pid m :
  (∀ p, p_id (f p) = p_id p) → keyed m → keyed (set_participants (alter f pid) m).
Proof.
  intros Hf Hm k p. simpl. rewrite lookup_alter. case_decide as Hk.
  - subst k. destruct (participants m !! pid) as [p0|] eqn:E; simpl; [|done].
    intros [= <-]. rewrite Hf. by apply Hm.
  - apply Hm.
Qed.

Lemma keyed_end now m : keyed m → keyed (fst (endCurrentTurnIn now m)).
Proof.
  intros Hm. unfold endCurrentTurnIn.
  destruct (currentTurn m) as [cur|] eqn:E; simpl; [|exact Hm].
  exact (keyed_alter (add_speakingTime _) _ m (λ _, eq_refl) Hm).
Qed.

Lemma keyed_start te ts st pid conf m : keyed m → keyed (startNewTurnIn te ts st pid conf m).
Proof.
  intros Hm. unfold startNewTurnIn.
  assert (keyed (match currentTurn m with
                 | Some _ => fst (endCurrentTurnIn te m)
                 | None => m
                 end)) as Hm'
    by (destruct (currentTurn m); [by apply keyed_end | exact Hm]).
  exact (keyed_alter incr_turnCount pid _ (λ _, eq_refl) Hm').
Qed.

Lemma keyed_perform clk op w :
  all_meetings keyed w → all_meetings keyed (perform clk op w).
Proof.
  apply (perform_preserves keyed (λ _ _ _, True)).
  - intros now' mid k p. simpl. by rewrite lookup_empty.
  - by intros limit now' ty pid m Hm.
  - apply keyed_end.
  - apply keyed_start.
  - intros limit now' info m _ Hm k p. simpl. rewrite lookup_insert.
    case_decide; [by intros [= <-] | apply Hm].
  - intros now' pid p m Ep Hm k q. simpl. rewrite lookup_insert.
    case_decide as Hk; [intros [= <-]; simpl; rewrite <- Hk; by apply Hm | apply Hm].
  - intros now' pid m Hm. exact (keyed_alter (set_lastActivity now') pid m (λ _, eq_refl) Hm).
  - by intros now' m Hm.
  - by destruct op.
Qed.

Lemma keyed_run cfg calls : all_meetings keyed (run calls (newManager cfg)).
Proof.
  apply run_from_steps; [apply keyed_perform|].
  intros k m. simpl. by rewrite lookup_empty.
Qed.

(** ** Speaking time against the turn history *)

Lemma durations_app h1 h2 : durations (h1 ++ h2) = durations h1 + durations h2.
Proof. induction h1 as [|t h IH]; simpl; [reflexivity|]. rewrite IH. lia. Qed.

Lemma turnsOf_snoc k h t :
  turnsOf k (h ++ [t]) = turnsOf k h ++ (if decide (participantId t = k) then [t] else []).
Proof. unfold turnsOf. by rewrite filter_app, filter_singleton. Qed.

Lemma totalTimeMatches_end now m :
  totalTimeMatches m → totalTimeMatches (fst (endCurrentTurnIn now m)).
Proof.
  unfold totalTimeMatches, endCurrentTurnIn. intros Hm.
  destruct (currentTurn m) as [cur|]; simpl; [|exact Hm].
  rewrite durations_app, Hm. simpl. lia.
Qed.

Lemma totalTimeMatches_start te ts st pid conf m :
  totalTimeMatches m → totalTimeMatches (startNewTurnIn te ts st pid conf m).
Proof.
  intros Hm. unfold startNewTurnIn.
  assert (totalTimeMatches (match currentTurn m with
                            | Some _ => fst (endCurrentTurnIn te m)
                            | None => m
                            end)) as Hm'
    by (destruct (currentTurn m); [by apply totalTimeMatches_end | exact Hm]).
  exact Hm'.
Qed.

Lemma totalTimeMatches_run cfg calls :
  all_meetings totalTimeMatches (run calls (newManager cfg)).
Proof.
  apply (run_preserves totalTimeMatches (λ _ _ _, True)).
  - reflexivity.
  - by intros limit now ty pid m Hm.
  - apply totalTimeMatches_end.
  - apply totalTimeMatches_start.
  - by intros limit now info m _ Hm.
  - by intros now pid p m _ Hm.
  - by intros now pid m Hm.
  - by intros now m Hm.
  - apply admissible_run_trivial.
  - apply all_meetings_new.
Qed.

(** The speaking time of the participant [k] of the meeting [mid] against
    the turns the history attributes to [k]. *)
Definition speakingTimeMatches (mid k : string) (m : Meeting) : Prop :=
  meetingId m = mid →
  ∀ p, participants m !! k = Some p → speakingTime p = durations (turnsOf k (turnHistory m)).

Lemma speakingTimeMatches_alter mid k f pid m :
  (∀ p, speakingTime (f p) = speakingTime p) →
  speakingTimeMatches mid k m → speakingTimeMatches mid k (set_participants (alter f pid) m).
Proof.
  intros Hf Hm Hid p. simpl. rewrite lookup_alter. case_decide as Hk.
  - subst k. destruct (participants m !! pid) as [p0|] eqn:E; simpl; [|done].
    intros [= <-]. rewrite Hf. by apply Hm.
  - by apply Hm.
Qed.

Lemma meetingId_end now m : meetingId (fst (endCurrentTurnIn now m)) = meetingId m.
Proof. unfold endCurrentTurnIn. by destruct (currentTurn m). Qed.

Lemma meetingId_start te ts st pid conf m :
  meetingId (startNewTurnIn te ts st pid conf m) = meetingId m.
Proof. unfold startNewTurnIn. simpl. destruct (currentTurn m); [apply meetingId_end | done]. Qed.

Lemma speakingTimeMatches_end mid k now m :
  speakingTimeMatches mid k m → speakingTimeMatches mid k (fst (endCurrentTurnIn now m)).
Proof.
  intros Hm Hid. rewrite meetingId_end in Hid. specialize (Hm Hid). revert Hm.
  unfold endCurrentTurnIn. destruct (currentTurn m) as [cur|]; simpl; [|done].
  intros Hm p. rewrite lookup_alter, turnsOf_snoc, durations_app. simpl.
  case_decide as Hk.
  - subst k. destruct (participants m !! participantId cur) as [p0|] eqn:E; simpl; [|done].
    intros [= <-]. simpl. rewrite (Hm p0 eq_refl). lia.
  - intros Hp. rewrite (Hm _ Hp). simpl. lia.
Qed.

Lemma speakingTimeMatches_start mid k te ts st pid conf m :
  speakingTimeMatches mid k m → speakingTimeMatches mid k (startNewTurnIn te ts st pid conf m).
Proof.
  intros Hm. unfold startNewTurnIn.
  assert (speakingTimeMatches mid k (match currentTurn m with
                                     | Some _ => fst (endCurrentTurnIn te m)
                                     | None => m
                                     end)) as Hm'
    by (destruct (currentTurn m); [by apply speakingTimeMatches_end | exact Hm]).
  exact (speakingTimeMatches_alter mid k incr_turnCount pid _ (λ _, eq_refl) Hm').
Qed.

(** Every meeting is stored under its own id. *)
Definition ownIds (w : Manager) : Prop :=
  ∀ mid m, meetings w !! mid = Some m → meetingId m = mid.

Lemma ownIds_insert mid m w :
  meetingId m = mid → ownIds w → ownIds (set_meetings (insert mid m) w).
Proof.
  intros Hm Hw k m'. simpl. rewrite lookup_insert.
  case_decide as Hk; [intros [= <-]; by subst k | apply Hw].
Qed.

Lemma ownIds_addInitialParticipants cs mid ps w :
  ownIds w → ownIds (snd (addInitialParticipants cs mid ps w)).
Proof.
  revert cs w. induction ps as [|p rest IH]; intros cs w Hw; simpl; [exact Hw|].
  unfold addParticipant. destruct (meetings w !! mid) as [m|] eqn:E; simpl; [|exact Hw].
  apply IH. apply ownIds_insert; [|exact Hw]. simpl. by apply Hw.
Qed.

Lemma ownIds_perform clk op w : ownIds w → ownIds (perform clk op w).
Proof.
  intros Hw. destruct op as [mid ps|mid info u|mid pid|mid d|mid pid conf|mid u|mid|mid|];
    simpl.
  - unfold initializeMeeting.
    pose proof (ownIds_addInitialParticipants (at_joins clk) mid ps w Hw) as Hw'.
    destruct (addInitialParticipants (at_joins clk) mid ps w) as [[msg|[]] w']; simpl in *;
      [exact Hw'|].
    by apply ownIds_insert.
  - unfold addParticipant. destruct (meetings w !! mid) as [m|] eqn:E; simpl; [|exact Hw].
    apply ownIds_insert; [|exact Hw]. simpl. by apply Hw.
  - unfold removeParticipant. destruct (meetings w !! mid) as [m|] eqn:E; simpl; [|exact Hw].
    destruct (participants m !! pid) as [p|] eqn:Ep; simpl; [|exact Hw].
    apply ownIds_insert; [|exact Hw]. simpl.
    case_bool_decide; [rewrite meetingId_end|]; simpl; by apply Hw.
  - unfold handleVoiceActivity. destruct (meetings w !! mid) as [m|] eqn:E; simpl; [|exact Hw].
    destruct (participants m !! va_participantId d) as [p|] eqn:Ep; simpl; [|exact Hw].
    apply ownIds_insert; [|exact Hw]. simpl.
    destruct (va_isSpeaking d && Qgtb (va_confidence d) (7 # 10));
      [rewrite meetingId_start; by apply Hw|].
    destruct (negb (va_isSpeaking d) && bool_decide (activeSpeaker m = Some (va_participantId d)));
      [rewrite meetingId_end|]; by apply Hw.
  - unfold startNewTurn. destruct (meetings w !! mid) as [m|] eqn:E; simpl; [|exact Hw].
    apply ownIds_insert; [|exact Hw]. rewrite meetingId_start. by apply Hw.
  - unfold endCurrentTurn. destruct (meetings w !! mid) as [m|] eqn:E; simpl; [|exact Hw].
    pose proof (meetingId_end (at_turnEnd clk) m) as Hid.
    destruct (endCurrentTurnIn (at_turnEnd clk) m) as [m' c]. simpl in *.
    apply ownIds_insert; [|exact Hw]. rewrite Hid. by apply Hw.
  - exact Hw.
  - unfold endMeeting. destruct (meetings w !! mid) as [m|] eqn:E; simpl; [|exact Hw].
    apply ownIds_insert; [|exact Hw]. simpl.
    destruct (currentTurn m); [rewrite meetingId_end|]; by apply Hw.
  - intros k m'. simpl. by rewrite lookup_empty.
Qed.

(** No call of the sequence applies [addParticipant], in the meeting [mid],
    to the id [k] while the history of that meeting attributes a turn to
    [k]. *)
Fixpoint neverReadded (mid k : string) (calls : list (Clock * Op)) (w : Manager) : Prop :=
  match calls with
  | [] => True
  | (clk, op) :: rest =>
      match op with
      | AddParticipant mid' info _ =>
          mid' = mid → resolveParticipantId (at_id (at_joins clk O)) info = k →
          ∀ m, meetings w !! mid = Some m → turnsOf k (turnHistory m) = []
      | _ => True
      end ∧ neverReadded mid k rest (perform clk op w)
  end.

Lemma neverReadded_admissible mid k calls w :
  ownIds w → neverReadded mid k calls w → admissible_run (freshAdd mid k) calls w.
Proof.
  revert w. induction calls as [|[clk op] rest IH]; intros w Hw; simpl; [done|].
  intros [Hop Hrest]. split; [|apply IH; [by apply ownIds_perform | exact Hrest]].
  destruct op as [mid' ps|mid' info u|mid' pid|mid' d|mid' pid conf|mid' u|mid'|mid'|];
    simpl; try exact I.
  intros m Hm Hid Hk. pose proof (Hw _ _ Hm) as Hown.
  assert (mid' = mid) as -> by congruence. by apply (Hop eq_refl Hk m).
Qed.

Lemma speakingTimeMatches_run mid k cfg calls :
  neverReadded mid k calls (newManager cfg) →
  all_meetings (speakingTimeMatches mid k) (run calls (newManager cfg)).
Proof.
  intros Hnever.
  apply (run_preserves (speakingTimeMatches mid k) (freshAdd mid k)).
  - intros startTime mid' _ p. simpl. by rewrite lookup_empty.
  - by intros limit now ty pid m Hm.
  - apply speakingTimeMatches_end.
  - apply speakingTimeMatches_start.
  - intros limit c info m Hfresh Hm Hid p. simpl in *. rewrite lookup_insert.
    case_decide as Hk; [|by apply Hm]. intros [= <-]. simpl.
    by rewrite (Hfresh Hid Hk).
  - intros now pid p m Ep Hm Hid q. simpl in *. rewrite lookup_insert.
    case_decide as Hk; [|by apply Hm]. intros [= <-]. subst k. simpl. by apply Hm.
  - intros now pid m Hm.
    exact (speakingTimeMatches_alter mid k (set_lastActivity now) pid m (λ _, eq_refl) Hm).
  - by intros now m Hm.
  - apply neverReadded_admissible; [|exact Hnever].
    intros k' m'. simpl. by rewrite lookup_empty.
  - apply all_meetings_new.
Qed.

(** ** Worked inputs *)

Definition guest (i : string) : ParticipantInfo :=
  {| info_id := Some i; info_email := None; info_displayName := None;
     info_name := None; info_role := None |}.

Definition report (pid : string) (speaking : bool) (conf : Q) : VoiceActivityData :=
  {| va_participantId := pid; va_isSpeaking := speaking; va_confidence := conf;
     va_audioLevel := 0%Q |}.

(** The readings of one [addParticipant] that sees the clock at [now]
    throughout. *)
Definition joinAt (now : Z) : JoinClock := at_joins (instant now) O.

(** An empty meeting, two joins, [p1] speaks and [p2] takes over. *)
Definition handover_calls : list (Clock * Op) :=
  [ (instant 0, InitializeMeeting "m1" []);
    (instant 1, AddParticipant "m1" (guest "p1") true);
    (instant 2, AddParticipant "m1" (guest "p2") true);
    (instant 1000, HandleVoiceActivity "m1" (report "p1" true (9 # 10)));
    (instant 1800, HandleVoiceActivity "m1" (report "p2" true (8 # 10))) ].

Definition meeting_of (w : Manager) (mid : string) : Meeting :=
  default (newMeetingState 0 mid) (meetings w !! mid).

Definition handover_meeting : Meeting :=
  meeting_of (run handover_calls (newManager defaultConfig)) "m1".

(** [p1] speaks for two seconds after joining through [addParticipant]. *)
Definition two_second_calls : list (Clock * Op) :=
  [ (instant 0, InitializeMeeting "m1" []);
    (instant 1, AddParticipant "m1" (guest "p1") true);
    (instant 2, AddParticipant "m1" (guest "p2") true);
    (instant 1000, HandleVoiceActivity "m1" (report "p1" true (9 # 10)));
    (instant 3000, HandleVoiceActivity "m1" (report "p1" false 0)) ].

Definition two_second_meeting : Meeting :=
  meeting_of (run two_second_calls (newManager defaultConfig)) "m1".

(** The same, after which [p1] is added a second time. *)
Definition rejoin_calls : list (Clock * Op) :=
  two_second_calls ++ [ (instant 4000, AddParticipant "m1" (guest "p1") true) ].

Definition rejoin_meeting : Meeting :=
  meeting_of (run rejoin_calls (newManager defaultConfig)) "m1".

(** ** C1 *)

(** C1. Whatever sequence of calls the manager has served, every meeting it
    holds has at most one open turn, and its [activeSpeaker] is set exactly
    when its [currentTurn] is, to that turn's participant. *)
Theorem single_open_turn_invariant (cfg : Config) (calls : list (Clock * Op))
    (mid : string) (m : Meeting) :
  meetings (run calls (newManager cfg)) !! mid = Some m →
  atMostOneOpenTurn m ∧ speakerIffTurn m.
Proof. intros H. apply turns_ok_sound. exact (turns_ok_run cfg calls mid m H). Qed.

Lemma single_open_turn_invariant_witness :
  meetings (run handover_calls (newManager defaultConfig)) !! "m1" = Some handover_meeting ∧
  currentTurn handover_meeting ≠ None ∧
  atMostOneOpenTurn handover_meeting ∧ speakerIffTurn handover_meeting.
Proof.
  split; [vm_compute; reflexivity|]. split; [vm_compute; discriminate|].
  apply (single_open_turn_invariant defaultConfig handover_calls "m1").
  vm_compute; reflexivity.
Defined.

(** ** C2 *)

Lemma initializeMeeting_fresh_throws clk mid p ps w :
  meetings w !! mid = None →
  initializeMeeting clk mid (p :: ps) w =
    (Throw "Meeting initialization failed: Failed to add participant: Meeting not found", w).
Proof.
  intros E. unfold initializeMeeting. simpl. unfold addParticipant. by rewrite E.
Qed.

Lemma initializeMeeting_existing_drops clk mid ps w :
  is_Some (meetings w !! mid) →
  ∃ r w', initializeMeeting clk mid ps w = (Return r, w') ∧
          meetings w' !! mid = Some (newMeetingState (at_meetingStart clk) mid).
Proof.
  intros Hm. unfold initializeMeeting.
  destruct (addInitialParticipants_returns (at_joins clk) mid ps w Hm) as [w1 ->].
  do 2 eexists. split; [reflexivity|]. simpl. by rewrite lookup_insert_eq.
Qed.

(** C2. On a manager that does not know [m1] yet,
    [initializeMeeting("m1", [p1, p2])] throws, because [addParticipant]
    looks the meeting up before the new state is stored; nothing is
    registered, and the voice-activity report that follows throws too;
    whatever the clock reads during the two calls. *)
Theorem initializeMeeting_with_participants_throws (clk later : Clock) :
  initializeMeeting clk "m1" [guest "p1"; guest "p2"] (newManager defaultConfig) =
    (Throw "Meeting initialization failed: Failed to add participant: Meeting not found",
     newManager defaultConfig) ∧
  fst (handleVoiceActivity later "m1" (report "p1" true (9 # 10)) (newManager defaultConfig)) =
    Throw "Voice activity handling failed: Meeting not found".
Proof. split; reflexivity. Qed.

(** The rest of the scenario holds once the participants are in: one
    completed turn of 2000 ms for [p1], and [totalTurns = 1]. *)
Lemma two_second_turn :
  turnHistory two_second_meeting =
    [ {| participantId := "p1"; startTime := 1000; confidence := 9 # 10;
         turnId := (1000, "p1"); endTime := Some 3000; duration := Some 2000 |} ] ∧
  totalTurns (statistics two_second_meeting) = 1 ∧
  currentTurn two_second_meeting = None.
Proof. vm_compute. done. Qed.

(** ** C5 *)

(** C5, as stated, fails: after [p1] has spoken for 2000 ms, adding [p1]
    again stores a new record whose speaking time is 0. *)
Lemma rejoin_resets_speaking_time :
  ¬ (∀ calls mid m,
       meetings (run calls (newManager defaultConfig)) !! mid = Some m →
       participantTimeMatches m ∧ totalTimeMatches m).
Proof.
  intros H.
  destruct (H rejoin_calls "m1" rejoin_meeting) as [Hp _]; [vm_compute; reflexivity|].
  specialize (Hp "p1" (newParticipant (joinAt 4000) (guest "p1"))).
  assert (participants rejoin_meeting !! "p1" = Some (newParticipant (joinAt 4000) (guest "p1"))) as E
    by (vm_compute; reflexivity).
  specialize (Hp E). vm_compute in Hp. discriminate.
Qed.

(** C5, amended.  After every sequence of calls, the total speaking time of
    a meeting the manager holds is the sum of the durations of its turn
    history; and the speaking time of its participant [k] is the sum of the
    durations of the turns the history attributes to [k], provided that no
    call of the sequence applied [addParticipant], in this meeting, to the
    id [k] while the history of the meeting attributed a turn to [k].  What
    is added to other meetings, or under other ids, does not matter. *)
Theorem speaking_time_matches_history (cfg : Config) (calls : list (Clock * Op))
    (mid : string) (m : Meeting) :
  meetings (run calls (newManager cfg)) !! mid = Some m →
  totalSpeakingTime (statistics m) = durations (turnHistory m) ∧
  ∀ k p, neverReadded mid k calls (newManager cfg) →
         participants m !! k = Some p →
         speakingTime p = durations (turnsOf k (turnHistory m)).
Proof.
  intros H. split.
  - exact (totalTimeMatches_run cfg calls mid m H).
  - intros k p Hnever Hp.
    apply (speakingTimeMatches_run mid k cfg calls Hnever mid m H); [|exact Hp].
    apply (run_from_steps ownIds calls (newManager cfg)) in H; [exact H| |].
    + intros clk op w. apply ownIds_perform.
    + intros k' m'. simpl. by rewrite lookup_empty.
Qed.

(** [p2] speaks for half a second and [p1] for two seconds; then [p2], to
    whom the history attributes a turn, is added a second time. *)
Definition readd_calls : list (Clock * Op) :=
  [ (ticking 0, InitializeMeeting "m1" []);
    (ticking 10, AddParticipant "m1" (guest "p1") true);
    (ticking 20, AddParticipant "m1" (guest "p2") true);
    (ticking 1000, HandleVoiceActivity "m1" (report "p2" true (8 # 10)));
    (ticking 1500, HandleVoiceActivity "m1" (report "p2" false 0));
    (ticking 2000, HandleVoiceActivity "m1" (report "p1" true (9 # 10)));
    (ticking 4000, HandleVoiceActivity "m1" (report "p1" false 0));
    (ticking 5000, AddParticipant "m1" (guest "p2") true) ].

Definition readd_meeting : Meeting :=
  meeting_of (run readd_calls (newManager defaultConfig)) "m1".

Definition readd_p1 : Participant :=
  default (newParticipant (joinAt 0) (guest "p1")) (participants readd_meeting !! "p1").

Definition readd_p2 : Participant :=
  default (newParticipant (joinAt 0) (guest "p1")) (participants readd_meeting !! "p2").

Lemma speaking_time_matches_history_witness :
  meetings (run readd_calls (newManager defaultConfig)) !! "m1" = Some readd_meeting ∧
  neverReadded "m1" "p1" readd_calls (newManager defaultConfig) ∧
  participants readd_meeting !! "p1" = Some readd_p1 ∧
  participants readd_meeting !! "p2" = Some readd_p2 ∧
  totalSpeakingTime (statistics readd_meeting) = 2498 ∧
  durations (turnHistory readd_meeting) = 2498 ∧
  speakingTime readd_p1 = 1999 ∧
  durations (turnsOf "p1" (turnHistory readd_meeting)) = 1999 ∧
  speakingTime readd_p2 = 0 ∧
  durations (turnsOf "p2" (turnHistory readd_meeting)) = 499.
Proof.
  assert (neverReadded "m1" "p1" readd_calls (newManager defaultConfig)) as Hnever.
  { repeat split.
    - intros _ _ m Hm. vm_compute in Hm. injection Hm as <-. reflexivity.
    - intros _ Hk. vm_compute in Hk. discriminate Hk.
    - intros _ Hk. vm_compute in Hk. discriminate Hk. }
  destruct (speaking_time_matches_history defaultConfig readd_calls "m1" readd_meeting)
    as [Ht Hp]; [vm_compute; reflexivity|].
  assert (participants readd_meeting !! "p1" = Some readd_p1) as Hp1
    by (vm_compute; reflexivity).
  specialize (Hp "p1" readd_p1 Hnever Hp1).
  assert (durations (turnHistory readd_meeting) = 2498) as Hd by (vm_compute; reflexivity).
  assert (durations (turnsOf "p1" (turnHistory readd_meeting)) = 1999) as Hd1
    by (vm_compute; reflexivity).
  split; [vm_compute; reflexivity|]. split; [exact Hnever|]. split; [exact Hp1|].
  split; [vm_compute; reflexivity|].
  split; [exact (eq_trans Ht Hd)|]. split; [exact Hd|].
  split; [exact (eq_trans Hp Hd1)|]. split; [exact Hd1|].
  split; vm_compute; reflexivity.
Defined.

(** ** C8 *)

Lemma activeParticipants_lookup m k :
  activeParticipants m !! k =
    match participants m !! k with
    | Some q => if decide (status q = StatusActive) then Some q else None
    | None => None
    end.
Proof.
  unfold activeParticipants.
  destruct (participants m !! k) as [q|] eqn:E.
  - case_decide as Hs.
    + apply map_lookup_filter_Some. by split.
    + apply map_lookup_filter_None. right. intros q' Hq'. simpl.
      assert (q' = q) as -> by congruence. exact Hs.
  - apply map_lookup_filter_None. by left.
Qed.

(** C8. In a meeting the manager holds, let [p1] be a participant and the
    active speaker.  [removeParticipant] returns.  [p1]'s open turn is
    appended to the history with the reading of the clock in
    [endCurrentTurn] as its [endTime] and that reading minus the turn's
    [startTime] as its [duration]; no turn is open any more.  [p1] stays in
    the participant map, with status [left], the reading in
    [removeParticipant] as [leaveTime] and the turn's duration added to the
    speaking time; every other participant is as before.  The next
    [getMeetingStatus] lists exactly the other active participants, and so
    not [p1]. *)
Theorem removeParticipant_closes_active_turn (cfg : Config) (calls : list (Clock * Op))
    (clk later : Clock) (mid p1 : string) (m : Meeting) (p : Participant) :
  let w := run calls (newManager cfg) in
  meetings w !! mid = Some m →
  participants m !! p1 = Some p →
  activeSpeaker m = Some p1 →
  ∃ cur m' sr,
    currentTurn m = Some cur ∧ participantId cur = p1 ∧
    returned (fst (removeParticipant clk mid p1 w)) = true ∧
    meetings (snd (removeParticipant clk mid p1 w)) !! mid = Some m' ∧
    turnHistory m' =
      turnHistory m ++
        [ {| participantId := p1; startTime := startTime cur; confidence := confidence cur;
             turnId := turnId cur; endTime := Some (at_turnEnd clk);
             duration := Some (at_turnEnd clk - startTime cur) |} ] ∧
    currentTurn m' = None ∧ activeSpeaker m' = None ∧
    participants m' !! p1 =
      Some {| p_id := p_id p; displayName := displayName p; email := email p; role := role p;
              joinTime := joinTime p; lastActivity := lastActivity p;
              status := StatusLeft; leaveTime := Some (at_leave clk);
              speakingTime := speakingTime p + (at_turnEnd clk - startTime cur);
              turnCount := turnCount p; isMuted := isMuted p;
              isPresenting := isPresenting p |} ∧
    (∀ k, k ≠ p1 → participants m' !! k = participants m !! k) ∧
    dom (participants m') = dom (participants m) ∧
    getMeetingStatus later mid (snd (removeParticipant clk mid p1 w)) = Return sr ∧
    sr_list sr !! p1 = None ∧
    (∀ k s, sr_list sr !! k = Some s ↔
       k ≠ p1 ∧ ∃ q, participants m !! k = Some q ∧ status q = StatusActive ∧
         s = {| s_id := p_id q; s_displayName := displayName q; s_role := role q;
                s_speakingTime := speakingTime q; s_turnCount := turnCount q;
                s_lastActivity := lastActivity q |}).
Proof.
  intros w Hm Hp Hs.
  destruct (turns_ok_run cfg calls mid m Hm) as [_ Hsp].
  rewrite Hs in Hsp. destruct (currentTurn m) as [cur|] eqn:Ecur; [|discriminate].
  injection Hsp as Hcur.
  unfold getMeetingStatus, removeParticipant. rewrite Hm, Hp. simpl.
  rewrite bool_decide_eq_true_2 by exact Hs.
  unfold endCurrentTurnIn. simpl. rewrite Ecur. simpl.
  rewrite lookup_insert_eq.
  eexists cur, _, _. split; [reflexivity|]. split; [by symmetry|].
  split; [reflexivity|]. split; [reflexivity|]. simpl.
  split; [unfold complete; by rewrite <- Hcur|]. split; [reflexivity|]. split; [reflexivity|].
  assert (∀ k, k ≠ p1 →
            alter (add_speakingTime (at_turnEnd clk - startTime cur)) (participantId cur)
              (<[p1:=mark_left (at_leave clk) p]> (participants m)) !! k
            = participants m !! k) as Hother.
  { intros k Hk. rewrite <- Hcur, lookup_alter, decide_False by congruence.
    rewrite lookup_insert_ne by congruence. reflexivity. }
  assert (alter (add_speakingTime (at_turnEnd clk - startTime cur)) (participantId cur)
            (<[p1:=mark_left (at_leave clk) p]> (participants m)) !! p1
          = Some (add_speakingTime (at_turnEnd clk - startTime cur) (mark_left (at_leave clk) p)))
    as Hp1.
  { rewrite <- Hcur. rewrite lookup_alter, decide_True by reflexivity.
    by rewrite lookup_insert_eq. }
  split; [exact Hp1|]. split; [exact Hother|].
  split.
  { rewrite dom_alter_L. apply dom_insert_lookup_L. by eexists. }
  split; [reflexivity|]. simpl.
  split.
  { rewrite lookup_fmap, activeParticipants_lookup. simpl. rewrite Hp1. reflexivity. }
  intros k s. rewrite lookup_fmap, activeParticipants_lookup. simpl.
  destruct (decide (k = p1)) as [->|Hk].
  - rewrite Hp1. simpl. split; [discriminate | by intros [Hne _]].
  - rewrite (Hother k Hk). destruct (participants m !! k) as [q|]; simpl.
    + case_decide as Hq; simpl.
      * split.
        { intros [= <-]. split; [exact Hk|]. by exists q. }
        intros [_ (q' & [= <-] & _ & ->)]. reflexivity.
      * split; [discriminate|]. by intros [_ (q' & [= <-] & Hq' & _)].
    + split; [discriminate|]. intros [_ (q' & Hq' & _)]. discriminate.
Qed.

(** [p1] leaves while speaking. *)
Definition speaking_calls : list (Clock * Op) :=
  [ (ticking 0, InitializeMeeting "m1" []);
    (ticking 10, AddParticipant "m1" (guest "p1") true);
    (ticking 20, AddParticipant "m1" (guest "p2") true);
    (ticking 1000, HandleVoiceActivity "m1" (report "p1" true (9 # 10))) ].

Definition speaking_manager : Manager := run speaking_calls (newManager defaultConfig).

Definition speaking_meeting : Meeting := meeting_of speaking_manager "m1".

Definition speaking_p1 : Participant :=
  default (newParticipant (joinAt 0) (guest "p1")) (participants speaking_meeting !! "p1").

Definition speaking_turn : Turn :=
  {| participantId := "p1"; startTime := 1002; confidence := 9 # 10;
     turnId := (1003, "p1"); endTime := None; duration := None |}.

Lemma removeParticipant_closes_active_turn_witness :
  meetings speaking_manager !! "m1" = Some speaking_meeting ∧
  participants speaking_meeting !! "p1" = Some speaking_p1 ∧
  activeSpeaker speaking_meeting = Some "p1" ∧
  ∃ m' sr,
    meetings (snd (removeParticipant (ticking 2500) "m1" "p1" speaking_manager)) !! "m1"
      = Some m' ∧
    turnHistory m' =
      [ {| participantId := "p1"; startTime := 1002; confidence := 9 # 10;
           turnId := (1003, "p1"); endTime := Some 2501; duration := Some 1499 |} ] ∧
    participants m' !! "p1" =
      Some {| p_id := "p1"; displayName := "Unknown"; email := None; role := "participant";
              joinTime := 12; lastActivity := 1004;
              status := StatusLeft; leaveTime := Some 2500; speakingTime := 1499;
              turnCount := 1; isMuted := false; isPresenting := false |} ∧
    getMeetingStatus (ticking 2600) "m1"
      (snd (removeParticipant (ticking 2500) "m1" "p1" speaking_manager)) = Return sr ∧
    sr_list sr !! "p1" = None ∧
    sr_list sr !! "p2" =
      Some {| s_id := "p2"; s_displayName := "Unknown"; s_role := "participant";
              s_speakingTime := 0; s_turnCount := 0; s_lastActivity := 23 |}.
Proof.
  split; [vm_compute; reflexivity|]. split; [vm_compute; reflexivity|].
  split; [vm_compute; reflexivity|].
  destruct (removeParticipant_closes_active_turn defaultConfig speaking_calls
              (ticking 2500) (ticking 2600) "m1" "p1" speaking_meeting speaking_p1)
    as (cur & m' & sr & Hcur & _ & _ & Hm' & Hh & _ & _ & Hp1 & _ & _ & Hsr & Hno & Hlist);
    [vm_compute; reflexivity ..|].
  assert (cur = speaking_turn) as ->.
  { assert (currentTurn speaking_meeting = Some speaking_turn) as E
      by (vm_compute; reflexivity).
    congruence. }
  exists m', sr. split; [exact Hm'|]. split; [exact Hh|]. split; [exact Hp1|].
  split; [exact Hsr|]. split; [exact Hno|].
  apply Hlist. split; [discriminate|].
  eexists. split; [vm_compute; reflexivity|]. split; reflexivity.
Defined.

(** ** C10 *)

(** C10. While [p] holds the open turn, a further report from [p] with
    [isSpeaking] and a confidence above 0.7 closes that turn into the
    history, with the reading of the clock in [endCurrentTurn] as its
    [endTime] and that reading minus its [startTime] as its [duration], and
    opens a new turn for [p], which starts at the reading in [startNewTurn]
    and is named after the later reading of [Date.now()]: [p]'s turn count
    and the meeting's [totalTurns] both grow by one, and the duration of
    the closed turn is added to [p]'s speaking time and to the meeting's. *)
Theorem repeated_speech_report_splits_turn (clk : Clock) (mid p : string) (conf level : Q)
    (w : Manager) (m : Meeting) (cur : Turn) (q : Participant) :
  meetings w !! mid = Some m →
  participants m !! p = Some q →
  currentTurn m = Some cur →
  participantId cur = p →
  (7 # 10 < conf)%Q →
  let d := {| va_participantId := p; va_isSpeaking := true; va_confidence := conf;
              va_audioLevel := level |} in
  let closed := {| participantId := p; startTime := startTime cur;
                   confidence := confidence cur; turnId := turnId cur;
                   endTime := Some (at_turnEnd clk);
                   duration := Some (at_turnEnd clk - startTime cur) |} in
  let fresh := {| participantId := p; startTime := at_turnStart clk; confidence := conf;
                  turnId := (at_turnId clk, p); endTime := None; duration := None |} in
  ∃ m',
    fst (handleVoiceActivity clk mid d w) =
      Return {| vr_success := true; vr_error := None; vr_activeSpeaker := Some p;
                vr_currentTurn := Some fresh |} ∧
    meetings (snd (handleVoiceActivity clk mid d w)) !! mid = Some m' ∧
    turnHistory m' = turnHistory m ++ [closed] ∧
    currentTurn m' = Some fresh ∧ activeSpeaker m' = Some p ∧
    participants m' !! p =
      Some {| p_id := p_id q; displayName := displayName q; email := email q; role := role q;
              joinTime := joinTime q; lastActivity := at_activity clk;
              status := status q; leaveTime := leaveTime q;
              speakingTime := speakingTime q + (at_turnEnd clk - startTime cur);
              turnCount := turnCount q + 1; isMuted := isMuted q;
              isPresenting := isPresenting q |} ∧
    (∀ k, k ≠ p → participants m' !! k = participants m !! k) ∧
    totalTurns (statistics m') = totalTurns (statistics m) + 1 ∧
    totalSpeakingTime (statistics m') =
      totalSpeakingTime (statistics m) + (at_turnEnd clk - startTime cur).
Proof.
  intros Hm Hq Hcur Hp Hconf d closed fresh.
  apply Qgtb_lt in Hconf.
  unfold handleVoiceActivity. subst d closed fresh. simpl. rewrite Hm, Hq. simpl.
  rewrite Hconf. simpl.
  unfold startNewTurnIn, endCurrentTurnIn. rewrite Hcur. simpl.
  rewrite lookup_insert_eq.
  eexists. split; [reflexivity|]. split; [reflexivity|]. simpl.
  split; [unfold complete; by rewrite Hp|]. split; [reflexivity|]. split; [reflexivity|].
  split.
  { rewrite !lookup_alter, Hp, !decide_True by reflexivity. rewrite Hq. reflexivity. }
  split; [|done].
  intros k Hk. rewrite !lookup_alter, Hp, !decide_False by congruence. reflexivity.
Qed.

Lemma repeated_speech_report_splits_turn_witness :
  meetings speaking_manager !! "m1" = Some speaking_meeting ∧
  participants speaking_meeting !! "p1" = Some speaking_p1 ∧
  currentTurn speaking_meeting = Some speaking_turn ∧
  participantId speaking_turn = "p1" ∧
  (7 # 10 < 8 # 10)%Q ∧
  ∃ m',
    fst (handleVoiceActivity (ticking 1500) "m1" (report "p1" true (8 # 10)) speaking_manager) =
      Return {| vr_success := true; vr_error := None; vr_activeSpeaker := Some "p1";
                vr_currentTurn :=
                  Some {| participantId := "p1"; startTime := 1502; confidence := 8 # 10;
                          turnId := (1503, "p1"); endTime := None; duration := None |} |} ∧
    meetings (snd (handleVoiceActivity (ticking 1500) "m1" (report "p1" true (8 # 10))
                     speaking_manager)) !! "m1" = Some m' ∧
    turnHistory m' =
      [ {| participantId := "p1"; startTime := 1002; confidence := 9 # 10;
           turnId := (1003, "p1"); endTime := Some 1501; duration := Some 499 |} ] ∧
    currentTurn m' =
      Some {| participantId := "p1"; startTime := 1502; confidence := 8 # 10;
              turnId := (1503, "p1"); endTime := None; duration := None |} ∧
    activeSpeaker m' = Some "p1" ∧
    participants m' !! "p1" =
      Some {| p_id := "p1"; displayName := "Unknown"; email := None; role := "participant";
              joinTime := 12; lastActivity := 1504;
              status := StatusActive; leaveTime := None; speakingTime := 499;
              turnCount := 2; isMuted := false; isPresenting := false |} ∧
    totalTurns (statistics m') = 2 ∧
    totalSpeakingTime (statistics m') = 499.
Proof.
  split; [vm_compute; reflexivity|]. split; [vm_compute; reflexivity|].
  split; [vm_compute; reflexivity|]. split; [reflexivity|]. split; [reflexivity|].
  destruct (repeated_speech_report_splits_turn (ticking 1500) "m1" "p1" (8 # 10) 0
              speaking_manager speaking_meeting speaking_turn speaking_p1)
    as (m' & Hr & Hm' & Hh & Hc & Ha & Hp1 & _ & Ht & Hs);
    [vm_compute; reflexivity ..| reflexivity |].
  exists m'. split; [exact Hr|]. split; [exact Hm'|]. split; [exact Hh|].
  split; [exact Hc|]. split; [exact Ha|]. split; [exact Hp1|].
  split; [exact Ht | exact Hs].
Defined.

(** * Further properties of the turn-taking state machine *)

(** ** Counters against the history *)

Definition openCount (m : Meeting) : Z :=
  match currentTurn m with Some _ => 1 | None => 0 end.

(** [statistics.totalTurns] counts the turns that were opened: the closed
    ones of the history and the open one. *)
Definition totalTurnsMatches (m : Meeting) : Prop :=
  totalTurns (statistics m) = Z.of_nat (length (turnHistory m)) + openCount m.

Lemma totalTurnsMatches_end now m :
  totalTurnsMatches m → totalTurnsMatches (fst (endCurrentTurnIn now m)).
Proof.
  unfold totalTurnsMatches, endCurrentTurnIn, openCount. intros Hm.
  destruct (currentTurn m) as [cur|] eqn:E; simpl; [|by rewrite E].
  rewrite length_app. simpl. lia.
Qed.

Lemma totalTurnsMatches_start te ts st pid conf m :
  totalTurnsMatches m → totalTurnsMatches (startNewTurnIn te ts st pid conf m).
Proof.
  intros Hm. unfold startNewTurnIn.
  assert (totalTurnsMatches (match currentTurn m with
                             | Some _ => fst (endCurrentTurnIn te m)
                             | None => m
                             end) ∧
          currentTurn (match currentTurn m with
                       | Some _ => fst (endCurrentTurnIn te m)
                       | None => m
                       end) = None) as [Hm' Hnone].
  { destruct (currentTurn m) as [cur|] eqn:E.
    - split; [by apply totalTurnsMatches_end|]. unfold endCurrentTurnIn. by rewrite E.
    - by split. }
  revert Hm' Hnone. generalize (match currentTurn m with
                                | Some _ => fst (endCurrentTurnIn te m)
                                | None => m
                                end).
  intros m1. unfold totalTurnsMatches, openCount. simpl. intros H1 Hn. rewrite Hn in H1. lia.
Qed.

Lemma totalTurnsMatches_perform clk op w :
  all_meetings totalTurnsMatches w → all_meetings totalTurnsMatches (perform clk op w).
Proof.
  apply (perform_preserves totalTurnsMatches (λ _ _ _, True)).
  - reflexivity.
  - by intros limit now' ty pid m Hm.
  - apply totalTurnsMatches_end.
  - apply totalTurnsMatches_start.
  - by intros limit now' info m _ Hm.
  - by intros now' pid p m _ Hm.
  - by intros now' pid m Hm.
  - by intros now' m Hm.
  - by destruct op.
Qed.

(** X1. After every sequence of calls, the [totalTurns] counter of a meeting
    is the length of its turn history, plus one when a turn is open. *)
Theorem total_turns_counts_history_and_open_turn (cfg : Config) (calls : list (Clock * Op))
    (mid : string) (m : Meeting) :
  meetings (run calls (newManager cfg)) !! mid = Some m →
  totalTurns (statistics m) = Z.of_nat (length (turnHistory m)) + openCount m.
Proof.
  intros H. revert mid m H. apply run_from_steps; [apply totalTurnsMatches_perform|].
  intros k m. simpl. by rewrite lookup_empty.
Qed.

Lemma total_turns_counts_history_and_open_turn_witness :
  meetings (run handover_calls (newManager defaultConfig)) !! "m1" = Some handover_meeting ∧
  totalTurns (statistics handover_meeting) = 2 ∧
  totalTurns (statistics handover_meeting) =
    Z.of_nat (length (turnHistory handover_meeting)) + openCount handover_meeting.
Proof.
  split; [vm_compute; reflexivity|]. split; [vm_compute; reflexivity|].
  apply (total_turns_counts_history_and_open_turn defaultConfig handover_calls "m1").
  vm_compute; reflexivity.
Defined.

(** A turn of the history: closed, with the duration its two times give. *)
Definition closedTurn (t : Turn) : Prop :=
  ∃ e, endTime t = Some e ∧ duration t = Some (e - startTime t).

Definition historyClosed (m : Meeting) : Prop := Forall closedTurn (turnHistory m).

Lemma historyClosed_end now m : historyClosed m → historyClosed (fst (endCurrentTurnIn now m)).
Proof.
  unfold historyClosed, endCurrentTurnIn. intros Hm.
  destruct (currentTurn m) as [cur|]; simpl; [|exact Hm].
  apply Forall_app. split; [exact Hm|]. repeat constructor. by exists now.
Qed.

Lemma historyClosed_start te ts st pid conf m :
  historyClosed m → historyClosed (startNewTurnIn te ts st pid conf m).
Proof.
  intros Hm. unfold startNewTurnIn, historyClosed. simpl.
  destruct (currentTurn m); [by apply historyClosed_end | exact Hm].
Qed.

Lemma historyClosed_perform clk op w :
  all_meetings historyClosed w → all_meetings historyClosed (perform clk op w).
Proof.
  apply (perform_preserves historyClosed (λ _ _ _, True)).
  - constructor.
  - by intros limit now' ty pid m Hm.
  - apply historyClosed_end.
  - apply historyClosed_start.
  - by intros limit now' info m _ Hm.
  - by intros now' pid p m _ Hm.
  - by intros now' pid m Hm.
  - by intros now' m Hm.
  - by destruct op.
Qed.

(** X2. After every sequence of calls, every turn of a meeting's history
    has an end time, and its duration is that end time minus its start
    time. *)
Theorem history_turns_are_closed (cfg : Config) (calls : list (Clock * Op))
    (mid : string) (m : Meeting) (t : Turn) :
  meetings (run calls (newManager cfg)) !! mid = Some m →
  t ∈ turnHistory m →
  ∃ e, endTime t = Some e ∧ duration t = Some (e - startTime t).
Proof.
  intros H Ht.
  assert (all_meetings historyClosed (run calls (newManager cfg))) as Hall.
  { apply run_from_steps; [apply historyClosed_perform|].
    intros k m'. simpl. by rewrite lookup_empty. }
  exact (proj1 (Forall_forall _ _) (Hall mid m H) t Ht).
Qed.

Definition handover_closed_turn : Turn :=
  {| participantId := "p1"; startTime := 1000; confidence := 9 # 10;
     turnId := (1000, "p1"); endTime := Some 1800; duration := Some 800 |}.

Lemma history_turns_are_closed_witness :
  meetings (run handover_calls (newManager defaultConfig)) !! "m1" = Some handover_meeting ∧
  handover_closed_turn ∈ turnHistory handover_meeting ∧
  ∃ e, endTime handover_closed_turn = Some e ∧
       duration handover_closed_turn = Some (e - startTime handover_closed_turn).
Proof.
  assert (handover_closed_turn ∈ turnHistory handover_meeting) as Hin
    by (vm_compute; apply list_elem_of_here).
  split; [vm_compute; reflexivity|]. split; [exact Hin|].
  apply (history_turns_are_closed defaultConfig handover_calls "m1" handover_meeting);
    [vm_compute; reflexivity | exact Hin].
Defined.

(** ** The per-participant statistics *)

Definition statsOf (m : Meeting) : gmap string ParticipantStats :=
  participantStats (statistics m).

(** The average of an entry is the literal 0 it was created with until a
    turn is recorded, and from then on the quotient of the entry's two
    counters. *)
Definition statsEntryOk (p : Participant) (s : ParticipantStats) : Prop :=
  ps_totalSpeakingTime s = speakingTime p ∧
  0 ≤ ps_totalTurns s ∧
  averageTurnDuration s =
    if ps_totalTurns s =? 0 then Zero
    else Quotient (ps_totalSpeakingTime s) (ps_totalTurns s).

(** Every participant has a statistics entry and every entry a participant;
    the two agree on the speaking time, and the average is the total over
    the count. *)
Definition statsMirror (m : Meeting) : Prop :=
  dom (statsOf m) = dom (participants m) ∧
  ∀ k p s, participants m !! k = Some p → statsOf m !! k = Some s → statsEntryOk p s.

Lemma statsMirror_participants f pid m :
  (∀ p, speakingTime (f p) = speakingTime p) →
  statsMirror m → statsMirror (set_participants (alter f pid) m).
Proof.
  intros Hf [Hd Hm]. split; simpl.
  - unfold statsOf in *. simpl. by rewrite dom_alter_L.
  - intros k p s. unfold statsOf. simpl. rewrite lookup_alter. case_decide as Hk.
    + subst k. destruct (participants m !! pid) as [p0|] eqn:E; simpl; [|done].
      intros [= <-] Hs. destruct (Hm _ _ _ E Hs) as (H1 & H2 & H3).
      split; [by rewrite Hf | done].
    + apply Hm.
Qed.

Lemma statsMirror_end now m : statsMirror m → statsMirror (fst (endCurrentTurnIn now m)).
Proof.
  intros [Hd Hm]. unfold endCurrentTurnIn.
  destruct (currentTurn m) as [cur|]; simpl; [|by split].
  split; unfold statsOf in *; simpl.
  - by rewrite !dom_alter_L.
  - intros k p s. rewrite !lookup_alter. case_decide as Hk.
    + subst k. destruct (participants m !! participantId cur) as [p0|] eqn:Ep; simpl; [|done].
      destruct (participantStats (statistics m) !! participantId cur) as [s0|] eqn:Es;
        simpl; [|done].
      intros [= <-] [= <-]. destruct (Hm _ _ _ Ep Es) as (H1 & H2 & H3).
      unfold statsEntryOk, record_turn, add_speakingTime. simpl.
      split; [lia|]. split; [lia|].
      destruct (Z.eqb_spec (ps_totalTurns s0 + 1) 0); [lia | reflexivity].
    + apply Hm.
Qed.

Lemma statsMirror_start te ts st pid conf m :
  statsMirror m → statsMirror (startNewTurnIn te ts st pid conf m).
Proof.
  intros Hm. unfold startNewTurnIn.
  assert (statsMirror (match currentTurn m with
                       | Some _ => fst (endCurrentTurnIn te m)
                       | None => m
                       end)) as Hm'
    by (destruct (currentTurn m); [by apply statsMirror_end | exact Hm]).
  exact (statsMirror_participants incr_turnCount pid _ (λ _, eq_refl) Hm').
Qed.

Lemma statsMirror_perform clk op w :
  all_meetings statsMirror w → all_meetings statsMirror (perform clk op w).
Proof.
  apply (perform_preserves statsMirror (λ _ _ _, True)).
  - intros now' mid. split; [reflexivity|]. intros k p s. simpl. by rewrite lookup_empty.
  - by intros limit now' ty pid m Hm.
  - apply statsMirror_end.
  - apply statsMirror_start.
  - intros limit now' info m _ [Hd Hm]. split; unfold statsOf in *; simpl.
    + by rewrite !dom_insert_L, Hd.
    + intros k p s. rewrite !lookup_insert. case_decide as Hk; [|apply Hm].
      intros [= <-] [= <-]. unfold statsEntryOk. simpl. done.
  - intros now' pid p m Ep [Hd Hm]. split; unfold statsOf in *; simpl.
    + rewrite Hd. symmetry. apply dom_insert_lookup_L. by eexists.
    + intros k q s. rewrite lookup_insert. case_decide as Hk; [|apply Hm].
      subst k. intros [= <-] Hs. exact (Hm _ _ _ Ep Hs).
  - intros now' pid m Hm.
    exact (statsMirror_participants (set_lastActivity now') pid m (λ _, eq_refl) Hm).
  - by intros now' m Hm.
  - by destruct op.
Qed.

(** X3. After every sequence of calls, a meeting has a statistics entry for
    each of its participants; the entry's total speaking time is the
    participant's speaking time, its number of turns is not negative, and
    its average turn duration is the literal 0 while that number is 0 and
    otherwise the double that dividing the entry's total speaking time by
    its number of turns gives. *)
Theorem participant_stats_mirror_participants (cfg : Config) (calls : list (Clock * Op))
    (mid k : string) (m : Meeting) (p : Participant) :
  meetings (run calls (newManager cfg)) !! mid = Some m →
  participants m !! k = Some p →
  ∃ s, participantStats (statistics m) !! k = Some s ∧
       ps_totalSpeakingTime s = speakingTime p ∧
       0 ≤ ps_totalTurns s ∧
       averageTurnDuration s =
         if ps_totalTurns s =? 0 then Zero
         else Quotient (ps_totalSpeakingTime s) (ps_totalTurns s).
Proof.
  intros H Hp.
  assert (all_meetings statsMirror (run calls (newManager cfg))) as Hall.
  { apply run_from_steps; [apply statsMirror_perform|].
    intros k' m'. simpl. by rewrite lookup_empty. }
  destruct (Hall mid m H) as [Hd Hm].
  assert (is_Some (statsOf m !! k)) as [s Hs].
  { apply elem_of_dom. rewrite Hd. apply elem_of_dom. by eexists. }
  exists s. split; [exact Hs | exact (Hm _ _ _ Hp Hs)].
Qed.

(** [p1] speaks three times, for 499, 199 and 299 ms. *)
Definition three_turn_calls : list (Clock * Op) :=
  [ (ticking 0, InitializeMeeting "m1" []);
    (ticking 10, AddParticipant "m1" (guest "p1") true);
    (ticking 1000, HandleVoiceActivity "m1" (report "p1" true (9 # 10)));
    (ticking 1500, HandleVoiceActivity "m1" (report "p1" false 0));
    (ticking 2000, HandleVoiceActivity "m1" (report "p1" true (9 # 10)));
    (ticking 2200, HandleVoiceActivity "m1" (report "p1" false 0));
    (ticking 3000, HandleVoiceActivity "m1" (report "p1" true (9 # 10)));
    (ticking 3300, HandleVoiceActivity "m1" (report "p1" false 0)) ].

Definition three_turn_meeting : Meeting :=
  meeting_of (run three_turn_calls (newManager defaultConfig)) "m1".

Definition three_turn_p1 : Participant :=
  default (newParticipant (joinAt 0) (guest "p1")) (participants three_turn_meeting !! "p1").

Lemma participant_stats_mirror_participants_witness :
  meetings (run three_turn_calls (newManager defaultConfig)) !! "m1"
    = Some three_turn_meeting ∧
  participants three_turn_meeting !! "p1" = Some three_turn_p1 ∧
  speakingTime three_turn_p1 = 997 ∧
  ∃ s, participantStats (statistics three_turn_meeting) !! "p1" = Some s ∧
       ps_totalSpeakingTime s = 997 ∧ ps_totalTurns s = 3 ∧
       averageTurnDuration s = Quotient 997 3.
Proof.
  split; [vm_compute; reflexivity|]. split; [vm_compute; reflexivity|].
  split; [vm_compute; reflexivity|].
  destruct (participant_stats_mirror_participants defaultConfig three_turn_calls "m1" "p1"
              three_turn_meeting three_turn_p1) as (s & Hs & Ht & _ & Ha);
    [vm_compute; reflexivity ..|].
  assert (participantStats (statistics three_turn_meeting) !! "p1" =
            Some {| ps_totalSpeakingTime := 997; ps_totalTurns := 3;
                    averageTurnDuration := Quotient 997 3; lastSpeakTime := Some 3301 |}) as E
    by (vm_compute; reflexivity).
  exists s. split; [exact Hs|].
  assert (s = {| ps_totalSpeakingTime := 997; ps_totalTurns := 3;
                 averageTurnDuration := Quotient 997 3; lastSpeakTime := Some 3301 |}) as ->
    by congruence.
  split; [reflexivity|]. split; [reflexivity | exact Ha].
Defined.

(** ** Voice-activity reports *)

(** X4. While [a] holds the open turn, a speaking report above 0.7 from
    another participant [b] closes [a]'s turn and opens one for [b].  The
    closed turn is appended to the history with the reading of the clock in
    [endCurrentTurn] as its end time and that reading minus its start time
    as its duration, which is added to [a]'s speaking time; the new turn
    starts at the reading in [startNewTurn], which nothing ties to the end
    time of the closed one, and is counted for [b], whose [lastActivity] is
    the reading in [handleVoiceActivity]. *)
Theorem speaker_handover (clk : Clock) (mid a b : string) (conf level : Q)
    (w : Manager) (m : Meeting) (cur : Turn) (qa qb : Participant) :
  meetings w !! mid = Some m →
  participants m !! a = Some qa →
  participants m !! b = Some qb →
  currentTurn m = Some cur →
  participantId cur = a →
  a ≠ b →
  (7 # 10 < conf)%Q →
  let d := {| va_participantId := b; va_isSpeaking := true; va_confidence := conf;
              va_audioLevel := level |} in
  ∃ m',
    meetings (snd (handleVoiceActivity clk mid d w)) !! mid = Some m' ∧
    turnHistory m' =
      turnHistory m ++
        [ {| participantId := a; startTime := startTime cur; confidence := confidence cur;
             turnId := turnId cur; endTime := Some (at_turnEnd clk);
             duration := Some (at_turnEnd clk - startTime cur) |} ] ∧
    currentTurn m' =
      Some {| participantId := b; startTime := at_turnStart clk; confidence := conf;
              turnId := (at_turnId clk, b); endTime := None; duration := None |} ∧
    activeSpeaker m' = Some b ∧
    participants m' !! a =
      Some {| p_id := p_id qa; displayName := displayName qa; email := email qa;
              role := role qa; joinTime := joinTime qa; lastActivity := lastActivity qa;
              status := status qa; leaveTime := leaveTime qa;
              speakingTime := speakingTime qa + (at_turnEnd clk - startTime cur);
              turnCount := turnCount qa; isMuted := isMuted qa;
              isPresenting := isPresenting qa |} ∧
    participants m' !! b =
      Some {| p_id := p_id qb; displayName := displayName qb; email := email qb;
              role := role qb; joinTime := joinTime qb; lastActivity := at_activity clk;
              status := status qb; leaveTime := leaveTime qb;
              speakingTime := speakingTime qb;
              turnCount := turnCount qb + 1; isMuted := isMuted qb;
              isPresenting := isPresenting qb |}.
Proof.
  intros Hm Ha Hb Hcur Hp Hne Hconf d.
  apply Qgtb_lt in Hconf.
  unfold handleVoiceActivity. subst d. simpl. rewrite Hm, Hb. simpl. rewrite Hconf. simpl.
  unfold startNewTurnIn, endCurrentTurnIn. rewrite Hcur. simpl.
  rewrite lookup_insert_eq.
  eexists. split; [reflexivity|]. simpl.
  split; [unfold complete; by rewrite Hp|]. split; [reflexivity|]. split; [reflexivity|].
  rewrite Hp. split.
  - rewrite !lookup_alter_ne by (by apply not_eq_sym).
    by rewrite lookup_alter_eq, Ha.
  - rewrite lookup_alter_eq, lookup_alter_eq. by rewrite lookup_alter_ne, Hb.
Qed.

Definition speaking_p2 : Participant :=
  default (newParticipant (joinAt 0) (guest "p2")) (participants speaking_meeting !! "p2").

Lemma speaker_handover_witness :
  meetings speaking_manager !! "m1" = Some speaking_meeting ∧
  participants speaking_meeting !! "p1" = Some speaking_p1 ∧
  participants speaking_meeting !! "p2" = Some speaking_p2 ∧
  currentTurn speaking_meeting = Some speaking_turn ∧
  participantId speaking_turn = "p1" ∧ "p1" ≠ "p2" ∧ (7 # 10 < 8 # 10)%Q ∧
  ∃ m',
    meetings (snd (handleVoiceActivity (ticking 1800) "m1" (report "p2" true (8 # 10))
                     speaking_manager)) !! "m1" = Some m' ∧
    turnHistory m' =
      [ {| participantId := "p1"; startTime := 1002; confidence := 9 # 10;
           turnId := (1003, "p1"); endTime := Some 1801; duration := Some 799 |} ] ∧
    currentTurn m' =
      Some {| participantId := "p2"; startTime := 1802; confidence := 8 # 10;
              turnId := (1803, "p2"); endTime := None; duration := None |} ∧
    activeSpeaker m' = Some "p2" ∧
    participants m' !! "p1" =
      Some {| p_id := "p1"; displayName := "Unknown"; email := None; role := "participant";
              joinTime := 12; lastActivity := 1004;
              status := StatusActive; leaveTime := None; speakingTime := 799;
              turnCount := 1; isMuted := false; isPresenting := false |} ∧
    participants m' !! "p2" =
      Some {| p_id := "p2"; displayName := "Unknown"; email := None; role := "participant";
              joinTime := 22; lastActivity := 1804;
              status := StatusActive; leaveTime := None; speakingTime := 0;
              turnCount := 1; isMuted := false; isPresenting := false |}.
Proof.
  assert ("p1" ≠ "p2") as Hne by discriminate.
  split; [vm_compute; reflexivity|]. split; [vm_compute; reflexivity|].
  split; [vm_compute; reflexivity|]. split; [vm_compute; reflexivity|].
  split; [reflexivity|]. split; [exact Hne|]. split; [reflexivity|].
  destruct (speaker_handover (ticking 1800) "m1" "p1" "p2" (8 # 10) 0 speaking_manager
              speaking_meeting speaking_turn speaking_p1 speaking_p2)
    as (m' & Hm' & Hh & Hc & Ha & Hp1 & Hp2);
    [vm_compute; reflexivity | vm_compute; reflexivity | vm_compute; reflexivity
    | vm_compute; reflexivity | reflexivity | exact Hne | reflexivity |].
  exists m'. split; [exact Hm'|]. split; [exact Hh|]. split; [exact Hc|].
  split; [exact Ha|]. split; [exact Hp1 | exact Hp2].
Defined.

(** A report that neither opens nor closes a turn: speaking with a
    confidence of at most 0.7, or not speaking from somebody who is not the
    active speaker. *)
Definition inertReport (d : VoiceActivityData) (m : Meeting) : Prop :=
  (va_isSpeaking d = true ∧ (va_confidence d <= 7 # 10)%Q) ∨
  (va_isSpeaking d = false ∧ activeSpeaker m ≠ Some (va_participantId d)).

(** X5. An inert report from a participant is answered with success and
    changes nothing of the turn state: the active speaker, the open turn,
    the history and the statistics stay, also when the report is a speaking
    report of low confidence from the active speaker; only the reporter's
    [lastActivity] is set, to the reading of the clock in
    [handleVoiceActivity]. *)
Theorem inert_report_keeps_turn_state (clk : Clock) (mid : string) (d : VoiceActivityData)
    (w : Manager) (m : Meeting) (q : Participant) :
  meetings w !! mid = Some m →
  participants m !! va_participantId d = Some q →
  inertReport d m →
  ∃ m',
    fst (handleVoiceActivity clk mid d w) =
      Return {| vr_success := true; vr_error := None;
                vr_activeSpeaker := activeSpeaker m; vr_currentTurn := currentTurn m |} ∧
    meetings (snd (handleVoiceActivity clk mid d w)) !! mid = Some m' ∧
    activeSpeaker m' = activeSpeaker m ∧ currentTurn m' = currentTurn m ∧
    turnHistory m' = turnHistory m ∧ statistics m' = statistics m ∧
    participants m' =
      <[va_participantId d :=
          {| p_id := p_id q; displayName := displayName q; email := email q; role := role q;
             joinTime := joinTime q; lastActivity := at_activity clk; status := status q;
             leaveTime := leaveTime q; speakingTime := speakingTime q;
             turnCount := turnCount q; isMuted := isMuted q;
             isPresenting := isPresenting q |}]> (participants m).
Proof.
  intros Hm Hq Hinert. unfold handleVoiceActivity. rewrite Hm, Hq. simpl.
  assert ((va_isSpeaking d && Qgtb (va_confidence d) (7 # 10) = false) ∧
          (negb (va_isSpeaking d) &&
             bool_decide (activeSpeaker m = Some (va_participantId d)) = false))
    as [-> ->].
  { destruct Hinert as [[Hs Hc]|[Hs Ha]]; rewrite Hs; simpl.
    - split; [|reflexivity]. unfold Qgtb. apply negb_false_iff. by apply Qle_bool_iff.
    - split; [reflexivity|]. by apply bool_decide_eq_false_2. }
  rewrite lookup_insert_eq. eexists. split; [reflexivity|]. split; [reflexivity|].
  simpl. repeat (split; [reflexivity|]).
  apply map_eq. intros k. rewrite lookup_alter, lookup_insert.
  case_decide as Hk; [subst k; by rewrite Hq | reflexivity].
Qed.

Lemma inert_report_keeps_turn_state_witness :
  meetings speaking_manager !! "m1" = Some speaking_meeting ∧
  participants speaking_meeting !! "p1" = Some speaking_p1 ∧
  inertReport (report "p1" true (7 # 10)) speaking_meeting ∧
  ∃ m',
    fst (handleVoiceActivity (ticking 1500) "m1" (report "p1" true (7 # 10)) speaking_manager) =
      Return {| vr_success := true; vr_error := None;
                vr_activeSpeaker := activeSpeaker speaking_meeting;
                vr_currentTurn := currentTurn speaking_meeting |} ∧
    meetings (snd (handleVoiceActivity (ticking 1500) "m1" (report "p1" true (7 # 10))
                     speaking_manager)) !! "m1" = Some m' ∧
    activeSpeaker m' = activeSpeaker speaking_meeting ∧
    currentTurn m' = currentTurn speaking_meeting ∧
    turnHistory m' = turnHistory speaking_meeting ∧
    statistics m' = statistics speaking_meeting ∧
    participants m' =
      <["p1" :=
          {| p_id := p_id speaking_p1; displayName := displayName speaking_p1;
             email := email speaking_p1; role := role speaking_p1;
             joinTime := joinTime speaking_p1; lastActivity := 1504;
             status := status speaking_p1; leaveTime := leaveTime speaking_p1;
             speakingTime := speakingTime speaking_p1; turnCount := turnCount speaking_p1;
             isMuted := isMuted speaking_p1; isPresenting := isPresenting speaking_p1 |}]>
        (participants speaking_meeting).
Proof.
  assert (inertReport (report "p1" true (7 # 10)) speaking_meeting) as Hinert.
  { left. split; [reflexivity|]. simpl. apply Qle_refl. }
  split; [vm_compute; reflexivity|]. split; [vm_compute; reflexivity|].
  split; [exact Hinert|].
  apply (inert_report_keeps_turn_state (ticking 1500) "m1" (report "p1" true (7 # 10))
           speaking_manager speaking_meeting speaking_p1);
    [vm_compute; reflexivity .. | exact Hinert].
Defined.

(** ** Calls that name something unknown *)

(** X6. A call that names a meeting id the manager does not hold throws and
    leaves the manager as it was.  [addParticipant], [removeParticipant],
    [handleVoiceActivity], [endMeeting] and [getMeetingStatus] look whether
    the meeting is there and throw their own message ending in [Meeting not
    found]; [startNewTurn] and [endCurrentTurn] do not look, and what they
    throw is the [TypeError] of the runtime for reading [currentTurn] of
    [undefined]. *)
Theorem unknown_meeting_is_rejected (clk : Clock) (mid : string) (w : Manager) :
  meetings w !! mid = None →
  (∀ c info u, addParticipant c mid info u w =
     (Throw "Failed to add participant: Meeting not found", w)) ∧
  (∀ pid, removeParticipant clk mid pid w =
     (Throw "Failed to remove participant: Meeting not found", w)) ∧
  (∀ d, handleVoiceActivity clk mid d w =
     (Throw "Voice activity handling failed: Meeting not found", w)) ∧
  endMeeting clk mid w = (Throw "Failed to end meeting: Meeting not found", w) ∧
  getMeetingStatus clk mid w = Throw "Failed to get meeting status: Meeting not found" ∧
  (∀ pid conf, startNewTurn clk mid pid conf w =
     (Throw "Cannot read properties of undefined (reading 'currentTurn')", w)) ∧
  (∀ u, endCurrentTurn clk mid u w =
     (Throw "Cannot read properties of undefined (reading 'currentTurn')", w)).
Proof.
  intros E.
  unfold addParticipant, removeParticipant, handleVoiceActivity, endMeeting, getMeetingStatus,
    startNewTurn, endCurrentTurn.
  rewrite E. done.
Qed.

Lemma unknown_meeting_is_rejected_witness :
  meetings speaking_manager !! "m2" = None ∧
  endMeeting (ticking 5000) "m2" speaking_manager =
    (Throw "Failed to end meeting: Meeting not found", speaking_manager) ∧
  startNewTurn (ticking 5000) "m2" "p1" (9 # 10) speaking_manager =
    (Throw "Cannot read properties of undefined (reading 'currentTurn')", speaking_manager).
Proof.
  assert (meetings speaking_manager !! "m2" = None) as E by (vm_compute; reflexivity).
  split; [exact E|].
  destruct (unknown_meeting_is_rejected (ticking 5000) "m2" speaking_manager E)
    as (_ & _ & _ & Hend & _ & Hstart & _).
  split; [exact Hend | exact (Hstart "p1" (9 # 10))].
Defined.

(** X7. For an id that is no participant of the meeting,
    [removeParticipant] throws and [handleVoiceActivity] returns the
    failure object without throwing; both leave the manager as it was. *)
Theorem unknown_participant_is_rejected (clk : Clock) (mid pid : string) (w : Manager)
    (m : Meeting) :
  meetings w !! mid = Some m →
  participants m !! pid = None →
  removeParticipant clk mid pid w =
    (Throw "Failed to remove participant: Participant not found", w) ∧
  ∀ speaking conf level,
    handleVoiceActivity clk mid
      {| va_participantId := pid; va_isSpeaking := speaking; va_confidence := conf;
         va_audioLevel := level |} w =
    (Return {| vr_success := false; vr_error := Some "Participant not found";
               vr_activeSpeaker := None; vr_currentTurn := None |}, w).
Proof.
  intros Hm Hp. unfold removeParticipant, handleVoiceActivity. simpl. by rewrite Hm, Hp.
Qed.

Lemma unknown_participant_is_rejected_witness :
  meetings speaking_manager !! "m1" = Some speaking_meeting ∧
  participants speaking_meeting !! "p9" = None ∧
  removeParticipant (ticking 5000) "m1" "p9" speaking_manager =
    (Throw "Failed to remove participant: Participant not found", speaking_manager) ∧
  handleVoiceActivity (ticking 5000) "m1" (report "p9" true (9 # 10)) speaking_manager =
    (Return {| vr_success := false; vr_error := Some "Participant not found";
               vr_activeSpeaker := None; vr_currentTurn := None |}, speaking_manager).
Proof.
  assert (meetings speaking_manager !! "m1" = Some speaking_meeting) as Hm
    by (vm_compute; reflexivity).
  assert (participants speaking_meeting !! "p9" = None) as Hp by (vm_compute; reflexivity).
  split; [exact Hm|]. split; [exact Hp|].
  destruct (unknown_participant_is_rejected (ticking 5000) "m1" "p9" speaking_manager
              speaking_meeting Hm Hp) as [Hr Hv].
  split; [exact Hr | exact (Hv true (9 # 10) 0%Q)].
Defined.

(** ** Ending a meeting *)

(** X8. [endMeeting] on a meeting the manager holds returns the reading of
    the clock in [endMeeting]; afterwards the meeting is [ended] with that
    reading as its end time and no turn is open.  A turn that was open has
    been appended to the history, with the earlier reading in
    [endCurrentTurn] as its end time and that reading minus its start time
    as its duration, which is added to the total speaking time; with no
    open turn the history and the total stay. *)
Theorem endMeeting_closes_meeting (clk : Clock) (mid : string) (w : Manager) (m : Meeting) :
  meetings w !! mid = Some m →
  ∃ m',
    fst (endMeeting clk mid w) = Return (at_meetingEnd clk) ∧
    meetings (snd (endMeeting clk mid w)) !! mid = Some m' ∧
    m_status m' = MeetingEnded ∧ m_endTime m' = Some (at_meetingEnd clk) ∧
    currentTurn m' = None ∧
    match currentTurn m with
    | Some cur =>
        turnHistory m' =
          turnHistory m ++
            [ {| participantId := participantId cur; startTime := startTime cur;
                 confidence := confidence cur; turnId := turnId cur;
                 endTime := Some (at_turnEnd clk);
                 duration := Some (at_turnEnd clk - startTime cur) |} ] ∧
        totalSpeakingTime (statistics m') =
          totalSpeakingTime (statistics m) + (at_turnEnd clk - startTime cur)
    | None =>
        turnHistory m' = turnHistory m ∧
        totalSpeakingTime (statistics m') = totalSpeakingTime (statistics m)
    end.
Proof.
  intros Hm. unfold endMeeting. rewrite Hm. simpl. rewrite lookup_insert_eq.
  eexists. split; [reflexivity|]. split; [reflexivity|]. simpl.
  unfold endCurrentTurnIn. destruct (currentTurn m) as [cur|] eqn:E; simpl.
  - repeat (split; [reflexivity|]). reflexivity.
  - rewrite E. repeat (split; [reflexivity|]). reflexivity.
Qed.

Lemma endMeeting_closes_meeting_witness :
  meetings speaking_manager !! "m1" = Some speaking_meeting ∧
  currentTurn speaking_meeting = Some speaking_turn ∧
  ∃ m',
    fst (endMeeting (ticking 4000) "m1" speaking_manager) = Return 4005 ∧
    meetings (snd (endMeeting (ticking 4000) "m1" speaking_manager)) !! "m1" = Some m' ∧
    m_status m' = MeetingEnded ∧ m_endTime m' = Some 4005 ∧
    currentTurn m' = None ∧
    turnHistory m' =
      [ {| participantId := "p1"; startTime := 1002; confidence := 9 # 10;
           turnId := (1003, "p1"); endTime := Some 4001; duration := Some 2999 |} ] ∧
    totalSpeakingTime (statistics m') = 2999.
Proof.
  assert (currentTurn speaking_meeting = Some speaking_turn) as Hcur
    by (vm_compute; reflexivity).
  split; [vm_compute; reflexivity|]. split; [exact Hcur|].
  destruct (endMeeting_closes_meeting (ticking 4000) "m1" speaking_manager speaking_meeting)
    as (m' & Hr & Hm' & Hs & He & Hc & Hrest); [vm_compute; reflexivity|].
  rewrite Hcur in Hrest. destruct Hrest as [Hh Ht].
  exists m'. split; [exact Hr|]. split; [exact Hm'|]. split; [exact Hs|].
  split; [exact He|]. split; [exact Hc|]. split; [exact Hh | exact Ht].
Defined.






(** ** Participants stay *)

(** The calls that keep the meeting object stored under [mid]: all but a
    new [initializeMeeting] of that id and [cleanup]. *)
Definition keepsMeeting (mid : string) (op : Op) : Prop :=
  match op with
  | InitializeMeeting mid' _ => mid' ≠ mid
  | Cleanup => False
  | _ => True
  end.

Definition keepsParticipants (m m' : Meeting) : Prop :=
  dom (participants m) ⊆ dom (participants m').

Lemma keepsParticipants_end now m : keepsParticipants m (fst (endCurrentTurnIn now m)).
Proof.
  unfold keepsParticipants, endCurrentTurnIn.
  destruct (currentTurn m); simpl; [by rewrite dom_alter_L | done].
Qed.

Lemma keepsParticipants_start te ts st pid conf m :
  keepsParticipants m (startNewTurnIn te ts st pid conf m).
Proof.
  unfold keepsParticipants, startNewTurnIn. simpl. rewrite dom_alter_L.
  destruct (currentTurn m); [apply keepsParticipants_end | done].
Qed.

Lemma keepsParticipants_target (mid mid0 : string) (m m1 : Meeting) (w : Manager) :
  meetings w !! mid = Some m →
  (mid0 = mid → keepsParticipants m m1) →
  ∃ m', meetings (set_meetings (insert mid0 m1) w) !! mid = Some m' ∧ keepsParticipants m m'.
Proof.
  intros Hm Hk. simpl. rewrite lookup_insert. case_decide as E.
  - exists m1. split; [reflexivity | by apply Hk].
  - exists m. split; [exact Hm | unfold keepsParticipants; reflexivity].
Qed.

(** X10. No call but a new [initializeMeeting] of the same id and [cleanup]
    removes a participant: the meeting is still held afterwards and every
    id that was in its participant map still is. *)
Theorem participants_are_never_removed (clk : Clock) (op : Op) (w : Manager)
    (mid : string) (m : Meeting) :
  meetings w !! mid = Some m →
  keepsMeeting mid op →
  ∃ m', meetings (perform clk op w) !! mid = Some m' ∧
        dom (participants m) ⊆ dom (participants m').
Proof.
  intros Hm Hop.
  destruct op as [mid0 ps|mid0 info u|mid0 pid|mid0 d|mid0 pid conf|mid0 u|mid0|mid0|]; simpl.
  - (* initializeMeeting of another id *)
    simpl in Hop. unfold initializeMeeting.
    pose proof (addInitialParticipants_other (at_joins clk) mid0 ps w mid (not_eq_sym Hop))
      as Ho.
    destruct (addInitialParticipants (at_joins clk) mid0 ps w) as [[msg|[]] w'] eqn:E; simpl in *.
    + exists m. by rewrite Ho.
    + exists m. rewrite lookup_insert_ne by done. by rewrite Ho.
  - unfold addParticipant. destruct (meetings w !! mid0) as [m0|] eqn:E; simpl;
      [|by exists m].
    apply keepsParticipants_target; [exact Hm|]. intros ->.
    assert (m0 = m) as -> by congruence.
    unfold keepsParticipants. simpl. rewrite dom_insert_L. set_solver.
  - unfold removeParticipant. destruct (meetings w !! mid0) as [m0|] eqn:E; simpl;
      [|by exists m].
    destruct (participants m0 !! pid) as [p|] eqn:Ep; simpl; [|by exists m].
    apply keepsParticipants_target; [exact Hm|]. intros ->.
    assert (m0 = m) as -> by congruence.
    assert (keepsParticipants m
              (set_participants (insert pid (mark_left (at_leave clk) p)) m)) as H1.
    { unfold keepsParticipants. simpl. rewrite dom_insert_L. set_solver. }
    unfold keepsParticipants in *. simpl.
    case_bool_decide; [|exact H1].
    etrans; [exact H1|]. apply keepsParticipants_end.
  - unfold handleVoiceActivity. destruct (meetings w !! mid0) as [m0|] eqn:E; simpl;
      [|by exists m].
    destruct (participants m0 !! va_participantId d) as [p|] eqn:Ep; simpl; [|by exists m].
    apply keepsParticipants_target; [exact Hm|]. intros ->.
    assert (m0 = m) as -> by congruence.
    unfold keepsParticipants. simpl. rewrite dom_alter_L.
    destruct (va_isSpeaking d && Qgtb (va_confidence d) (7 # 10));
      [apply keepsParticipants_start|].
    destruct (negb (va_isSpeaking d) &&
                bool_decide (activeSpeaker m = Some (va_participantId d)));
      [apply keepsParticipants_end | done].
  - unfold startNewTurn. destruct (meetings w !! mid0) as [m0|] eqn:E; simpl;
      [|by exists m].
    apply keepsParticipants_target; [exact Hm|]. intros ->.
    assert (m0 = m) as -> by congruence. apply keepsParticipants_start.
  - unfold endCurrentTurn. destruct (meetings w !! mid0) as [m0|] eqn:E; simpl;
      [|by exists m].
    pose proof (keepsParticipants_end (at_turnEnd clk) m0) as Hend.
    destruct (endCurrentTurnIn (at_turnEnd clk) m0) as [m1 c]. simpl in *.
    apply keepsParticipants_target; [exact Hm|]. intros ->.
    by assert (m0 = m) as <- by congruence.
  - by exists m.
  - unfold endMeeting. destruct (meetings w !! mid0) as [m0|] eqn:E; simpl;
      [|by exists m].
    apply keepsParticipants_target; [exact Hm|]. intros ->.
    assert (m0 = m) as -> by congruence.
    unfold keepsParticipants. simpl.
    destruct (currentTurn m); [apply keepsParticipants_end | done].
  - done.
Qed.

Lemma participants_are_never_removed_witness :
  meetings speaking_manager !! "m1" = Some speaking_meeting ∧
  keepsMeeting "m1" (RemoveParticipant "m1" "p1") ∧
  ∃ m', meetings (perform (ticking 2500) (RemoveParticipant "m1" "p1") speaking_manager) !! "m1"
          = Some m' ∧
        dom (participants speaking_meeting) ⊆ dom (participants m').
Proof.
  split; [vm_compute; reflexivity|]. split; [exact I|].
  apply (participants_are_never_removed (ticking 2500) (RemoveParticipant "m1" "p1") speaking_manager
           "m1" speaking_meeting); [vm_compute; reflexivity | exact I].
Defined.

(** ** Invariants that depend on the time of the call or on the log limit *)

Section StepAt.
Variable clk : Clock.
Variable limit : nat.
Variables P Q : Meeting → Prop.

Hypothesis Q_keep : ∀ m, P m → Q m.
Hypothesis Q_new : ∀ mid, Q (newMeetingState (at_meetingStart clk) mid).
Hypothesis Q_log : ∀ timestamp ty pid m,
  Q m → Q (logConversationEventIn limit timestamp ty pid m).
Hypothesis Q_end : ∀ m, P m → Q (fst (endCurrentTurnIn (at_turnEnd clk) m)).
Hypothesis Q_start : ∀ pid conf m,
  P m → Q (startNewTurnIn (at_turnEnd clk) (at_turnStart clk) (at_turnId clk) pid conf m).
Hypothesis Q_add : ∀ info m, P m → Q (addParticipantIn limit (at_joins clk O) info m).
Hypothesis P_left : ∀ pid p m,
  participants m !! pid = Some p → P m →
  P (set_participants (insert pid (mark_left (at_leave clk) p)) m).
Hypothesis Q_activity : ∀ pid m,
  Q m → Q (set_participants (alter (set_lastActivity (at_activity clk)) pid) m).
Hypothesis Q_ended : ∀ m, Q m → Q (set_ended (at_meetingEnd clk) m).

Lemma all_meetings_keep w : all_meetings P w → all_meetings Q w.
Proof. intros Hw k m Hm. apply Q_keep. by eapply Hw. Qed.

Lemma all_meetings_put mid m w :
  Q m → all_meetings P w → all_meetings Q (set_meetings (insert mid m) w).
Proof.
  intros Hm Hw k m'. simpl. rewrite lookup_insert.
  case_decide; [intros [= <-]; exact Hm | intros Hk; apply Q_keep; by eapply Hw].
Qed.

Lemma perform_at op w :
  conversationLogLimit (config w) = limit →
  all_meetings P w → all_meetings Q (perform clk op w).
Proof.
  intros Hlimit Hw.
  destruct op as [mid ps|mid info u|mid pid|mid d|mid pid conf|mid u|mid|mid|]; simpl.
  - unfold initializeMeeting.
    destruct (addInitialParticipants (at_joins clk) mid ps w) as [[msg|[]] w'] eqn:E; simpl.
    + apply addInitialParticipants_throw in E as (-> & _ & _). by apply all_meetings_keep.
    + intros k m'. simpl. rewrite lookup_insert. case_decide as Hk.
      * intros [= <-]. apply Q_new.
      * pose proof (addInitialParticipants_other (at_joins clk) mid ps w k (not_eq_sym Hk))
          as Ho.
        rewrite E in Ho. simpl in Ho. rewrite Ho. intros Hm. apply Q_keep. by eapply Hw.
  - unfold addParticipant. destruct (meetings w !! mid) as [m|] eqn:E; simpl;
      [|by apply all_meetings_keep].
    apply all_meetings_put; [|exact Hw]. rewrite Hlimit. apply Q_add. by eapply Hw.
  - unfold removeParticipant. destruct (meetings w !! mid) as [m|] eqn:E; simpl;
      [|by apply all_meetings_keep].
    destruct (participants m !! pid) as [p|] eqn:Ep; simpl; [|by apply all_meetings_keep].
    apply all_meetings_put; [|exact Hw]. rewrite Hlimit. apply Q_log.
    assert (P (set_participants (insert pid (mark_left (at_leave clk) p)) m)) as Hm
      by (apply P_left; [exact Ep | by eapply Hw]).
    case_bool_decide; [by apply Q_end | by apply Q_keep].
  - unfold handleVoiceActivity. destruct (meetings w !! mid) as [m|] eqn:E; simpl;
      [|by apply all_meetings_keep].
    destruct (participants m !! va_participantId d) as [p|] eqn:Ep; simpl;
      [|by apply all_meetings_keep].
    apply all_meetings_put; [|exact Hw]. rewrite Hlimit. apply Q_log, Q_activity.
    pose proof (Hw _ _ E) as Hm.
    destruct (va_isSpeaking d && Qgtb (va_confidence d) (7 # 10)); [by apply Q_start|].
    destruct (negb (va_isSpeaking d) && bool_decide (activeSpeaker m = Some (va_participantId d)));
      [by apply Q_end | by apply Q_keep].
  - unfold startNewTurn. destruct (meetings w !! mid) as [m|] eqn:E; simpl;
      [|by apply all_meetings_keep].
    apply all_meetings_put; [|exact Hw]. apply Q_start. by eapply Hw.
  - unfold endCurrentTurn. destruct (meetings w !! mid) as [m|] eqn:E; simpl;
      [|by apply all_meetings_keep].
    pose proof (Q_end m (Hw _ _ E)) as Hm.
    destruct (endCurrentTurnIn (at_turnEnd clk) m) as [m' c]. simpl in *.
    by apply all_meetings_put.
  - by apply all_meetings_keep.
  - unfold endMeeting. destruct (meetings w !! mid) as [m|] eqn:E; simpl;
      [|by apply all_meetings_keep].
    apply all_meetings_put; [|exact Hw]. rewrite Hlimit. apply Q_log, Q_ended.
    pose proof (Hw _ _ E) as Hm.
    destruct (currentTurn m); [by apply Q_end | by apply Q_keep].
  - intros k m'. simpl. by rewrite lookup_empty.
Qed.

End StepAt.

Lemma config_perform clk op w : config (perform clk op w) = config w.
Proof.
  destruct op as [mid ps|mid info u|mid pid|mid d|mid pid conf|mid u|mid|mid|]; simpl;
    try reflexivity.
  - unfold initializeMeeting.
    assert (∀ cs w, config (snd (addInitialParticipants cs mid ps w)) = config w) as Hc.
    { induction ps as [|p rest IH]; intros cs w0; simpl; [reflexivity|].
      unfold addParticipant. destruct (meetings w0 !! mid); simpl; [|reflexivity].
      by rewrite IH. }
    specialize (Hc (at_joins clk) w).
    by destruct (addInitialParticipants (at_joins clk) mid ps w) as [[msg|[]] w'].
  - unfold addParticipant. by destruct (meetings w !! mid).
  - unfold removeParticipant. destruct (meetings w !! mid) as [m|]; [|reflexivity].
    by destruct (participants m !! pid).
  - unfold handleVoiceActivity. destruct (meetings w !! mid) as [m|]; [|reflexivity].
    by destruct (participants m !! va_participantId d).
  - unfold startNewTurn. by destruct (meetings w !! mid).
  - unfold endCurrentTurn. destruct (meetings w !! mid) as [m|]; [|reflexivity].
    by destruct (endCurrentTurnIn (at_turnEnd clk) m).
  - unfold endMeeting. by destruct (meetings w !! mid).
Qed.

Lemma config_run calls w : config (run calls w) = config w.
Proof.
  revert w. induction calls as [|[clk op] rest IH]; intros w; [reflexivity|].
  change (config (run rest (perform clk op w)) = config w).
  rewrite IH. apply config_perform.
Qed.

(** *** The conversation log is bounded *)

Definition logBounded (limit : nat) (m : Meeting) : Prop :=
  (length (conversationLog m) ≤ limit)%nat.

Lemma logBounded_log limit timestamp ty pid m :
  (0 < limit)%nat →
  logBounded limit (logConversationEventIn limit timestamp ty pid m).
Proof.
  intros Hpos. unfold logBounded, logConversationEventIn. simpl.
  destruct (limit <? length (conversationLog m ++ _))%nat eqn:E.
  - unfold sliceLast. destruct limit as [|n]; [lia|]. rewrite length_drop. lia.
  - by apply Nat.ltb_ge in E.
Qed.

Lemma logBounded_perform clk op w :
  (0 < conversationLogLimit (config w))%nat →
  all_meetings (logBounded (conversationLogLimit (config w))) w →
  all_meetings (logBounded (conversationLogLimit (config w))) (perform clk op w).
Proof.
  intros Hpos.
  apply (perform_at clk (conversationLogLimit (config w))
           (logBounded (conversationLogLimit (config w)))
           (logBounded (conversationLogLimit (config w)))); try done.
  - intros mid. unfold logBounded. simpl. lia.
  - intros timestamp ty pid m _. by apply logBounded_log.
  - intros m. unfold logBounded, endCurrentTurnIn. by destruct (currentTurn m).
  - intros pid conf m. unfold logBounded, startNewTurnIn, endCurrentTurnIn. simpl.
    by destruct (currentTurn m).
  - intros info m _. by apply logBounded_log.
Qed.

Lemma logBounded_run calls w :
  (0 < conversationLogLimit (config w))%nat →
  all_meetings (logBounded (conversationLogLimit (config w))) w →
  all_meetings (logBounded (conversationLogLimit (config w))) (run calls w).
Proof.
  revert w. induction calls as [|[clk op] rest IH]; intros w Hpos Hw; simpl; [exact Hw|].
  rewrite <- (config_perform clk op w). apply IH; rewrite config_perform; [exact Hpos|].
  by apply logBounded_perform.
Qed.

(** X11. With a positive log limit, the conversation log of a meeting never
    holds more entries than the limit, whatever calls were made. *)
Theorem conversation_log_is_bounded (cfg : Config) (calls : list (Clock * Op))
    (mid : string) (m : Meeting) :
  (0 < conversationLogLimit cfg)%nat →
  meetings (run calls (newManager cfg)) !! mid = Some m →
  (length (conversationLog m) ≤ conversationLogLimit cfg)%nat.
Proof.
  intros Hpos H. apply (logBounded_run calls (newManager cfg)) in H; [exact H|exact Hpos|].
  intros k m'. simpl. by rewrite lookup_empty.
Qed.

Definition tinyLogConfig : Config :=
  {| turnTimeoutMs := 3000; maxParticipants := 50; conversationLogLimit := 3 |}.

Definition tinyLog_meeting : Meeting :=
  meeting_of (run handover_calls (newManager tinyLogConfig)) "m1".

Lemma conversation_log_is_bounded_witness :
  (0 < conversationLogLimit tinyLogConfig)%nat ∧
  meetings (run handover_calls (newManager tinyLogConfig)) !! "m1" = Some tinyLog_meeting ∧
  length (conversationLog tinyLog_meeting) = 3%nat ∧
  (length (conversationLog tinyLog_meeting) ≤ conversationLogLimit tinyLogConfig)%nat.
Proof.
  assert (0 < conversationLogLimit tinyLogConfig)%nat as Hpos by (simpl; lia).
  split; [exact Hpos|]. split; [vm_compute; reflexivity|]. split; [vm_compute; reflexivity|].
  apply (conversation_log_is_bounded tinyLogConfig handover_calls "m1" tinyLog_meeting Hpos).
  vm_compute; reflexivity.
Defined.

(** *** Durations under a clock that does not run backwards *)

(** The clock does not run backwards between the places that give a turn
    its times: within a call, [endCurrentTurn] reads it before
    [startNewTurn] does, and the next call reads it after both; no reading
    is before [t0]. *)
Fixpoint chronological (t0 : Z) (calls : list (Clock * Op)) : Prop :=
  match calls with
  | [] => True
  | (clk, _) :: rest =>
      t0 ≤ at_turnEnd clk ∧ at_turnEnd clk ≤ at_turnStart clk ∧
      chronological (at_turnStart clk) rest
  end.

Definition endsAfterStart (t : Turn) : Prop :=
  ∃ e, endTime t = Some e ∧ startTime t ≤ e.

Definition timesOk (t : Z) (m : Meeting) : Prop :=
  Forall endsAfterStart (turnHistory m) ∧
  (∀ c, currentTurn m = Some c → startTime c ≤ t) ∧
  (∀ k p, participants m !! k = Some p → 0 ≤ speakingTime p) ∧
  0 ≤ totalSpeakingTime (statistics m).

Lemma timesOk_mono t t' m : t ≤ t' → timesOk t m → timesOk t' m.
Proof.
  intros Ht (Hh & Hc & Hp & Htot). split; [exact Hh|]. split; [|by split].
  intros c Hcur. specialize (Hc c Hcur). lia.
Qed.

Lemma timesOk_participants t f pid m :
  (∀ p, 0 ≤ speakingTime p → 0 ≤ speakingTime (f p)) →
  timesOk t m → timesOk t (set_participants (alter f pid) m).
Proof.
  intros Hf (Hh & Hc & Hp & Htot). split; [exact Hh|]. split; [exact Hc|].
  split; [|exact Htot]. intros k p. simpl. rewrite lookup_alter. case_decide as Hk.
  - subst k. destruct (participants m !! pid) as [p0|] eqn:E; simpl; [|done].
    intros [= <-]. apply Hf. by eapply Hp.
  - apply Hp.
Qed.

Lemma timesOk_end t turnEnd m :
  t ≤ turnEnd → timesOk t m → timesOk turnEnd (fst (endCurrentTurnIn turnEnd m)).
Proof.
  intros Ht Hm. pose proof Hm as (Hh & Hc & Hp & Htot). unfold endCurrentTurnIn.
  destruct (currentTurn m) as [cur|] eqn:E; simpl; [|by apply (timesOk_mono t)].
  specialize (Hc cur eq_refl).
  split; simpl.
  { apply Forall_app. split; [exact Hh|]. repeat constructor. exists turnEnd. simpl.
    split; [reflexivity | lia]. }
  split; [done|]. split; [|lia].
  intros k p. rewrite lookup_alter. case_decide as Hk.
  - subst k. destruct (participants m !! participantId cur) as [p0|] eqn:Ep; simpl; [|done].
    intros [= <-]. simpl. specialize (Hp _ _ Ep). lia.
  - apply Hp.
Qed.

Lemma timesOk_start t turnEnd turnStart stamp pid conf m :
  t ≤ turnEnd → turnEnd ≤ turnStart → timesOk t m →
  timesOk turnStart (startNewTurnIn turnEnd turnStart stamp pid conf m).
Proof.
  intros Ht Hs Hm. unfold startNewTurnIn.
  assert (timesOk turnStart (match currentTurn m with
                             | Some _ => fst (endCurrentTurnIn turnEnd m)
                             | None => m
                             end)) as Hm'.
  { destruct (currentTurn m).
    - apply (timesOk_mono turnEnd); [exact Hs|]. by apply (timesOk_end t).
    - apply (timesOk_mono t); [lia | exact Hm]. }
  revert Hm'. generalize (match currentTurn m with
                          | Some _ => fst (endCurrentTurnIn turnEnd m)
                          | None => m
                          end).
  intros m1 (Hh & Hc & Hp & Htot).
  split; [exact Hh|]. split; [intros c [= <-]; simpl; lia|]. split; [|exact Htot].
  intros k p. simpl. rewrite lookup_alter. case_decide as Hk; [|apply Hp].
  subst k. destruct (participants m1 !! pid) as [p0|] eqn:Ep; simpl; [|done].
  intros [= <-]. simpl. by eapply Hp.
Qed.

Lemma timesOk_perform t clk op w :
  t ≤ at_turnEnd clk → at_turnEnd clk ≤ at_turnStart clk →
  all_meetings (timesOk t) w → all_meetings (timesOk (at_turnStart clk)) (perform clk op w).
Proof.
  intros Ht Hs.
  apply (perform_at clk (conversationLogLimit (config w)) (timesOk t)
           (timesOk (at_turnStart clk)));
    [..|reflexivity].
  - intros m. apply timesOk_mono. lia.
  - intros mid. split; [constructor|]. split; [done|]. split; [|done].
    intros k p. simpl. by rewrite lookup_empty.
  - by intros timestamp ty pid m Hm.
  - intros m Hm. apply (timesOk_mono (at_turnEnd clk)); [exact Hs|]. by apply (timesOk_end t).
  - intros pid conf m. by apply timesOk_start.
  - intros info m Hm. apply (timesOk_mono t (at_turnStart clk)) in Hm; [|lia].
    destruct Hm as (Hh & Hc & Hp & Htot).
    split; [exact Hh|]. split; [exact Hc|]. split; [|exact Htot].
    intros k p. simpl. rewrite lookup_insert. case_decide; [by intros [= <-] | apply Hp].
  - intros pid p m Ep (Hh & Hc & Hp & Htot).
    split; [exact Hh|]. split; [exact Hc|]. split; [|exact Htot].
    intros k q. simpl. rewrite lookup_insert.
    case_decide; [intros [= <-]; simpl; by eapply Hp | apply Hp].
  - intros pid m Hm.
    by apply (timesOk_participants (at_turnStart clk) (set_lastActivity (at_activity clk))).
  - by intros m Hm.
Qed.

Lemma timesOk_run calls t w :
  chronological t calls → all_meetings (timesOk t) w →
  ∃ t', all_meetings (timesOk t') (run calls w).
Proof.
  revert t w. induction calls as [|[clk op] rest IH]; intros t w Hch Hw; simpl.
  - by exists t.
  - destruct Hch as (Ht & Hs & Hrest). apply (IH (at_turnStart clk)); [exact Hrest|].
    by apply (timesOk_perform t).
Qed.

(** X12. When the clock does not run backwards between the readings that
    end and start turns, every turn of a meeting's history ends no earlier
    than it starts, and no speaking time, of a participant or of the
    meeting, is negative. *)
Theorem chronological_calls_give_nonnegative_times (cfg : Config) (t0 : Z)
    (calls : list (Clock * Op)) (mid : string) (m : Meeting) :
  chronological t0 calls →
  meetings (run calls (newManager cfg)) !! mid = Some m →
  (∀ t, t ∈ turnHistory m → ∃ e, endTime t = Some e ∧ startTime t ≤ e) ∧
  (∀ k p, participants m !! k = Some p → 0 ≤ speakingTime p) ∧
  0 ≤ totalSpeakingTime (statistics m).
Proof.
  intros Hch H.
  destruct (timesOk_run calls t0 (newManager cfg) Hch) as [t' Hall].
  { intros k m'. simpl. by rewrite lookup_empty. }
  destruct (Hall mid m H) as (Hh & _ & Hp & Htot).
  split; [|by split]. intros t Ht. exact (proj1 (Forall_forall _ _) Hh t Ht).
Qed.

Lemma chronological_calls_give_nonnegative_times_witness :
  chronological 0 handover_calls ∧
  meetings (run handover_calls (newManager defaultConfig)) !! "m1" = Some handover_meeting ∧
  (∀ t, t ∈ turnHistory handover_meeting → ∃ e, endTime t = Some e ∧ startTime t ≤ e) ∧
  (∀ k p, participants handover_meeting !! k = Some p → 0 ≤ speakingTime p) ∧
  0 ≤ totalSpeakingTime (statistics handover_meeting).
Proof.
  assert (chronological 0 handover_calls) as Hch by (simpl; lia).
  split; [exact Hch|]. split; [vm_compute; reflexivity|].
  apply (chronological_calls_give_nonnegative_times defaultConfig 0 handover_calls "m1"
           handover_meeting Hch).
  vm_compute; reflexivity.
Defined.

(** ** [analyzeTurnTaking] *)

(** The three variables of the loop over the history. *)
Record TurnScan := {
  consecutiveTurns : nat;
  maxConsecutive : nat;
  currentSpeaker : option string
}.

Definition scanTurn (st : TurnScan) (turn : Turn) : TurnScan :=
  if bool_decide (currentSpeaker st = Some (participantId turn))
  then {| consecutiveTurns := S (consecutiveTurns st);
          maxConsecutive := Nat.max (maxConsecutive st) (S (consecutiveTurns st));
          currentSpeaker := currentSpeaker st |}
  else {| consecutiveTurns := 1;
          maxConsecutive := maxConsecutive st;
          currentSpeaker := Some (participantId turn) |}.

Definition scanTurns (h : list Turn) : TurnScan :=
  foldl scanTurn {| consecutiveTurns := 0; maxConsecutive := 0; currentSpeaker := None |} h.

Inductive TurnTaking :=
  | InsufficientData
  | TurnPattern (monologueHeavy : bool) (averageTurnDuration : Average)
                (maxConsecutiveTurns totalTurns : nat).

Definition analyzeTurnTaking (m : Meeting) : TurnTaking :=
  let h := turnHistory m in
  if (length h <? 2)%nat then InsufficientData
  else
    let st := scanTurns h in
    TurnPattern (3 <? maxConsecutive st)%nat
                (Quotient (durations h) (Z.of_nat (length h)))
                (maxConsecutive st) (length h).

(** The number of turns at the head of [l] that are [s]'s. *)
Fixpoint headRun (s : string) (l : list Turn) : nat :=
  match l with
  | t :: l' => if decide (participantId t = s) then S (headRun s l') else 0%nat
  | [] => 0%nat
  end.

(** The length of the longest run of consecutive turns of one participant. *)
Fixpoint longestRun (l : list Turn) : nat :=
  match l with
  | [] => 0%nat
  | t :: l' => Nat.max (S (headRun (participantId t) l')) (longestRun l')
  end.

(** A run of one turn is reported as no run at all. *)
Definition reportedRun (n : nat) : nat := if (2 <=? n)%nat then n else 0%nat.

Lemma headRun_cons_eq s t l : participantId t = s → headRun s (t :: l) = S (headRun s l).
Proof. intros E. simpl. by rewrite decide_True. Qed.

Lemma headRun_cons_ne s t l : participantId t ≠ s → headRun s (t :: l) = 0%nat.
Proof. intros E. simpl. by rewrite decide_False. Qed.

Lemma longestRun_cons t l :
  longestRun (t :: l) = Nat.max (S (headRun (participantId t) l)) (longestRun l).
Proof. reflexivity. Qed.

Lemma scanTurn_same c mx s t :
  participantId t = s →
  scanTurn {| consecutiveTurns := c; maxConsecutive := mx; currentSpeaker := Some s |} t =
  {| consecutiveTurns := S c; maxConsecutive := Nat.max mx (S c); currentSpeaker := Some s |}.
Proof. intros E. unfold scanTurn. simpl. by rewrite bool_decide_eq_true_2 by (by rewrite E). Qed.

Lemma scanTurn_other c mx s t :
  participantId t ≠ s →
  scanTurn {| consecutiveTurns := c; maxConsecutive := mx; currentSpeaker := Some s |} t =
  {| consecutiveTurns := 1; maxConsecutive := mx; currentSpeaker := Some (participantId t) |}.
Proof.
  intros E. unfold scanTurn. simpl.
  by rewrite bool_decide_eq_false_2 by (intros [= H]; by apply E).
Qed.

Ltac run_arith :=
  unfold reportedRun;
  repeat match goal with
         | |- context [(?a <? ?b)%nat] => destruct (Nat.ltb_spec a b)
         | |- context [(?a <=? ?b)%nat] => destruct (Nat.leb_spec a b)
         end; lia.

Lemma scan_from (l : list Turn) (c mx : nat) (s : string) :
  (1 ≤ c)%nat →
  maxConsecutive
    (foldl scanTurn {| consecutiveTurns := c; maxConsecutive := mx;
                       currentSpeaker := Some s |} l) =
  Nat.max mx (Nat.max (if (0 <? headRun s l)%nat then (c + headRun s l)%nat else 0%nat)
                      (reportedRun (longestRun l))).
Proof.
  revert c mx s. induction l as [|t l IH]; intros c mx s Hc.
  - simpl. run_arith.
  - cbn [foldl]. rewrite longestRun_cons. destruct (decide (participantId t = s)) as [E|E].
    + rewrite scanTurn_same, headRun_cons_eq by exact E. rewrite IH by lia. rewrite E.
      generalize (headRun s l) (longestRun l). intros r n. run_arith.
    + rewrite scanTurn_other, headRun_cons_ne by exact E. rewrite IH by lia.
      generalize (headRun (participantId t) l) (longestRun l). intros r n. run_arith.
Qed.

Lemma scanTurns_longestRun h : maxConsecutive (scanTurns h) = reportedRun (longestRun h).
Proof.
  unfold scanTurns. destruct h as [|t l]; [reflexivity|].
  cbn [foldl]. rewrite longestRun_cons.
  assert (scanTurn {| consecutiveTurns := 0; maxConsecutive := 0; currentSpeaker := None |} t =
          {| consecutiveTurns := 1; maxConsecutive := 0;
             currentSpeaker := Some (participantId t) |}) as -> by reflexivity.
  rewrite scan_from by lia.
  generalize (headRun (participantId t) l) (longestRun l). intros r n. run_arith.
Qed.

(** X13. With fewer than two turns in the history [analyzeTurnTaking]
    answers [insufficient-data]; otherwise [maxConsecutiveTurns] is the
    length of the longest run of consecutive turns of one participant,
    except that it is 0 when no two consecutive turns share a participant,
    and the pattern is [monologue-heavy] exactly when that longest run has
    more than three turns. *)
Theorem analyzeTurnTaking_reports_longest_run (m : Meeting) :
  ((length (turnHistory m) < 2)%nat → analyzeTurnTaking m = InsufficientData) ∧
  ((2 ≤ length (turnHistory m))%nat →
   ∃ avg,
     analyzeTurnTaking m =
       TurnPattern (3 <? longestRun (turnHistory m))%nat avg
                   (reportedRun (longestRun (turnHistory m))) (length (turnHistory m))).
Proof.
  unfold analyzeTurnTaking. split; intros Hlen.
  - by apply Nat.ltb_lt in Hlen as ->.
  - assert ((length (turnHistory m) <? 2)%nat = false) as -> by (apply Nat.ltb_ge; lia).
    rewrite scanTurns_longestRun. eexists. f_equal.
    generalize (longestRun (turnHistory m)). intros n. unfold reportedRun.
    destruct n as [|[|[|[|n]]]]; reflexivity.
Qed.

(** Four reports in a row from [p1] while it holds the turn, then silence:
    four turns of [p1]. *)
Definition monologue_calls : list (Clock * Op) :=
  [ (instant 0, InitializeMeeting "m1" []);
    (instant 1, AddParticipant "m1" (guest "p1") true);
    (instant 1000, HandleVoiceActivity "m1" (report "p1" true (9 # 10)));
    (instant 1500, HandleVoiceActivity "m1" (report "p1" true (9 # 10)));
    (instant 2000, HandleVoiceActivity "m1" (report "p1" true (9 # 10)));
    (instant 2500, HandleVoiceActivity "m1" (report "p1" true (9 # 10)));
    (instant 3000, HandleVoiceActivity "m1" (report "p1" false 0)) ].

Definition monologue_meeting : Meeting :=
  meeting_of (run monologue_calls (newManager defaultConfig)) "m1".

Lemma analyzeTurnTaking_reports_longest_run_witness :
  (2 ≤ length (turnHistory monologue_meeting))%nat ∧
  longestRun (turnHistory monologue_meeting) = 4%nat ∧
  ∃ avg,
    analyzeTurnTaking monologue_meeting =
      TurnPattern (3 <? longestRun (turnHistory monologue_meeting))%nat avg
                  (reportedRun (longestRun (turnHistory monologue_meeting)))
                  (length (turnHistory monologue_meeting)).
Proof.
  assert (2 ≤ length (turnHistory monologue_meeting))%nat as Hlen by (vm_compute; lia).
  split; [exact Hlen|]. split; [vm_compute; reflexivity|].
  exact (proj2 (analyzeTurnTaking_reports_longest_run monologue_meeting) Hlen).
Defined.

End Conversation.

(** * Voice-activity detection *)
Module Vad.

Local Open Scope Q_scope.

(** ** JavaScript numbers

    The detector computes with doubles.  The model keeps the one non-finite
    value the code can produce, [NaN], and takes every other number as the
    rational it denotes.  An arithmetic operation on two doubles gives the
    double nearest to the exact result: [fl] of it, where the rounding [fl]
    is a parameter of the model, as [Math.sqrt] and [Math.log10] are.
    Comparisons, [Math.max] and [Math.min] do not round.  Infinities do not
    occur: the only division whose divisor can be zero is
    [sumSquares / length] on an empty frame, whose numerator is zero as
    well, and the argument of [Math.log10] is at least [1e-10]. *)
Inductive jsnum := NaN | Num (q : Q).

Definition js_lift2 (f : Q → Q → Q) (a b : jsnum) : jsnum :=
  match a, b with
  | Num x, Num y => Num (f x y)
  | _, _ => NaN
  end.

Section Detector.

(** The double nearest to a rational. *)
Variable fl : Q → Q.

(** [Math.sqrt] and [Math.log10] on the non-negative, respectively positive,
    numbers. *)
Variable sqrtQ : Q → Q.
Variable log10Q : Q → Q.

Definition js_add : jsnum → jsnum → jsnum := js_lift2 (λ x y, fl (x + y)).
Definition js_sub : jsnum → jsnum → jsnum := js_lift2 (λ x y, fl (x - y)).
Definition js_mul : jsnum → jsnum → jsnum := js_lift2 (λ x y, fl (x * y)).

(** [a / b]; [0 / 0] is [NaN]. *)
Definition js_div (a b : jsnum) : jsnum :=
  match a, b with
  | Num x, Num y => if Qeq_bool y 0 then NaN else Num (fl (x / y))
  | _, _ => NaN
  end.

(** [a > b]: [false] as soon as one side is [NaN]. *)
Definition js_gt (a b : jsnum) : bool :=
  match a, b with
  | Num x, Num y => Qgtb x y
  | _, _ => false
  end.

(** [Math.max] and [Math.min] return [NaN] as soon as one argument is. *)
Definition js_max (a b : jsnum) : jsnum :=
  js_lift2 (λ x y, if Qle_bool x y then y else x) a b.

Definition js_min (a b : jsnum) : jsnum :=
  js_lift2 (λ x y, if Qle_bool x y then x else y) a b.

Definition isNumber (a : jsnum) : Prop := ∃ q, a = Num q.

(** [a] is a number of the interval [0, 1]. *)
Definition inUnitInterval (a : jsnum) : Prop := ∃ q, a = Num q ∧ 0 <= q ∧ q <= 1.

(** ** The engine's state *)

Record VadSample := {
  energyDb : jsnum;
  voiceDetected : bool;
  timestamp : Z
}.

Record EngineConfig := {
  sampleRate : Z;
  channels : Z;
  frameSize : Z;
  voiceActivityThreshold : Z;
  maxLatency : Z
}.

Definition defaultConfig : EngineConfig :=
  {| sampleRate := 16000; channels := 1; frameSize := 50;
     voiceActivityThreshold := 30; maxLatency := 250 |}.

(** [this.vadBuffers] and [this.config]. *)
Record Engine := {
  vadBuffers : gmap string (list VadSample);
  config : EngineConfig
}.

Definition newEngine (cfg : EngineConfig) : Engine :=
  {| vadBuffers := ∅; config := cfg |}.

(** What [detectVoiceActivity] is handed: a typed array of integer samples,
    or a value that has no [length] to read ([null], [undefined]). *)
Inductive AudioBuffer :=
  | NoBuffer
  | Samples (xs : list Z).

Record VadResult := {
  r_voiceDetected : bool;
  r_confidence : jsnum;
  r_energyDb : jsnum;
  r_threshold : jsnum;
  r_rmsEnergy : jsnum
}.

(** The object returned by the [catch] block. *)
Definition safeDefault : VadResult :=
  {| r_voiceDetected := false; r_confidence := Num 0; r_energyDb := Num (-60);
     r_threshold := Num (-40); r_rmsEnergy := Num 0 |}.

(** ** [getAdaptiveThreshold] and [updateVADBuffer] *)

(** [-40 + (this.config.voiceActivityThreshold - 30) * 2] *)
Definition staticThreshold (cfg : EngineConfig) : jsnum :=
  js_add (Num (-40)) (js_mul (js_sub (Num (inject_Z (voiceActivityThreshold cfg))) (Num 30))
                             (Num 2)).

Definition isSilent (s : VadSample) : Prop := voiceDetected s = false.

Definition silentSamples (vadBuffer : list VadSample) : list VadSample :=
  filter isSilent vadBuffer.

(** [samples.reduce((sum, sample) => sum + sample.energyDb, 0)] *)
Definition sumEnergy (samples : list VadSample) : jsnum :=
  fold_left (λ sum sample, js_add sum (energyDb sample)) samples (Num 0).

Definition natNum (n : nat) : jsnum := Num (inject_Z (Z.of_nat n)).

Definition getAdaptiveThreshold (meetingId : string) (currentEnergyDb : jsnum)
    (e : Engine) : jsnum :=
  match vadBuffers e !! meetingId with
  | None => staticThreshold (config e)
  | Some vadBuffer =>
      if (length vadBuffer <? 10)%nat then staticThreshold (config e)
      else
        let silent := silentSamples vadBuffer in
        if (0 <? length silent)%nat
        then
          let avgNoise := js_div (sumEnergy silent) (natNum (length silent)) in
          js_add avgNoise (Num 10)
        else Num (-40)
  end.

(** The meeting's rolling window; a meeting with no buffer yet has none. *)
Definition window (meetingId : string) (e : Engine) : list VadSample :=
  default [] (vadBuffers e !! meetingId).

Definition updateVADBuffer (now : Z) (meetingId : string) (energy : jsnum)
    (detected : bool) (e : Engine) : Engine :=
  let buffer := window meetingId e ++
                [{| energyDb := energy; voiceDetected := detected; timestamp := now |}] in
  let buffer := if (100 <? length buffer)%nat
                then drop (length buffer - 100)%nat buffer else buffer in
  {| vadBuffers := <[meetingId := buffer]> (vadBuffers e); config := config e |}.

(** ** [detectVoiceActivity] *)

(** [Math.min(1.0, Math.max(0.0, (energyDb - threshold + 20) / 40))] *)
Definition confidenceOf (energy threshold : jsnum) : jsnum :=
  js_min (Num 1) (js_max (Num 0)
    (js_div (js_add (js_sub energy threshold) (Num 20)) (Num 40))).

(** The loop over the samples: [sample = audioBuffer[i] / 32768.0;
    sumSquares += sample * sample]. *)
Definition sumSquares (xs : list Z) : Q :=
  fold_left (λ acc x, fl (acc + fl (fl (inject_Z x / 32768) * fl (inject_Z x / 32768))))
            xs 0.

Definition js_sqrt (a : jsnum) : jsnum :=
  match a with
  | Num x => if Qle_bool 0 x then Num (sqrtQ x) else NaN
  | NaN => NaN
  end.

(** [Math.log10] is only ever applied to [rmsEnergy + 1e-10]; an argument
    that is not positive gets no number. *)
Definition js_log10 (a : jsnum) : jsnum :=
  match a with
  | Num x => if Qgtb x 0 then Num (log10Q x) else NaN
  | NaN => NaN
  end.

Definition rmsOf (xs : list Z) : jsnum :=
  js_sqrt (js_div (Num (sumSquares xs)) (natNum (length xs))).

Definition energyOf (xs : list Z) : jsnum :=
  js_mul (Num 20) (js_log10 (js_add (rmsOf xs) (Num (fl (1 # 10000000000))))).

Definition detectVoiceActivity (now : Z) (audioBuffer : AudioBuffer) (meetingId : string)
    (e : Engine) : VadResult * Engine :=
  match audioBuffer with
  | NoBuffer => (safeDefault, e)
  | Samples xs =>
      let rmsEnergy := rmsOf xs in
      let energy := energyOf xs in
      let threshold := getAdaptiveThreshold meetingId energy e in
      let detected := js_gt energy threshold in
      let confidence := confidenceOf energy threshold in
      ({| r_voiceDetected := detected; r_confidence := confidence; r_energyDb := energy;
          r_threshold := threshold; r_rmsEnergy := rmsEnergy |},
       updateVADBuffer now meetingId energy detected e)
  end.

End Detector.

(** ** Facts about the number model *)

(** The linear margin score, cut to the unit interval. *)
Definition clamp01 (x : Q) : Q :=
  if Qle_bool x 0 then 0 else if Qle_bool 1 x then 1 else x.

(** [(energyDb - threshold + 20) / 40], as the doubles compute it. *)
Definition margin (fl : Q → Q) (energy threshold : Q) : Q :=
  fl (fl (fl (energy - threshold) + 20) / 40).

Definition exceeds (a b : jsnum) : Prop := ∃ x y, a = Num x ∧ b = Num y ∧ y < x.

Definition js_le (a b : jsnum) : Prop :=
  match a, b with
  | Num x, Num y => x <= y
  | _, _ => False
  end.

Lemma Qle_bool_false x y : Qle_bool x y = false ↔ y < x.
Proof.
  split; intros H.
  - apply Qnot_le_lt. intros Hle. apply Qle_bool_iff in Hle. congruence.
  - destruct (Qle_bool x y) eqn:E; [|reflexivity].
    apply Qle_bool_iff in E. exfalso. apply (Qlt_not_le _ _ H E).
Qed.

Lemma js_gt_exceeds a b : js_gt a b = true ↔ exceeds a b.
Proof.
  destruct a as [|x], b as [|y]; simpl; split.
  all: try discriminate.
  all: try (intros (x' & y' & ? & ? & _); discriminate).
  - intros H. apply Qgtb_lt in H. by exists x, y.
  - intros (x' & y' & [= <-] & [= <-] & H). by apply Qgtb_lt.
Qed.

Lemma confidenceOf_Num fl e t :
  ∃ c, confidenceOf fl (Num e) (Num t) = Num c ∧ (0 <= c ∧ c <= 1) ∧
       c == clamp01 (margin fl e t).
Proof.
  unfold confidenceOf, clamp01, margin. simpl.
  set (x := fl (fl (fl (e - t) + 20) / 40)).
  destruct (Qle_bool 0 x) eqn:E0.
  - apply Qle_bool_iff in E0. destruct (Qle_bool 1 x) eqn:E1.
    + apply Qle_bool_iff in E1. eexists. split; [reflexivity|]. split; [lra|].
      destruct (Qle_bool x 0) eqn:E2; [apply Qle_bool_iff in E2; lra | reflexivity].
    + apply Qle_bool_false in E1. eexists. split; [reflexivity|]. split; [lra|].
      destruct (Qle_bool x 0) eqn:E2; [apply Qle_bool_iff in E2; lra | reflexivity].
  - apply Qle_bool_false in E0. simpl. eexists. split; [reflexivity|]. split; [lra|].
    destruct (Qle_bool x 0) eqn:E2; [reflexivity | apply Qle_bool_false in E2; lra].
Qed.

Lemma clamp01_monotone x y : x <= y → clamp01 x <= clamp01 y.
Proof.
  intros H. unfold clamp01.
  destruct (Qle_bool x 0) eqn:Ex0, (Qle_bool y 0) eqn:Ey0,
           (Qle_bool 1 x) eqn:Ex1, (Qle_bool 1 y) eqn:Ey1;
    repeat match goal with
           | E : Qle_bool _ _ = true |- _ => apply Qle_bool_iff in E
           | E : Qle_bool _ _ = false |- _ => apply Qle_bool_false in E
           end; lra.
Qed.

(** For a fixed threshold the confidence does not decrease with the energy,
    rounding being monotone. *)
Lemma confidence_monotone fl e1 e2 t :
  (∀ x y, x <= y → fl x <= fl y) →
  e1 <= e2 → js_le (confidenceOf fl (Num e1) (Num t)) (confidenceOf fl (Num e2) (Num t)).
Proof.
  intros Hfl H.
  destruct (confidenceOf_Num fl e1 t) as (c1 & -> & _ & H1).
  destruct (confidenceOf_Num fl e2 t) as (c2 & -> & _ & H2).
  simpl. rewrite H1, H2. apply clamp01_monotone. unfold margin.
  apply Hfl. apply Qmult_le_compat_r; [|by compute].
  apply Hfl. apply Qplus_le_compat; [|apply Qle_refl].
  apply Hfl. lra.
Qed.

Lemma confidenceOf_NaN_l fl t : confidenceOf fl NaN t = NaN.
Proof. reflexivity. Qed.

Lemma confidenceOf_NaN_r fl a : confidenceOf fl a NaN = NaN.
Proof. by destruct a. Qed.

Lemma sumEnergy_from_NaN fl (samples : list VadSample) :
  fold_left (λ sum sample, js_add fl sum (energyDb sample)) samples NaN = NaN.
Proof. induction samples as [|s l IH]; simpl; [reflexivity | exact IH]. Qed.

Lemma sumEnergy_NaN fl samples :
  (∃ s, s ∈ samples ∧ energyDb s = NaN) → sumEnergy fl samples = NaN.
Proof.
  unfold sumEnergy. generalize (Num 0). intros acc (s & Hin & Hs).
  revert acc. induction Hin as [s l|s s' l Hin IH]; intros acc; simpl.
  - rewrite Hs. destruct acc; simpl; apply sumEnergy_from_NaN.
  - by apply IH.
Qed.

(** [qs.reduce((sum, q) => sum + q, 0)] on doubles. *)
Definition flSum (fl : Q → Q) (qs : list Q) : Q := fold_left (λ sum q, fl (sum + q)) qs 0.

Lemma sumEnergy_numeric fl samples qs :
  energyDb <$> samples = Num <$> qs → sumEnergy fl samples = Num (flSum fl qs).
Proof.
  unfold sumEnergy, flSum. generalize 0. revert qs.
  induction samples as [|s l IH]; intros [|q qs] acc; simpl; try discriminate.
  - reflexivity.
  - intros [= Hs Hl]. rewrite Hs. simpl. by apply IH.
Qed.

Lemma natNum_zero n : (0 < n)%nat → Qeq_bool (inject_Z (Z.of_nat n)) 0 = false.
Proof.
  intros Hn. destruct (Qeq_bool (inject_Z (Z.of_nat n)) 0) eqn:E; [|reflexivity].
  apply Qeq_bool_iff in E. unfold Qeq in E. simpl in E. lia.
Qed.

(** ** C7 *)

(** C7. With fewer than ten samples in the meeting's window (or no window
    yet) the threshold is [-40 + (voiceActivityThreshold - 30) * 2]; with
    ten or more samples of which at least one is marked non-speech it is
    the mean [energyDb] of the non-speech samples plus 10: their energies
    [qs] added up in the order of the window, the sum divided by their
    number, and 10 added, each of these operations on doubles; if one of
    these energies is [NaN], so is the threshold.  With ten or more samples
    that are all marked speech it is -40. *)
Theorem adaptive_threshold_branches (fl : Q → Q) (e : Engine) (meetingId : string)
    (cur : jsnum) :
  let w := default [] (vadBuffers e !! meetingId) in
  let silent := filter (λ s, voiceDetected s = false) w in
  ((length w < 10)%nat →
     getAdaptiveThreshold fl meetingId cur e =
       Num (fl (-40 + fl (fl (inject_Z (voiceActivityThreshold (config e)) - 30) * 2)))) ∧
  ((10 ≤ length w)%nat → silent ≠ [] →
     (∀ qs, energyDb <$> silent = Num <$> qs →
        getAdaptiveThreshold fl meetingId cur e =
          Num (fl (fl (fold_left (λ sum q, fl (sum + q)) qs 0
                       / inject_Z (Z.of_nat (length qs))) + 10))) ∧
     ((∃ s, s ∈ silent ∧ energyDb s = NaN) →
        getAdaptiveThreshold fl meetingId cur e = NaN)) ∧
  ((10 ≤ length w)%nat → silent = [] →
     getAdaptiveThreshold fl meetingId cur e = Num (-40)).
Proof.
  intros w silent. subst w silent. unfold getAdaptiveThreshold.
  destruct (vadBuffers e !! meetingId) as [buf|]; simpl.
  - split; [|split].
    + intros Hlt. apply Nat.ltb_lt in Hlt. by rewrite Hlt.
    + intros Hge Hne.
      assert ((length buf <? 10)%nat = false) as -> by (apply Nat.ltb_ge; lia).
      change (filter (λ s, voiceDetected s = false) buf) with (silentSamples buf) in *.
      assert ((0 <? length (silentSamples buf))%nat = true) as Hpos.
      { apply Nat.ltb_lt. destruct (silentSamples buf); [done | simpl; lia]. }
      rewrite Hpos. split.
      * intros qs Hqs. rewrite (sumEnergy_numeric fl _ _ Hqs).
        assert (length qs = length (silentSamples buf)) as Hlen.
        { rewrite <- (length_fmap Num qs), <- Hqs. by rewrite length_fmap. }
        rewrite <- Hlen in *. unfold js_div, natNum.
        rewrite natNum_zero by (by apply Nat.ltb_lt). reflexivity.
      * intros Hnan. by rewrite (sumEnergy_NaN fl _ Hnan).
    + intros Hge Hnone.
      assert ((length buf <? 10)%nat = false) as -> by (apply Nat.ltb_ge; lia).
      change (filter (λ s, voiceDetected s = false) buf) with (silentSamples buf) in *.
      by rewrite Hnone.
  - split; [reflexivity|]. split; simpl; lia.
Qed.

Definition sample (energy : Q) (detected : bool) (t : Z) : VadSample :=
  {| energyDb := Num energy; voiceDetected := detected; timestamp := t |}.

(** Nine quiet frames at -50 dB and one loud one. *)
Definition quietWindow : list VadSample :=
  [ sample (-50) false 0; sample (-50) false 50; sample (-50) false 100;
    sample (-50) false 150; sample (-50) false 200; sample (-50) false 250;
    sample (-50) false 300; sample (-50) false 350; sample (-50) false 400;
    sample (-12) true 450 ].

Definition quietEngine : Engine :=
  {| vadBuffers := {[ "m1" := quietWindow ]}; config := defaultConfig |}.

(** A rounding to work the examples with: to the nearest multiple of 1/8,
    halves upwards. *)
Definition toEighths (q : Q) : Q := Qred (inject_Z (Qfloor (q * 8 + (1 # 2))) / 8).

(** Three quiet frames whose mean is not a multiple of 1/8. *)
Definition unevenWindow : list VadSample :=
  [ sample (-50) false 0; sample (-50) false 50; sample (-51) false 100;
    sample (-12) true 150; sample (-12) true 200; sample (-12) true 250;
    sample (-12) true 300; sample (-12) true 350; sample (-12) true 400;
    sample (-12) true 450 ].

Definition unevenEngine : Engine :=
  {| vadBuffers := {[ "m1" := unevenWindow ]}; config := defaultConfig |}.

Lemma adaptive_threshold_branches_witness :
  ((length (default [] (vadBuffers (newEngine defaultConfig) !! "m1")) < 10)%nat ∧
   getAdaptiveThreshold toEighths "m1" NaN (newEngine defaultConfig) = Num (-40)) ∧
  ((10 ≤ length (default [] (vadBuffers unevenEngine !! "m1")))%nat ∧
   filter (λ s, voiceDetected s = false) (default [] (vadBuffers unevenEngine !! "m1")) ≠ [] ∧
   getAdaptiveThreshold toEighths "m1" NaN unevenEngine = Num (-323 # 8)).
Proof.
  split.
  - split; [vm_compute; lia|].
    destruct (adaptive_threshold_branches toEighths (newEngine defaultConfig) "m1" NaN)
      as [H _].
    rewrite H by (vm_compute; lia). vm_compute. reflexivity.
  - assert (10 ≤ length (default [] (vadBuffers unevenEngine !! "m1")))%nat as Hlen
      by (vm_compute; lia).
    assert (filter (λ s, voiceDetected s = false)
              (default [] (vadBuffers unevenEngine !! "m1")) ≠ []) as Hne
      by (vm_compute; discriminate).
    split; [exact Hlen|]. split; [exact Hne|].
    destruct (adaptive_threshold_branches toEighths unevenEngine "m1" NaN) as (_ & H & _).
    destruct (H Hlen Hne) as [Hmean _].
    rewrite (Hmean [-50; -50; -51]) by (vm_compute; reflexivity).
    vm_compute. reflexivity.
Defined.

(** ** C3 and C6 *)

Section DetectorFacts.

Variable fl : Q → Q.
Variable sqrtQ : Q → Q.
Variable log10Q : Q → Q.

(** What the facts below ask of the rounding: it keeps the order, it keeps
    0, and the double [1e-10] is positive; and of [Math.sqrt], that its
    values are not negative. *)
Definition soundRounding : Prop :=
  (∀ x y, x <= y → fl x <= fl y) ∧ fl 0 == 0 ∧ 0 < fl (fl (1 # 10000000000)) ∧
  (∀ x, 0 <= x → 0 <= sqrtQ x).

Lemma fl_nonneg x : soundRounding → 0 <= x → 0 <= fl x.
Proof. intros (Hmono & Hzero & _) Hx. rewrite <- Hzero. by apply Hmono. Qed.

Lemma sumSquares_from_nonneg xs acc :
  soundRounding → 0 <= acc →
  0 <= fold_left (λ acc x, fl (acc + fl (fl (inject_Z x / 32768) * fl (inject_Z x / 32768))))
         xs acc.
Proof.
  intros Hfl. revert acc. induction xs as [|x xs IH]; intros acc Hacc; simpl; [exact Hacc|].
  apply IH. apply fl_nonneg; [exact Hfl|].
  assert (0 <= fl (fl (inject_Z x / 32768) * fl (inject_Z x / 32768))) as Hsq.
  { apply fl_nonneg; [exact Hfl|]. generalize (fl (inject_Z x / 32768)). intros y. nra. }
  lra.
Qed.

Lemma sumSquares_nonneg xs : soundRounding → 0 <= sumSquares fl xs.
Proof. intros Hfl. apply sumSquares_from_nonneg; [exact Hfl | lra]. Qed.

(** A frame with at least one sample has a numeric energy. *)
Lemma energyOf_nonempty xs :
  soundRounding → xs ≠ [] → isNumber (energyOf fl sqrtQ log10Q xs).
Proof.
  intros Hfl Hne. pose proof Hfl as (Hmono & Hzero & Htiny & Hsqrt).
  unfold energyOf, rmsOf, js_div, natNum.
  rewrite natNum_zero by (destruct xs; [done | simpl; lia]).
  set (ms := fl (sumSquares fl xs / inject_Z (Z.of_nat (length xs)))).
  assert (0 <= ms) as Hms.
  { unfold ms. apply fl_nonneg; [exact Hfl|]. apply Qle_shift_div_l.
    - destruct xs; [done|]. unfold Qlt. simpl. lia.
    - pose proof (sumSquares_nonneg xs Hfl). lra. }
  unfold js_sqrt. assert (Qle_bool 0 ms = true) as -> by (by apply Qle_bool_iff).
  simpl. pose proof (Hsqrt ms Hms) as Hr.
  assert (Qgtb (fl (sqrtQ ms + fl (1 # 10000000000))) 0 = true) as ->.
  { apply Qgtb_lt. eapply Qlt_le_trans; [exact Htiny|]. apply Hmono. lra. }
  simpl. by eexists.
Qed.

(** On a frame with numeric energy and threshold the decision is the strict
    comparison and the confidence is the margin cut to the unit interval. *)
Lemma detectVoiceActivity_numeric now xs meetingId e energy threshold :
  energyOf fl sqrtQ log10Q xs = Num energy →
  getAdaptiveThreshold fl meetingId (Num energy) e = Num threshold →
  let r := fst (detectVoiceActivity fl sqrtQ log10Q now (Samples xs) meetingId e) in
  (r_voiceDetected r = true ↔ threshold < energy) ∧
  ∃ c, r_confidence r = Num c ∧ (0 <= c ∧ c <= 1) ∧
       c == clamp01 (margin fl energy threshold).
Proof.
  intros He Ht. simpl. rewrite He, Ht. split.
  - simpl. apply Qgtb_lt.
  - apply confidenceOf_Num.
Qed.

(** A window whose energies are all numbers gives a numeric threshold. *)
Definition numericWindow (w : list VadSample) : Prop :=
  Forall (λ s, isNumber (energyDb s)) w.

Lemma numeric_energies w : numericWindow w → ∃ qs, energyDb <$> w = Num <$> qs.
Proof.
  induction 1 as [|s w [q Hq] _ [qs IH]]; [by exists []|].
  exists (q :: qs). rewrite !fmap_cons. by rewrite Hq, IH.
Qed.

Lemma getAdaptiveThreshold_numeric meetingId cur e :
  numericWindow (window meetingId e) → isNumber (getAdaptiveThreshold fl meetingId cur e).
Proof.
  unfold window, getAdaptiveThreshold.
  destruct (vadBuffers e !! meetingId) as [buf|]; simpl; [|by eexists].
  intros Hnum. destruct (length buf <? 10)%nat; [by eexists|].
  destruct (0 <? length (silentSamples buf))%nat eqn:Hpos; [|by eexists].
  assert (numericWindow (silentSamples buf)) as Hsil.
  { apply Forall_forall. intros s Hs. apply list_elem_of_filter in Hs as [_ Hs].
    by apply (proj1 (Forall_forall _ _) Hnum). }
  destruct (numeric_energies _ Hsil) as [qs Hqs].
  rewrite (sumEnergy_numeric fl _ _ Hqs). unfold js_div, natNum.
  rewrite natNum_zero by (by apply Nat.ltb_lt). by eexists.
Qed.

(** As long as no frame is empty, the window stays numeric and every result
    has its confidence in the unit interval. *)
Lemma nonempty_frame_result now xs meetingId e :
  soundRounding → xs ≠ [] →
  numericWindow (window meetingId e) →
  let r := fst (detectVoiceActivity fl sqrtQ log10Q now (Samples xs) meetingId e) in
  let e' := snd (detectVoiceActivity fl sqrtQ log10Q now (Samples xs) meetingId e) in
  inUnitInterval (r_confidence r) ∧ numericWindow (window meetingId e').
Proof.
  intros Hsqrt Hne Hnum. simpl.
  destruct (energyOf_nonempty xs Hsqrt Hne) as [energy He]. rewrite He.
  destruct (getAdaptiveThreshold_numeric meetingId (Num energy) e Hnum) as [thr Ht].
  rewrite Ht. split.
  - destruct (confidenceOf_Num fl energy thr) as (c & Hc & Hrange & _). by exists c.
  - unfold updateVADBuffer, window at 1. simpl. rewrite lookup_insert_eq. simpl.
    assert (numericWindow (window meetingId e ++
              [{| energyDb := Num energy; voiceDetected := Qgtb energy thr;
                  timestamp := now |}])) as Hall.
    { apply Forall_app. split; [exact Hnum|]. repeat constructor. by eexists. }
    destruct (100 <? _)%nat; [|exact Hall]. by apply Forall_drop.
Qed.

(** One non-speech sample with a [NaN] energy in a window of ten or more
    makes the threshold [NaN]: no frame is classified as speech and every
    confidence is [NaN]. *)
Lemma nan_sample_blinds_detector now xs meetingId e :
  (10 ≤ length (window meetingId e))%nat →
  (∃ s, s ∈ silentSamples (window meetingId e) ∧ energyDb s = NaN) →
  let r := fst (detectVoiceActivity fl sqrtQ log10Q now (Samples xs) meetingId e) in
  r_threshold r = NaN ∧ r_voiceDetected r = false ∧ r_confidence r = NaN.
Proof.
  intros Hlen Hnan. simpl.
  assert (∀ cur, getAdaptiveThreshold fl meetingId cur e = NaN) as Hthr.
  { intros cur. revert Hlen Hnan. unfold getAdaptiveThreshold, window.
    destruct (vadBuffers e !! meetingId) as [buf|]; simpl; [|lia].
    intros Hlen Hnan.
    assert ((length buf <? 10)%nat = false) as -> by (apply Nat.ltb_ge; lia).
    assert ((0 <? length (silentSamples buf))%nat = true) as ->.
    { apply Nat.ltb_lt. destruct Hnan as (s & Hin & _).
      destruct (silentSamples buf); [by apply elem_of_nil in Hin | simpl; lia]. }
    by rewrite (sumEnergy_NaN fl _ Hnan). }
  rewrite Hthr. split; [reflexivity|]. split.
  - by destruct (energyOf fl sqrtQ log10Q xs).
  - apply confidenceOf_NaN_r.
Qed.

(** C6. The detector returns on every input, and a value without samples to
    read gets the safe default of the [catch] block; the empty frame does
    not: nothing throws on it, its energy and its confidence are [NaN]
    rather than 0, and the [NaN] energy is stored in the window as a
    non-speech sample. *)
Theorem empty_frame_misses_safe_default (now : Z) (meetingId : string) (e : Engine) :
  detectVoiceActivity fl sqrtQ log10Q now NoBuffer meetingId e = (safeDefault, e) ∧
  fst (detectVoiceActivity fl sqrtQ log10Q now (Samples []) meetingId e) =
    {| r_voiceDetected := false; r_confidence := NaN; r_energyDb := NaN;
       r_threshold := getAdaptiveThreshold fl meetingId NaN e; r_rmsEnergy := NaN |} ∧
  r_confidence (fst (detectVoiceActivity fl sqrtQ log10Q now (Samples []) meetingId e))
    ≠ r_confidence safeDefault ∧
  last (window meetingId (snd (detectVoiceActivity fl sqrtQ log10Q now (Samples []) meetingId e)))
    = Some {| energyDb := NaN; voiceDetected := false; timestamp := now |}.
Proof.
  split; [reflexivity|]. split; [reflexivity|]. split; [discriminate|].
  simpl. unfold updateVADBuffer, window at 1. simpl. rewrite lookup_insert_eq. simpl.
  destruct (100 <? length (window meetingId e ++ _))%nat.
  - rewrite length_app. simpl. rewrite drop_app_le by lia. apply last_snoc.
  - apply last_snoc.
Qed.

(** C3. On every input the decision is the strict comparison of the
    computed energy with the computed threshold; the confidence of the
    empty frame, however, is [NaN], which is no number of [0, 1]. *)
Theorem decision_is_comparison_but_empty_frame_confidence_is_nan
    (now : Z) (meetingId : string) (e : Engine) :
  (∀ audioBuffer,
     let r := fst (detectVoiceActivity fl sqrtQ log10Q now audioBuffer meetingId e) in
     r_voiceDetected r = true ↔ exceeds (r_energyDb r) (r_threshold r)) ∧
  r_confidence (fst (detectVoiceActivity fl sqrtQ log10Q now (Samples []) meetingId e)) = NaN ∧
  ¬ inUnitInterval
      (r_confidence (fst (detectVoiceActivity fl sqrtQ log10Q now (Samples []) meetingId e))).
Proof.
  split; [|split].
  - intros [|xs]; simpl.
    + split; [discriminate|]. intros (x & y & [= <-] & [= <-] & H). by compute in H.
    + apply js_gt_exceeds.
  - reflexivity.
  - intros (q & Hq & _). discriminate.
Qed.

End DetectorFacts.

(** * Further properties of the detector's rolling windows *)

(** A frame handed to the detector: the time, the buffer and the meeting. *)
Definition FrameCall : Type := Z * AudioBuffer * string.

Definition frameMeeting (c : FrameCall) : string := snd c.

(** The engine after a sequence of [detectVoiceActivity] calls. *)
Fixpoint detectAll (fl sqrtQ log10Q : Q → Q) (frames : list FrameCall) (e : Engine) : Engine :=
  match frames with
  | [] => e
  | (now, audioBuffer, meetingId) :: rest =>
      detectAll fl sqrtQ log10Q rest
        (snd (detectVoiceActivity fl sqrtQ log10Q now audioBuffer meetingId e))
  end.

Definition windowsBounded (e : Engine) : Prop :=
  ∀ meetingId, (length (window meetingId e) ≤ 100)%nat.

Lemma window_update_eq now meetingId energy detected e :
  window meetingId (updateVADBuffer now meetingId energy detected e) =
  let buffer := window meetingId e ++
                [{| energyDb := energy; voiceDetected := detected; timestamp := now |}] in
  if (100 <? length buffer)%nat then drop (length buffer - 100)%nat buffer else buffer.
Proof. unfold updateVADBuffer, window at 1. simpl. by rewrite lookup_insert_eq. Qed.

Lemma window_update_ne now meetingId other energy detected e :
  other ≠ meetingId →
  window other (updateVADBuffer now meetingId energy detected e) = window other e.
Proof.
  intros Hne. unfold updateVADBuffer, window. simpl. by rewrite lookup_insert_ne.
Qed.

Lemma window_detect_ne fl sqrtQ log10Q now audioBuffer meetingId other e :
  other ≠ meetingId →
  window other (snd (detectVoiceActivity fl sqrtQ log10Q now audioBuffer meetingId e)) =
  window other e.
Proof.
  intros Hne. destruct audioBuffer as [|xs]; simpl; [reflexivity|].
  by apply window_update_ne.
Qed.

Lemma windowsBounded_detect fl sqrtQ log10Q now audioBuffer meetingId e :
  windowsBounded e →
  windowsBounded (snd (detectVoiceActivity fl sqrtQ log10Q now audioBuffer meetingId e)).
Proof.
  intros He other. destruct (decide (other = meetingId)) as [->|Hne].
  - destruct audioBuffer as [|xs]; simpl; [apply He|].
    rewrite window_update_eq. simpl.
    destruct (100 <? _)%nat eqn:E.
    + rewrite length_drop. lia.
    + by apply Nat.ltb_ge in E.
  - rewrite window_detect_ne by exact Hne. apply He.
Qed.

(** X14. Whatever frames the detector has been handed since the engine was
    created, for whatever meetings, no meeting's rolling window holds more
    than 100 samples. *)
Theorem rolling_windows_hold_at_most_100_samples (fl sqrtQ log10Q : Q → Q)
    (cfg : EngineConfig) (frames : list FrameCall) (meetingId : string) :
  (length (window meetingId (detectAll fl sqrtQ log10Q frames (newEngine cfg))) ≤ 100)%nat.
Proof.
  assert (∀ e, windowsBounded e → windowsBounded (detectAll fl sqrtQ log10Q frames e)) as Hall.
  { induction frames as [|[[now buf] mid] rest IH]; intros e He; simpl; [exact He|].
    by apply IH, windowsBounded_detect. }
  apply Hall. intros mid. unfold window. simpl. rewrite lookup_empty. simpl. lia.
Qed.

(** X15. The windows of different meetings are independent: frames handed
    to the detector for other meetings change neither a meeting's window
    nor the result the detector gives for that meeting's next frame. *)
Theorem other_meetings_do_not_affect_detection (fl sqrtQ log10Q : Q → Q)
    (others : list FrameCall) (now : Z) (audioBuffer : AudioBuffer) (meetingId : string)
    (e : Engine) :
  Forall (λ c, frameMeeting c ≠ meetingId) others →
  window meetingId (detectAll fl sqrtQ log10Q others e) = window meetingId e ∧
  fst (detectVoiceActivity fl sqrtQ log10Q now audioBuffer meetingId
         (detectAll fl sqrtQ log10Q others e)) =
  fst (detectVoiceActivity fl sqrtQ log10Q now audioBuffer meetingId e).
Proof.
  intros Hothers.
  assert (vadBuffers (detectAll fl sqrtQ log10Q others e) !! meetingId =
          vadBuffers e !! meetingId ∧
          config (detectAll fl sqrtQ log10Q others e) = config e) as [Hb Hc].
  { revert e. induction Hothers as [|[[t buf] mid] rest Hne _ IH]; intros e; simpl;
      [by split|].
    destruct (IH (snd (detectVoiceActivity fl sqrtQ log10Q t buf mid e))) as [-> ->].
    destruct buf as [|xs]; simpl; [by split|].
    unfold frameMeeting in Hne. simpl in Hne. split; [|reflexivity].
    by rewrite lookup_insert_ne. }
  split; [unfold window; by rewrite Hb|].
  destruct audioBuffer as [|xs]; simpl; [reflexivity|].
  assert (∀ cur, getAdaptiveThreshold fl meetingId cur (detectAll fl sqrtQ log10Q others e) =
                 getAdaptiveThreshold fl meetingId cur e) as Hthr
    by (intros cur; unfold getAdaptiveThreshold; by rewrite Hb, Hc).
  by rewrite Hthr.
Qed.

Definition loudFrame : AudioBuffer := Samples [12000; -12000; 9000; -9000]%Z.

Lemma other_meetings_do_not_affect_detection_witness :
  Forall (λ c, frameMeeting c ≠ "m1") [(0%Z, loudFrame, "m2"); (50%Z, Samples [], "m3")] ∧
  window "m1" (detectAll (λ q, q) (λ q, q) (λ q, q)
                 [(0%Z, loudFrame, "m2"); (50%Z, Samples [], "m3")] quietEngine)
    = window "m1" quietEngine ∧
  fst (detectVoiceActivity (λ q, q) (λ q, q) (λ q, q) 100 loudFrame "m1"
         (detectAll (λ q, q) (λ q, q) (λ q, q)
            [(0%Z, loudFrame, "m2"); (50%Z, Samples [], "m3")] quietEngine)) =
  fst (detectVoiceActivity (λ q, q) (λ q, q) (λ q, q) 100 loudFrame "m1" quietEngine).
Proof.
  assert (Forall (λ c, frameMeeting c ≠ "m1")
            [(0%Z, loudFrame, "m2"); (50%Z, Samples [], "m3")]) as Hothers
    by (repeat constructor; discriminate).
  split; [exact Hothers|].
  exact (other_meetings_do_not_affect_detection (λ q, q) (λ q, q) (λ q, q) _ 100 loudFrame "m1"
           quietEngine Hothers).
Defined.

End Vad.

(** * The frame codec *)
Module Codec.

(** ** Buffers and typed arrays

    A Node [Buffer] and a typed array are views of an [ArrayBuffer]: the
    bytes of the backing store, the offset of the view in it, and the
    length of the view.  Several views may share one [ArrayBuffer]. *)
Record Buffer := {
  arrayBuffer : list byte;
  byteOffset : nat;
  byteLength : nat
}.

(** The bytes the view shows: the payload. *)
Definition bufferBytes (b : Buffer) : list byte :=
  take (byteLength b) (drop (byteOffset b) (arrayBuffer b)).

Definition validBuffer (b : Buffer) : Prop :=
  byteOffset b + byteLength b ≤ length (arrayBuffer b).

(** A buffer that shows the whole of its [ArrayBuffer]. *)
Definition ownsArrayBuffer (b : Buffer) : Prop :=
  byteOffset b = 0 ∧ byteLength b = length (arrayBuffer b).

Inductive ElementType := Int16 | Int32 | Float32.

Definition bytesPerElement (ty : ElementType) : nat :=
  match ty with Int16 => 2 | Int32 => 4 | Float32 => 4 end.

Record TypedArray := {
  elementType : ElementType;
  ta_buffer : list byte;
  ta_byteOffset : nat;
  ta_length : nat
}.

Definition typeName (ty : ElementType) : string :=
  match ty with
  | Int16 => "Int16Array"
  | Int32 => "Int32Array"
  | Float32 => "Float32Array"
  end.

(** [new Int16Array(buffer, byteOffset, length)] and its siblings: a
    [RangeError] for an offset that is not a multiple of the element size
    or a view that leaves the [ArrayBuffer]. *)
Definition newTypedArray (ty : ElementType) (ab : list byte) (off len : nat)
    : Outcome TypedArray :=
  if negb (off mod bytesPerElement ty =? 0) then
    Throw ("start offset of " +:+ typeName ty +:+ " should be a multiple of "
           +:+ pretty (bytesPerElement ty))
  else if length ab <? off + len * bytesPerElement ty then
    Throw ("Invalid typed array length: " +:+ pretty len)
  else
    Return {| elementType := ty; ta_buffer := ab; ta_byteOffset := off; ta_length := len |}.

(** The elements of an [Int16Array], read little-endian. *)
Definition int16 (lo hi : byte) : Z :=
  let u := (Z.of_N (Byte.to_N lo) + 256 * Z.of_N (Byte.to_N hi))%Z in
  if (u <? 32768)%Z then u else (u - 65536)%Z.

Fixpoint int16s (n : nat) (bs : list byte) : list Z :=
  match n, bs with
  | S n', lo :: hi :: rest => int16 lo hi :: int16s n' rest
  | _, _ => []
  end.

Definition int16Elements (a : TypedArray) : list Z :=
  int16s (ta_length a) (drop (ta_byteOffset a) (ta_buffer a)).

(** ** [toString('base64')] *)

Definition alphabet : string :=
  "ABCDEFGHIJKLMNOPQRSTUVWXYZabcdefghijklmnopqrstuvwxyz0123456789+/".

Definition sextet (n : N) : ascii :=
  default "="%char (String.get (N.to_nat n) alphabet).

Fixpoint base64 (bs : list byte) : string :=
  match bs with
  | [] => ""
  | [a] =>
      let a := Byte.to_N a in
      String (sextet (a / 4)) (String (sextet ((a mod 4) * 16)) "==")
  | [a; b] =>
      let a := Byte.to_N a in
      let b := Byte.to_N b in
      String (sextet (a / 4)) (String (sextet ((a mod 4) * 16 + b / 16))
        (String (sextet ((b mod 16) * 4)) "="))
  | a :: b :: c :: rest =>
      let a := Byte.to_N a in
      let b := Byte.to_N b in
      let c := Byte.to_N c in
      String (sextet (a / 4)) (String (sextet ((a mod 4) * 16 + b / 16))
        (String (sextet ((b mod 16) * 4 + c / 64)) (String (sextet (c mod 64))
          (base64 rest))))
  end%N.

(** ** [format.toLowerCase()] and the [switch] on it *)

Definition lowerChar (c : ascii) : ascii :=
  let n := nat_of_ascii c in
  if (65 <=? n) && (n <=? 90) then ascii_of_nat (n + 32) else c.

Fixpoint toLowerCase (s : string) : string :=
  match s with
  | EmptyString => EmptyString
  | String c rest => String (lowerChar c) (toLowerCase rest)
  end.

Definition elementTypeOf (format : string) : option ElementType :=
  let f := toLowerCase format in
  if String.eqb f "pcm16" then Some Int16
  else if String.eqb f "pcm32" then Some Int32
  else if String.eqb f "float32" then Some Float32
  else None.

(** ** [decodeAudioData] and [encodeAudioData] *)

(** The [audioData] argument: a string, a [Buffer], or anything else. *)
Inductive AudioData :=
  | Base64Text (s : string)
  | BufferData (b : Buffer)
  | OtherData.

Section Decoder.

(** [Buffer.from(s, 'base64')]: the runtime decodes the text and chooses
    the [ArrayBuffer] that backs the result. *)
Variable bufferFromBase64 : string → Buffer.

Definition decodeAudioData (audioData : AudioData) (format : string)
    : Outcome TypedArray :=
  let wrap (o : Outcome TypedArray) :=
    match o with
    | Throw msg => Throw ("Failed to decode audio data: " +:+ msg)
    | Return a => Return a
    end in
  let decodeBuffer (buffer : Buffer) :=
    match elementTypeOf format with
    | Some ty =>
        newTypedArray ty (arrayBuffer buffer) (byteOffset buffer)
                      (byteLength buffer / bytesPerElement ty)
    | None => Throw ("Unsupported audio format: " +:+ format)
    end in
  wrap match audioData with
       | Base64Text s => decodeBuffer (bufferFromBase64 s)
       | BufferData b => decodeBuffer b
       | OtherData => Throw "Invalid audio data format"
       end.

End Decoder.

(** Every case of the [switch] is [Buffer.from(audioBuffer.buffer)]: a view
    of the whole [ArrayBuffer] behind the typed array. *)
Definition encodeAudioData (audioBuffer : TypedArray) (format : string) : Outcome string :=
  match elementTypeOf format with
  | Some _ => Return (base64 (ta_buffer audioBuffer))
  | None =>
      Throw ("Failed to encode audio data: Unsupported audio format for encoding: " +:+ format)
  end.

(** The frame [processAudioStream] hands to the detector for 16-bit PCM. *)
Definition toAudioBuffer (a : TypedArray) : Vad.AudioBuffer :=
  Vad.Samples (int16Elements a).

(** ** C4 *)

Lemma elementTypeOf_pcm16 : elementTypeOf "pcm16" = Some Int16.
Proof. reflexivity. Qed.

Lemma elementTypeOf_float32 : elementTypeOf "float32" = Some Float32.
Proof. reflexivity. Qed.

(** What the round trip returns for a buffer payload: the text of the whole
    [ArrayBuffer] behind the payload, whatever part of it the payload
    shows. *)
Lemma roundtrip_encodes_arraybuffer (fromBase64 : string → Buffer) (payload : Buffer)
    (format : string) (ty : ElementType) :
  elementTypeOf format = Some ty →
  validBuffer payload →
  byteOffset payload mod bytesPerElement ty = 0 →
  ∃ frame,
    decodeAudioData fromBase64 (BufferData payload) format = Return frame ∧
    ta_length frame = byteLength payload / bytesPerElement ty ∧
    encodeAudioData frame format = Return (base64 (arrayBuffer payload)).
Proof.
  intros Hty Hvalid Halign. unfold decodeAudioData, encodeAudioData, newTypedArray.
  rewrite Hty. apply Nat.eqb_eq in Halign. rewrite Halign. simpl.
  assert ((length (arrayBuffer payload) <?
           byteOffset payload + byteLength payload / bytesPerElement ty * bytesPerElement ty)
          = false) as ->.
  { apply Nat.ltb_ge. unfold validBuffer in Hvalid.
    pose proof (Nat.Div0.mul_div_le (byteLength payload) (bytesPerElement ty)). lia. }
  eexists. split; [reflexivity|]. split; reflexivity.
Qed.

(** The round trip is exact for a payload that shows the whole of its
    [ArrayBuffer]. *)
Lemma roundtrip_of_owned_buffer (fromBase64 : string → Buffer) (payload : Buffer)
    (format : string) (ty : ElementType) :
  elementTypeOf format = Some ty →
  ownsArrayBuffer payload →
  ∃ frame,
    decodeAudioData fromBase64 (BufferData payload) format = Return frame ∧
    encodeAudioData frame format = Return (base64 (bufferBytes payload)).
Proof.
  intros Hty [Hoff Hlen].
  destruct (roundtrip_encodes_arraybuffer fromBase64 payload format ty Hty)
    as (frame & Hd & _ & He).
  - unfold validBuffer. lia.
  - rewrite Hoff. apply Nat.Div0.mod_0_l.
  - exists frame. split; [exact Hd|]. rewrite He. unfold bufferBytes.
    rewrite Hoff, Hlen. simpl. by rewrite take_ge.
Qed.

(** A two-byte payload that is a view of a four-byte [ArrayBuffer], as
    [Buffer.alloc(4).subarray(0, 2)] is once filled with 1, 2, 3, 4. *)
Definition viewPayload : Buffer :=
  {| arrayBuffer := [x01; x02; x03; x04]; byteOffset := 0; byteLength := 2 |}.

(** C4. The payload [viewPayload] has two bytes, a multiple of the sample
    width of [pcm16], and decodes to a one-sample frame; encoding that frame
    returns the text of all four bytes of the [ArrayBuffer], not that of
    the payload. *)
Theorem roundtrip_of_view_returns_whole_arraybuffer (fromBase64 : string → Buffer) :
  validBuffer viewPayload ∧
  byteLength viewPayload mod bytesPerElement Int16 = 0 ∧
  ∃ frame,
    decodeAudioData fromBase64 (BufferData viewPayload) "pcm16" = Return frame ∧
    int16Elements frame = [513%Z] ∧
    encodeAudioData frame "pcm16" = Return "AQIDBA==" ∧
    base64 (bufferBytes viewPayload) = "AQI=" ∧
    encodeAudioData frame "pcm16" ≠ Return (base64 (bufferBytes viewPayload)).
Proof.
  split; [unfold validBuffer; simpl; lia|]. split; [reflexivity|].
  eexists. split; [reflexivity|]. split; [reflexivity|]. split; [reflexivity|].
  split; [reflexivity | discriminate].
Qed.

(** An empty payload decodes to a frame without samples. *)
Lemma empty_payload_decodes_to_empty_frame (fromBase64 : string → Buffer) :
  ∃ frame,
    decodeAudioData fromBase64
      (BufferData {| arrayBuffer := []; byteOffset := 0; byteLength := 0 |}) "pcm16"
      = Return frame ∧
    toAudioBuffer frame = Vad.Samples [].
Proof. eexists. split; reflexivity. Qed.

(** * Further properties of [decodeAudioData] *)

Lemma int16s_take (n k : nat) (bs : list byte) :
  2 * n ≤ k → int16s n (take k bs) = int16s n bs.
Proof.
  revert k bs. induction n as [|n IH]; intros k bs Hk; [by destruct (take k bs), bs|].
  destruct bs as [|lo [|hi rest]].
  - by rewrite take_nil.
  - destruct k as [|[|k]]; [lia | lia | reflexivity].
  - destruct k as [|[|k]]; [lia | lia |]. simpl. f_equal. apply IH. lia.
Qed.

Lemma length_int16s (n : nat) (bs : list byte) :
  2 * n ≤ length bs → length (int16s n bs) = n.
Proof.
  revert bs. induction n as [|n IH]; intros bs Hlen; [by destruct bs|].
  destruct bs as [|lo [|hi rest]]; simpl in *; [lia | lia |].
  f_equal. apply IH. lia.
Qed.

Lemma decode_buffer_frame (fromBase64 : string → Buffer) (payload : Buffer)
    (format : string) (ty : ElementType) :
  elementTypeOf format = Some ty →
  validBuffer payload →
  byteOffset payload mod bytesPerElement ty = 0 →
  decodeAudioData fromBase64 (BufferData payload) format =
    Return {| elementType := ty; ta_buffer := arrayBuffer payload;
              ta_byteOffset := byteOffset payload;
              ta_length := byteLength payload / bytesPerElement ty |}.
Proof.
  intros Hty Hvalid Halign. unfold decodeAudioData, newTypedArray.
  rewrite Hty. apply Nat.eqb_eq in Halign. rewrite Halign.
  assert ((length (arrayBuffer payload) <?
           byteOffset payload + byteLength payload / bytesPerElement ty * bytesPerElement ty)
          = false) as ->.
  { apply Nat.ltb_ge. unfold validBuffer in Hvalid.
    pose proof (Nat.Div0.mul_div_le (byteLength payload) (bytesPerElement ty)). lia. }
  reflexivity.
Qed.

(** X19. A buffer payload in [pcm16] whose view starts at an even offset is
    decoded to the little-endian 16-bit samples of its own bytes, half as
    many samples as it has bytes, rounded down: a trailing odd byte is
    ignored, not rejected. *)
Theorem decode_reads_the_payload_samples (fromBase64 : string → Buffer) (payload : Buffer) :
  validBuffer payload →
  byteOffset payload mod 2 = 0 →
  ∃ frame,
    decodeAudioData fromBase64 (BufferData payload) "pcm16" = Return frame ∧
    int16Elements frame = int16s (byteLength payload / 2) (bufferBytes payload) ∧
    length (int16Elements frame) = byteLength payload / 2.
Proof.
  intros Hvalid Halign.
  eexists. split; [exact (decode_buffer_frame fromBase64 payload "pcm16" Int16 eq_refl
                            Hvalid Halign)|].
  pose proof (Nat.Div0.mul_div_le (byteLength payload) 2) as Hdiv.
  unfold validBuffer in Hvalid. unfold int16Elements.
  cbn [ta_length ta_byteOffset ta_buffer bytesPerElement]. split.
  - unfold bufferBytes. symmetry. apply int16s_take. lia.
  - apply length_int16s. rewrite length_drop. lia.
Qed.

(** Three bytes after a two-byte prefix of an eight-byte [ArrayBuffer]. *)
Definition oddPayload : Buffer :=
  {| arrayBuffer := [xaa; xbb; x00; x80; xff; x7f; x01; x02];
     byteOffset := 2; byteLength := 3 |}.

Lemma decode_reads_the_payload_samples_witness :
  validBuffer oddPayload ∧ byteOffset oddPayload mod 2 = 0 ∧
  ∃ frame,
    decodeAudioData (λ _, oddPayload) (BufferData oddPayload) "pcm16" = Return frame ∧
    int16Elements frame = int16s (byteLength oddPayload / 2) (bufferBytes oddPayload) ∧
    length (int16Elements frame) = byteLength oddPayload / 2.
Proof.
  assert (validBuffer oddPayload) as Hv by (unfold validBuffer; simpl; lia).
  assert (byteOffset oddPayload mod 2 = 0) as Ha by reflexivity.
  split; [exact Hv|]. split; [exact Ha|].
  exact (decode_reads_the_payload_samples (λ _, oddPayload) oddPayload Hv Ha).
Defined.

(** X20. For a buffer payload, [decodeAudioData] returns a frame exactly
    when the format is one of [pcm16], [pcm32], [float32] (in any letter
    case) and the view starts at a multiple of the sample width; the length
    of the payload plays no part.  Anything that is neither a string nor a
    buffer is rejected whatever the format. *)
Theorem decode_accepts_by_format_and_alignment (fromBase64 : string → Buffer)
    (payload : Buffer) (format : string) :
  validBuffer payload →
  (returned (decodeAudioData fromBase64 (BufferData payload) format) = true ↔
   ∃ ty, elementTypeOf format = Some ty ∧ byteOffset payload mod bytesPerElement ty = 0) ∧
  decodeAudioData fromBase64 OtherData format =
    Throw "Failed to decode audio data: Invalid audio data format".
Proof.
  intros Hvalid. split; [|reflexivity]. split.
  - unfold decodeAudioData, newTypedArray.
    destruct (elementTypeOf format) as [ty|]; [|discriminate].
    destruct (byteOffset payload mod bytesPerElement ty =? 0) eqn:E; simpl; [|discriminate].
    intros _. exists ty. split; [reflexivity | by apply Nat.eqb_eq].
  - intros (ty & Hty & Halign).
    destruct (roundtrip_encodes_arraybuffer fromBase64 payload format ty Hty Hvalid Halign)
      as (frame & -> & _). reflexivity.
Qed.

Lemma decode_accepts_by_format_and_alignment_witness :
  validBuffer oddPayload ∧
  returned (decodeAudioData (λ _, oddPayload) (BufferData oddPayload) "PCM16") = true ∧
  returned (decodeAudioData (λ _, oddPayload) (BufferData oddPayload) "float32") = false ∧
  returned (decodeAudioData (λ _, oddPayload) (BufferData oddPayload) "mp3") = false.
Proof.
  assert (validBuffer oddPayload) as Hv by (unfold validBuffer; simpl; lia).
  split; [exact Hv|].
  destruct (decode_accepts_by_format_and_alignment (λ _, oddPayload) oddPayload "PCM16" Hv)
    as [[_ Hyes] _].
  split; [apply Hyes; exists Int16; split; reflexivity|].
  split; reflexivity.
Defined.

End Codec.

(** * The audio fan-out of the bridge *)
Module Bridge.

Inductive ReadyState := CONNECTING | OPEN | CLOSING | CLOSED.

#[global] Instance ReadyState_eq_dec : EqDecision ReadyState.
Proof. solve_decision. Defined.

(** A WebSocket as the bridge sees it: the id [getConnectionId] gave it and
    its [readyState] at the time of the call. *)
Record Socket := {
  connectionId : string;
  readyState : ReadyState
}.

Record Connection := {
  ws : Socket;
  roomName : string;
  meetingId : option string;
  participantIdentity : option string;
  joinedAt : Z
}.

Record AudioMessage := {
  msg_type : string;
  msg_audioData : string;
  msg_roomName : string;
  msg_participantId : option string;
  msg_format : string;
  msg_timestamp : Z
}.

(** [this.connections], in insertion order, and the calls of [ws.send] made
    so far: which socket was handed which message. *)
Record Router := {
  connections : list (string * Connection);
  sent : list (string * AudioMessage)
}.

Definition isOpen (c : Connection) : Prop := readyState (ws c) = OPEN.

Definition findConnectionsByRoom (room : string) (r : Router) : list Connection :=
  filter (λ c, roomName c = room) ((connections r).*2).

Definition sendMessage (socket : Socket) (message : AudioMessage) (r : Router) : Router :=
  if decide (readyState socket = OPEN)
  then {| connections := connections r; sent := sent r ++ [(connectionId socket, message)] |}
  else r.

Definition audioFormatEncoding : string := "pcm16".

Definition forwardMessage (now : Z) (audio room : string) (pid : option string)
    : AudioMessage :=
  {| msg_type := "livekit-audio-forward"; msg_audioData := audio; msg_roomName := room;
     msg_participantId := pid; msg_format := audioFormatEncoding; msg_timestamp := now |}.

(** The body of [roomConnections.forEach]. *)
Definition forwardTo (message : AudioMessage) (r : Router) (connection : Connection) : Router :=
  if decide (isOpen connection) then sendMessage (ws connection) message r else r.

Definition forwardAudioToTeams (now : Z) (audio room : string) (pid : option string)
    (r : Router) : Router :=
  let roomConnections := findConnectionsByRoom room r in
  if (length roomConnections =? 0)%nat then r
  else foldl (forwardTo (forwardMessage now audio room pid)) r roomConnections.

Record Payload := {
  audioData : option string;
  payload_roomName : option string;
  participantId : option string;
  format : option string
}.

(** The object [handleLiveKitAudio] returns; a property that the object
    does not have is [None]. *)
Record AudioResult := {
  success : bool;
  error : option string;
  res_roomName : option string;
  res_participantId : option string;
  forwardedToTeams : option bool
}.

Definition handleLiveKitAudio (now : Z) (payload : Payload) (r : Router)
    : AudioResult * Router :=
  match truthy (audioData payload), truthy (payload_roomName payload) with
  | Some audio, Some room =>
      ({| success := true; error := None; res_roomName := Some room;
          res_participantId := participantId payload; forwardedToTeams := Some true |},
       forwardAudioToTeams now audio room (participantId payload) r)
  | _, _ =>
      ({| success := false; error := Some "Missing required fields: audioData, roomName";
          res_roomName := None; res_participantId := None; forwardedToTeams := None |}, r)
  end.

(** A result that reports that nothing was forwarded cannot carry
    [forwardedToTeams: true]. *)
Definition reportsNothingForwarded (res : AudioResult) : Prop :=
  forwardedToTeams res ≠ Some true.

Definition request (audio room : string) : Payload :=
  {| audioData := Some audio; payload_roomName := Some room; participantId := None;
     format := None |}.

Definition noRouter : Router := {| connections := []; sent := [] |}.

(** ** C9 *)

Lemma foldl_forwardTo message cs r :
  connections (foldl (forwardTo message) r cs) = connections r ∧
  sent (foldl (forwardTo message) r cs) =
    sent r ++ ((λ c, (connectionId (ws c), message)) <$> filter isOpen cs).
Proof.
  revert r. induction cs as [|c cs IH]; intros r; simpl.
  - by rewrite app_nil_r.
  - destruct (IH (forwardTo message r c)) as [Hc Hs]. rewrite Hc, Hs.
    unfold forwardTo, sendMessage, isOpen. rewrite filter_cons.
    destruct (decide (readyState (ws c) = OPEN)) as [Ho|Ho]; simpl.
    + by rewrite <- app_assoc.
    + done.
Qed.

(** C9, as stated, fails.  For a room without any connection the result of
    a request is a success that carries [forwardedToTeams: true]; and a
    request whose [audioData] is empty gets the error result. *)
Lemma empty_room_reports_forwarded :
  filter isOpen (findConnectionsByRoom "room1" noRouter) = [] ∧
  (success (fst (handleLiveKitAudio 0 (request "AAAA" "room1") noRouter)) = true ∧
   ¬ reportsNothingForwarded (fst (handleLiveKitAudio 0 (request "AAAA" "room1") noRouter))) ∧
  fst (handleLiveKitAudio 0 (request "" "room1") noRouter) =
    {| success := false; error := Some "Missing required fields: audioData, roomName";
       res_roomName := None; res_participantId := None; forwardedToTeams := None |}.
Proof.
  split; [reflexivity|]. split; [|reflexivity].
  split; [reflexivity|]. intros Hno. by apply Hno.
Qed.

(** C9, amended.  A request with a non-empty [audioData] and [roomName] gets
    the success result, whose [forwardedToTeams] is [true] and which has no
    recipient count; exactly one message is handed to each open connection
    of the room, in order, a connection that is not open gets none, and
    nothing else changes; so with no open connection in the room the router
    is left as it was. *)
Theorem routing_skips_channels_that_are_not_open (now : Z) (r : Router)
    (audio room : string) (pid fmt : option string) :
  audio ≠ "" → room ≠ "" →
  let payload := {| audioData := Some audio; payload_roomName := Some room;
                    participantId := pid; format := fmt |} in
  let res := fst (handleLiveKitAudio now payload r) in
  let r' := snd (handleLiveKitAudio now payload r) in
  res = {| success := true; error := None; res_roomName := Some room;
           res_participantId := pid; forwardedToTeams := Some true |} ∧
  connections r' = connections r ∧
  sent r' = sent r ++ ((λ c, (connectionId (ws c), forwardMessage now audio room pid))
                         <$> filter isOpen (findConnectionsByRoom room r)) ∧
  (filter isOpen (findConnectionsByRoom room r) = [] → r' = r).
Proof.
  intros Ha Hr payload res r'. subst payload res r'. unfold handleLiveKitAudio. simpl.
  rewrite !decide_False by done. simpl. split; [reflexivity|].
  assert (connections (forwardAudioToTeams now audio room pid r) = connections r ∧
          sent (forwardAudioToTeams now audio room pid r) =
            sent r ++ ((λ c, (connectionId (ws c), forwardMessage now audio room pid))
                         <$> filter isOpen (findConnectionsByRoom room r))) as [Hc Hs].
  { unfold forwardAudioToTeams.
    destruct (length (findConnectionsByRoom room r) =? 0)%nat eqn:E.
    - apply Nat.eqb_eq, nil_length_inv in E. rewrite E. simpl. by rewrite app_nil_r.
    - apply foldl_forwardTo. }
  split; [exact Hc|]. split; [exact Hs|].
  intros Hnone. rewrite Hnone, app_nil_r in Hs.
  destruct (forwardAudioToTeams now audio room pid r), r. simpl in *. by subst.
Qed.

(** One connection in [room1] whose socket is closing, one open connection
    in another room. *)
Definition staleRouter : Router :=
  {| connections :=
       [ ("conn_1", {| ws := {| connectionId := "conn_1"; readyState := CLOSING |};
                       roomName := "room1"; meetingId := None;
                       participantIdentity := None; joinedAt := 0 |});
         ("conn_2", {| ws := {| connectionId := "conn_2"; readyState := OPEN |};
                       roomName := "room2"; meetingId := None;
                       participantIdentity := None; joinedAt := 5 |}) ];
     sent := [] |}.

Lemma routing_skips_channels_that_are_not_open_witness :
  "AAAA" ≠ "" ∧ "room1" ≠ "" ∧
  filter isOpen (findConnectionsByRoom "room1" staleRouter) = [] ∧
  fst (handleLiveKitAudio 10 (request "AAAA" "room1") staleRouter) =
    {| success := true; error := None; res_roomName := Some "room1";
       res_participantId := None; forwardedToTeams := Some true |} ∧
  snd (handleLiveKitAudio 10 (request "AAAA" "room1") staleRouter) = staleRouter.
Proof.
  assert ("AAAA" ≠ "") as Ha by discriminate.
  assert ("room1" ≠ "") as Hr by discriminate.
  assert (filter isOpen (findConnectionsByRoom "room1" staleRouter) = []) as Hnone
    by reflexivity.
  split; [exact Ha|]. split; [exact Hr|]. split; [exact Hnone|].
  destruct (routing_skips_channels_that_are_not_open 10 staleRouter "AAAA" "room1" None None Ha Hr)
    as (Hres & _ & _ & Hsame).
  split; [exact Hres | exact (Hsame Hnone)].
Defined.

(** * Room membership: [handleJoinRoom], [handleLeaveRoom], [handleDisconnection] *)

(** ** The voice agent's rooms ([createRoom], [joinRoom] of [LiveKitVoiceAgent]) *)

Record RoomInfo := {
  ri_roomName : string;
  ri_meetingId : option string;
  ri_connectedAt : Z;
  ri_participants : gset string;
  ri_isProcessing : bool
}.

Record ChatMessage := {
  cm_role : string;
  cm_content : string
}.

Record Agent := {
  activeRooms : gmap string RoomInfo;
  conversationHistories : gmap string (list ChatMessage);
  processingQueues : gmap string (list string);
  systemPrompt : string
}.

Definition newAgent (prompt : string) : Agent :=
  {| activeRooms := ∅; conversationHistories := ∅; processingQueues := ∅;
     systemPrompt := prompt |}.

(** What [createRoom] and [joinRoom] return: the room and the token, kept
    as the two holes of its template string. *)
Record LiveKitInfo := {
  lk_roomName : string;
  lk_token : string * Z
}.

Definition createRoom (now : Z) (room : string) (meeting : option string) (a : Agent)
    : LiveKitInfo * Agent :=
  ({| lk_roomName := room; lk_token := (room, now) |},
   {| activeRooms :=
        <[room := {| ri_roomName := room; ri_meetingId := meeting; ri_connectedAt := now;
                     ri_participants := ∅; ri_isProcessing := false |}]> (activeRooms a);
      conversationHistories :=
        <[room := [{| cm_role := "system"; cm_content := systemPrompt a |}]]>
          (conversationHistories a);
      processingQueues := <[room := []]> (processingQueues a);
      systemPrompt := systemPrompt a |}).

Definition joinRoom (now : Z) (room identity : string) (a : Agent) : Outcome LiveKitInfo :=
  match activeRooms a !! room with
  | None => Throw "Failed to join room: Room not found"
  | Some _ => Return {| lk_roomName := room; lk_token := (identity, now) |}
  end.

(** ** The bridge's tables *)

(** [Map.set] on a map kept in insertion order: the value of a key that is
    present is replaced where it stands, a new key goes to the end. *)
Fixpoint alist_set {V} (k : string) (v : V) (l : list (string * V)) : list (string * V) :=
  match l with
  | [] => [(k, v)]
  | (k', v') :: rest =>
      if decide (k' = k) then (k, v) :: rest else (k', v') :: alist_set k v rest
  end.

Definition alist_delete {V} (k : string) (l : list (string * V)) : list (string * V) :=
  filter (λ kv, kv.1 ≠ k) l.

Fixpoint alist_lookup {V} (k : string) (l : list (string * V)) : option V :=
  match l with
  | [] => None
  | (k', v') :: rest => if decide (k' = k) then Some v' else alist_lookup k rest
  end.

(** The bridge: the router of above, [this.rooms], and the voice agent. *)
Record Hub := {
  router : Router;
  rooms : gmap string (gset string);
  agent : Agent
}.

Definition newHub (prompt : string) : Hub :=
  {| router := noRouter; rooms := ∅; agent := newAgent prompt |}.

Record JoinPayload := {
  jp_roomName : option string;
  jp_meetingId : option string;
  jp_participantIdentity : option string
}.

(** The object a handler returns: the error message, or the room. *)
Inductive Reply :=
  | Failed (error : string)
  | Joined (room : string) (info : LiveKitInfo)
  | Left (room : string).

Definition setConnection (id : string) (c : Connection) (r : Router) : Router :=
  {| connections := alist_set id c (connections r); sent := sent r |}.

Definition deleteConnection (id : string) (r : Router) : Router :=
  {| connections := alist_delete id (connections r); sent := sent r |}.

Definition addToRoom (room id : string) (rs : gmap string (gset string))
    : gmap string (gset string) :=
  <[room := {[id]} ∪ default ∅ (rs !! room)]> rs.

(** [rooms.get(roomName).delete(connectionId)], and the room itself once
    its set is empty. *)
Definition removeFromRoom (room id : string) (rs : gmap string (gset string))
    : gmap string (gset string) :=
  match rs !! room with
  | None => rs
  | Some members =>
      let members := members ∖ {[id]} in
      if decide (size members = 0) then delete room rs else <[room := members]> rs
  end.

Definition handleJoinRoom (now : Z) (socket : Socket) (payload : JoinPayload) (h : Hub)
    : Reply * Hub :=
  match truthy (jp_roomName payload) with
  | None => (Failed "Missing required field: roomName", h)
  | Some room =>
      let id := connectionId socket in
      let connection :=
        {| ws := socket; roomName := room; meetingId := jp_meetingId payload;
           participantIdentity := jp_participantIdentity payload; joinedAt := now |} in
      let router' := setConnection id connection (router h) in
      let rooms' := addToRoom room id (rooms h) in
      match truthy (jp_meetingId payload) with
      | Some meeting =>
          let '(info, agent') := createRoom now room (jp_meetingId payload) (agent h) in
          (Joined room info, {| router := router'; rooms := rooms'; agent := agent' |})
      | None =>
          let identity := default "unknown" (truthy (jp_participantIdentity payload)) in
          match joinRoom now room identity (agent h) with
          | Return info =>
              (Joined room info, {| router := router'; rooms := rooms'; agent := agent h |})
          | Throw msg =>
              (Failed msg, {| router := router'; rooms := rooms'; agent := agent h |})
          end
      end
  end.

(** The part [handleLeaveRoom] and [handleDisconnection] share. *)
Definition dropConnection (id : string) (c : Connection) (h : Hub) : Hub :=
  {| router := deleteConnection id (router h);
     rooms := removeFromRoom (roomName c) id (rooms h);
     agent := agent h |}.

Definition handleLeaveRoom (socket : Socket) (h : Hub) : Reply * Hub :=
  let id := connectionId socket in
  match alist_lookup id (connections (router h)) with
  | None => (Failed "Connection not found", h)
  | Some c => (Left (roomName c), dropConnection id c h)
  end.

Definition handleDisconnection (socket : Socket) (h : Hub) : Hub :=
  let id := connectionId socket in
  match alist_lookup id (connections (router h)) with
  | None => h
  | Some c => dropConnection id c h
  end.

Inductive HubOp :=
  | JoinRoom (socket : Socket) (payload : JoinPayload)
  | LeaveRoom (socket : Socket)
  | Disconnect (socket : Socket).

Definition serve (now : Z) (op : HubOp) (h : Hub) : Hub :=
  match op with
  | JoinRoom socket payload => snd (handleJoinRoom now socket payload h)
  | LeaveRoom socket => snd (handleLeaveRoom socket h)
  | Disconnect socket => handleDisconnection socket h
  end.

Fixpoint serveAll (ops : list (Z * HubOp)) (h : Hub) : Hub :=
  match ops with
  | [] => h
  | (now, op) :: rest => serveAll rest (serve now op h)
  end.

(** ** Facts about the insertion-ordered map *)

Lemma alist_set_keys {V} (k : string) (v : V) (l : list (string * V)) :
  (alist_set k v l).*1 = if decide (k ∈ l.*1) then l.*1 else l.*1 ++ [k].
Proof.
  induction l as [|[k' v'] l IH].
  - rewrite decide_False; [reflexivity | apply not_elem_of_nil].
  - change ((alist_set k v ((k', v') :: l)).*1)
      with ((if decide (k' = k) then (k, v) :: l else (k', v') :: alist_set k v l).*1).
    change (((k', v') :: l).*1) with (k' :: l.*1).
    destruct (decide (k' = k)) as [->|Hne].
    + rewrite decide_True; [reflexivity | apply list_elem_of_here].
    + change (((k', v') :: alist_set k v l).*1) with (k' :: (alist_set k v l).*1).
      rewrite IH. destruct (decide (k ∈ l.*1)) as [Hin|Hin].
      * rewrite decide_True; [reflexivity | by apply list_elem_of_further].
      * rewrite decide_False; [reflexivity|].
        intros H. apply elem_of_cons in H as [->|H]; [by apply Hne | by apply Hin].
Qed.

Lemma alist_set_NoDup {V} (k : string) (v : V) (l : list (string * V)) :
  NoDup l.*1 → NoDup (alist_set k v l).*1.
Proof.
  intros Hl. rewrite alist_set_keys. case_decide as Hin; [exact Hl|].
  apply NoDup_app. split; [exact Hl|]. split; [|apply NoDup_singleton].
  intros x Hx Hx'. apply list_elem_of_singleton in Hx'. by subst.
Qed.

Lemma elem_of_alist_set {V} (k k0 : string) (v v0 : V) (l : list (string * V)) :
  NoDup l.*1 →
  (k0, v0) ∈ alist_set k v l ↔ (k0 = k ∧ v0 = v) ∨ (k0 ≠ k ∧ (k0, v0) ∈ l).
Proof.
  induction l as [|[k' v'] l IH]; simpl; intros Hnd.
  - rewrite list_elem_of_singleton. split.
    + intros [= -> ->]. by left.
    + intros [[-> ->]|[_ H]]; [reflexivity | by apply elem_of_nil in H].
  - apply NoDup_cons in Hnd as [Hk' Hnd]. specialize (IH Hnd).
    destruct (decide (k' = k)) as [->|Hne].
    + rewrite !elem_of_cons. split.
      * intros [[= -> ->]|H]; [by left|]. right. split; [|by right].
        intros ->. apply Hk'. apply list_elem_of_fmap. by exists (k, v0).
      * intros [[-> ->]|[Hne [[= ? ?]|H]]]; [by left | done | by right].
    + rewrite !elem_of_cons, IH. split.
      * intros [[= -> ->]|[[-> ->]|[Hk H]]].
        -- right. split; [done | by left].
        -- by left.
        -- right. split; [done | by right].
      * intros [[-> ->]|[Hk [[= -> ->]|H]]].
        -- right. by left.
        -- by left.
        -- right. right. by split.
Qed.

Lemma elem_of_alist_delete {V} (k k0 : string) (v0 : V) (l : list (string * V)) :
  (k0, v0) ∈ alist_delete k l ↔ k0 ≠ k ∧ (k0, v0) ∈ l.
Proof. unfold alist_delete. by rewrite list_elem_of_filter. Qed.

Lemma alist_delete_NoDup {V} (k : string) (l : list (string * V)) :
  NoDup l.*1 → NoDup (alist_delete k l).*1.
Proof.
  unfold alist_delete. induction l as [|[k' v'] l IH]; simpl; intros Hnd; [constructor|].
  apply NoDup_cons in Hnd as [Hk' Hnd]. rewrite filter_cons. simpl.
  case_decide; [|by apply IH]. simpl. apply NoDup_cons. split; [|by apply IH].
  intros Hin. apply Hk'. apply list_elem_of_fmap in Hin as [[k1 v1] [-> Hin]].
  apply list_elem_of_filter in Hin as [_ Hin]. apply list_elem_of_fmap. by exists (k1, v1).
Qed.

Lemma alist_lookup_Some {V} (k : string) (v : V) (l : list (string * V)) :
  NoDup l.*1 → alist_lookup k l = Some v ↔ (k, v) ∈ l.
Proof.
  induction l as [|[k' v'] l IH]; simpl; intros Hnd.
  - split; [discriminate | intros H; by apply elem_of_nil in H].
  - apply NoDup_cons in Hnd as [Hk' Hnd]. rewrite elem_of_cons.
    destruct (decide (k' = k)) as [->|Hne].
    + split; [intros [= ->]; by left|]. intros [[= ->]|H]; [reflexivity|].
      exfalso. apply Hk'. apply list_elem_of_fmap. by exists (k, v).
    + rewrite IH by exact Hnd. split; [by right|]. intros [[= ? ?]|H]; [by subst | exact H].
Qed.

Lemma alist_lookup_None {V} (k : string) (l : list (string * V)) :
  alist_lookup k l = None ↔ k ∉ l.*1.
Proof.
  induction l as [|[k' v'] l IH]; simpl.
  - split; [intros _; apply not_elem_of_nil | done].
  - destruct (decide (k' = k)) as [->|Hne].
    + split; [discriminate|]. intros H. exfalso. apply H, list_elem_of_here.
    + rewrite IH. split.
      * intros H Hin. apply elem_of_cons in Hin as [->|Hin]; [by apply Hne | by apply H].
      * intros H Hin. apply H. by apply list_elem_of_further.
Qed.

Lemma alist_delete_absent {V} (k : string) (l : list (string * V)) :
  k ∉ l.*1 → alist_delete k l = l.
Proof.
  unfold alist_delete. induction l as [|[k' v'] l IH]; simpl; intros Hk; [reflexivity|].
  rewrite filter_cons. simpl. rewrite decide_True.
  - f_equal. apply IH. intros Hin. apply Hk. by apply list_elem_of_further.
  - intros ->. apply Hk, list_elem_of_here.
Qed.

Lemma alist_set_absent {V} (k : string) (v : V) (l : list (string * V)) :
  k ∉ l.*1 → alist_set k v l = l ++ [(k, v)].
Proof.
  induction l as [|[k' v'] l IH]; simpl; intros Hk; [reflexivity|].
  rewrite decide_False.
  - f_equal. apply IH. intros Hin. apply Hk. by apply list_elem_of_further.
  - intros ->. apply Hk, list_elem_of_here.
Qed.

Lemma alist_delete_snoc {V} (k : string) (v : V) (l : list (string * V)) :
  k ∉ l.*1 → alist_delete k (l ++ [(k, v)]) = l.
Proof.
  intros Hk. unfold alist_delete. rewrite filter_app.
  rewrite filter_singleton_False with (l := []) by (intros H; by apply H).
  rewrite app_nil_r. by apply alist_delete_absent.
Qed.

(** ** The invariant of the tables *)

(** The connections are stored under the id of their socket, one per id;
    every connection is a member of the room it names; no room is kept
    without members. *)
Definition hubOk (h : Hub) : Prop :=
  NoDup (connections (router h)).*1 ∧
  (∀ k c, (k, c) ∈ connections (router h) →
          connectionId (ws c) = k ∧
          ∃ members, rooms h !! roomName c = Some members ∧ k ∈ members) ∧
  (∀ room members, rooms h !! room = Some members → members ≠ ∅).

Lemma hubOk_new prompt : hubOk (newHub prompt).
Proof.
  split; [constructor|]. split.
  - intros k c H. by apply elem_of_nil in H.
  - intros room members. simpl. by rewrite lookup_empty.
Qed.

Lemma hubOk_join_tables now socket room payload (h : Hub) (a : Agent) :
  hubOk h →
  hubOk {| router := setConnection (connectionId socket)
                       {| ws := socket; roomName := room; meetingId := jp_meetingId payload;
                          participantIdentity := jp_participantIdentity payload;
                          joinedAt := now |} (router h);
           rooms := addToRoom room (connectionId socket) (rooms h);
           agent := a |}.
Proof.
  intros (Hnd & Hmem & Hne). split; simpl; [by apply alist_set_NoDup|]. split.
  - intros k c Hin. apply elem_of_alist_set in Hin; [|exact Hnd].
    destruct Hin as [[-> ->]|[Hk Hin]].
    + simpl. split; [reflexivity|]. unfold addToRoom. rewrite lookup_insert_eq.
      eexists. split; [reflexivity|]. apply elem_of_union_l, elem_of_singleton. reflexivity.
    + destruct (Hmem k c Hin) as [Hid (members & Hr & Hkin)]. split; [exact Hid|].
      unfold addToRoom. destruct (decide (roomName c = room)) as [E|E].
      * rewrite E in *. rewrite lookup_insert_eq. eexists. split; [reflexivity|].
        rewrite Hr. simpl. apply elem_of_union_r. exact Hkin.
      * rewrite lookup_insert_ne by (by apply not_eq_sym). by exists members.
  - intros r members. unfold addToRoom. rewrite lookup_insert. case_decide.
    + intros [= <-] He. apply (not_elem_of_empty (C := gset string) (connectionId socket)).
      rewrite <- He. apply elem_of_union_l, elem_of_singleton. reflexivity.
    + apply Hne.
Qed.

Lemma hubOk_drop id c (h : Hub) :
  hubOk h → hubOk (dropConnection id c h).
Proof.
  intros (Hnd & Hmem & Hne). unfold dropConnection. split; simpl;
    [by apply alist_delete_NoDup|]. split.
  - intros k c' Hin. apply elem_of_alist_delete in Hin as [Hk Hin].
    destruct (Hmem k c' Hin) as [Hid (members & Hr & Hkin)]. split; [exact Hid|].
    unfold removeFromRoom. destruct (rooms h !! roomName c) as [ms|] eqn:E; [|by exists members].
    destruct (decide (roomName c' = roomName c)) as [Er|Er].
    + rewrite Er in Hr. assert (ms = members) as -> by congruence.
      assert (k ∈ members ∖ {[id]}) as Hin'.
      { apply elem_of_difference. split; [exact Hkin | by rewrite elem_of_singleton]. }
      case_decide as Hsize.
      * apply size_empty_inv in Hsize. exfalso.
        apply (not_elem_of_empty (C := gset string) k), Hsize, Hin'.
      * rewrite Er, lookup_insert_eq. by eexists.
    + case_decide.
      * rewrite lookup_delete_ne by (by apply not_eq_sym). by exists members.
      * rewrite lookup_insert_ne by (by apply not_eq_sym). by exists members.
  - intros r members. unfold removeFromRoom.
    destruct (rooms h !! roomName c) as [ms|] eqn:E; [|apply Hne].
    case_decide as Hsize.
    + rewrite lookup_delete. case_decide; [discriminate | apply Hne].
    + rewrite lookup_insert. case_decide; [|apply Hne].
      intros [= <-] Hempty. apply Hsize. rewrite Hempty. apply size_empty.
Qed.

Lemma hubOk_serve now op h : hubOk h → hubOk (serve now op h).
Proof.
  intros Hh. destruct op as [socket payload|socket|socket]; simpl.
  - unfold handleJoinRoom. destruct (truthy (jp_roomName payload)) as [room|]; [|exact Hh].
    destruct (truthy (jp_meetingId payload)) as [meeting|].
    + destruct (createRoom now room (jp_meetingId payload) (agent h)) as [info agent'] eqn:E.
      simpl. by apply hubOk_join_tables.
    + destruct (joinRoom now room _ (agent h)); simpl; by apply hubOk_join_tables.
  - unfold handleLeaveRoom. destruct (alist_lookup _ _); simpl; [by apply hubOk_drop | exact Hh].
  - unfold handleDisconnection. destruct (alist_lookup _ _); [by apply hubOk_drop | exact Hh].
Qed.

Lemma hubOk_serveAll ops h : hubOk h → hubOk (serveAll ops h).
Proof.
  revert h. induction ops as [|[now op] rest IH]; intros h Hh; simpl; [exact Hh|].
  by apply IH, hubOk_serve.
Qed.

(** X21. Whatever sockets have joined, left and disconnected since the
    bridge was created: every connection is stored once, under the id of
    its socket, and is a member of the room it names, and [this.rooms]
    holds no room without members. *)
Theorem membership_tables_stay_consistent (prompt : string) (ops : list (Z * HubOp))
    (k : string) (c : Connection) :
  let h := serveAll ops (newHub prompt) in
  (k, c) ∈ connections (router h) →
  connectionId (ws c) = k ∧
  alist_lookup k (connections (router h)) = Some c ∧
  (∃ members, rooms h !! roomName c = Some members ∧ k ∈ members) ∧
  (∀ room members, rooms h !! room = Some members → members ≠ ∅).
Proof.
  intros h Hin.
  destruct (hubOk_serveAll ops _ (hubOk_new prompt)) as (Hnd & Hmem & Hne).
  destruct (Hmem k c Hin) as [Hid Hroom].
  split; [exact Hid|]. split; [by apply alist_lookup_Some|]. by split.
Qed.

(** A bridge that has seen three sockets: two join [room1], the first of
    them leaves, a third joins [room2]. *)
Definition socketOf (id : string) : Socket := {| connectionId := id; readyState := OPEN |}.

Definition joining (room : string) (meeting : option string) : JoinPayload :=
  {| jp_roomName := Some room; jp_meetingId := meeting; jp_participantIdentity := None |}.

Definition busy_ops : list (Z * HubOp) :=
  [ (0%Z, JoinRoom (socketOf "conn_1") (joining "room1" (Some "m1")));
    (1%Z, JoinRoom (socketOf "conn_2") (joining "room1" None));
    (2%Z, LeaveRoom (socketOf "conn_1"));
    (3%Z, JoinRoom (socketOf "conn_3") (joining "room2" (Some "m2"))) ].

Definition busy_hub : Hub := serveAll busy_ops (newHub "You are a helpful voice agent.").

Definition conn_2 : Connection :=
  {| ws := socketOf "conn_2"; roomName := "room1"; meetingId := None;
     participantIdentity := None; joinedAt := 1 |}.

Lemma membership_tables_stay_consistent_witness :
  ("conn_2", conn_2) ∈ connections (router busy_hub) ∧
  alist_lookup "conn_2" (connections (router busy_hub)) = Some conn_2 ∧
  ∃ members, rooms busy_hub !! "room1" = Some members ∧ "conn_2" ∈ members.
Proof.
  assert (("conn_2", conn_2) ∈ connections (router busy_hub)) as Hin
    by (vm_compute; apply list_elem_of_here).
  destruct (membership_tables_stay_consistent "You are a helpful voice agent." busy_ops
              "conn_2" conn_2 Hin) as (_ & Hlookup & Hroom & _).
  split; [exact Hin|]. split; [exact Hlookup | exact Hroom].
Defined.

(** ** What a join and a leave do to the tables *)

Lemma alist_lookup_set {V} (k : string) (v : V) (l : list (string * V)) :
  alist_lookup k (alist_set k v l) = Some v.
Proof.
  induction l as [|[k' v'] l IH]; simpl.
  - by rewrite decide_True.
  - destruct (decide (k' = k)) as [->|Hne]; simpl.
    + by rewrite decide_True.
    + by rewrite decide_False.
Qed.

Lemma alist_lookup_elem {V} (k : string) (v : V) (l : list (string * V)) :
  alist_lookup k l = Some v → (k, v) ∈ l.
Proof.
  induction l as [|[k' v'] l IH]; simpl; [discriminate|].
  destruct (decide (k' = k)) as [->|Hne].
  - intros [= ->]. apply list_elem_of_here.
  - intros H. by apply list_elem_of_further, IH.
Qed.

Lemma alist_lookup_delete {V} (k : string) (l : list (string * V)) :
  alist_lookup k (alist_delete k l) = None.
Proof.
  apply alist_lookup_None. intros Hin.
  apply list_elem_of_fmap in Hin as [[k' v'] [Hk Hin]]. simpl in Hk. subst k'.
  apply elem_of_alist_delete in Hin as [Hne _]. by apply Hne.
Qed.

Lemma handleJoinRoom_tables now socket payload room (h : Hub) :
  truthy (jp_roomName payload) = Some room →
  router (snd (handleJoinRoom now socket payload h)) =
    setConnection (connectionId socket)
      {| ws := socket; roomName := room; meetingId := jp_meetingId payload;
         participantIdentity := jp_participantIdentity payload; joinedAt := now |} (router h) ∧
  rooms (snd (handleJoinRoom now socket payload h)) =
    addToRoom room (connectionId socket) (rooms h).
Proof.
  intros Hroom. unfold handleJoinRoom. rewrite Hroom.
  destruct (truthy (jp_meetingId payload)); simpl; [done|].
  by destruct (joinRoom now room _ (agent h)).
Qed.

Lemma addToRoom_member room id rs :
  ∃ members, addToRoom room id rs !! room = Some members ∧ id ∈ members.
Proof.
  unfold addToRoom. rewrite lookup_insert_eq. eexists. split; [reflexivity|].
  apply elem_of_union_l, elem_of_singleton. reflexivity.
Qed.



Lemma add_then_remove room id (rs : gmap string (gset string)) :
  id ∉ default ∅ (rs !! room) →
  (∀ members, rs !! room = Some members → members ≠ ∅) →
  removeFromRoom room id (addToRoom room id rs) = rs.
Proof.
  intros Hid Hne. unfold removeFromRoom, addToRoom. rewrite lookup_insert_eq.
  assert (({[id]} ∪ default ∅ (rs !! room)) ∖ {[id]} = default ∅ (rs !! room)) as ->.
  { apply set_eq. intros x. rewrite elem_of_difference, elem_of_union, elem_of_singleton.
    split; [intros [[->|Hx] Hx']; [done | exact Hx]|].
    intros Hx. split; [by right|]. intros ->. by apply Hid. }
  destruct (rs !! room) as [members|] eqn:E; simpl.
  - rewrite decide_False.
    + rewrite insert_insert_eq. by apply insert_id.
    + intros Hsize. apply size_empty_inv in Hsize. apply (Hne members eq_refl).
      by apply leibniz_equiv.
  - rewrite decide_True; [by apply delete_insert_id | reflexivity].
Qed.

(** X22. A join without a meeting id into a room the voice agent does not
    know is answered with the failure "Failed to join room: Room not
    found", but by then the connection has been stored and made a member
    of the room; the agent is left as it was, and audio forwarded to the
    room afterwards is sent to the socket that was refused. *)
Theorem refused_join_stays_registered (now later : Z) (socket : Socket)
    (payload : JoinPayload) (room audio : string) (pid : option string) (h : Hub) :
  truthy (jp_roomName payload) = Some room →
  truthy (jp_meetingId payload) = None →
  activeRooms (agent h) !! room = None →
  readyState socket = OPEN →
  let id := connectionId socket in
  let connection :=
    {| ws := socket; roomName := room; meetingId := jp_meetingId payload;
       participantIdentity := jp_participantIdentity payload; joinedAt := now |} in
  let reply := fst (handleJoinRoom now socket payload h) in
  let h' := snd (handleJoinRoom now socket payload h) in
  reply = Failed "Failed to join room: Room not found" ∧
  agent h' = agent h ∧
  alist_lookup id (connections (router h')) = Some connection ∧
  (∃ members, rooms h' !! room = Some members ∧ id ∈ members) ∧
  (id, forwardMessage later audio room pid)
    ∈ sent (forwardAudioToTeams later audio room pid (router h')).
Proof.
  intros Hroom Hmeeting Hnone Hopen id connection reply h'.
  destruct (handleJoinRoom_tables now socket payload room h Hroom) as [Hrouter Hrooms].
  fold h' in Hrouter, Hrooms. fold id connection in Hrouter. fold id in Hrooms.
  assert (reply = Failed "Failed to join room: Room not found" ∧ agent h' = agent h)
    as [Hreply Hagent].
  { subst reply h'. unfold handleJoinRoom, joinRoom. by rewrite Hroom, Hmeeting, Hnone. }
  assert (alist_lookup id (connections (router h')) = Some connection) as Hlookup.
  { rewrite Hrouter. apply alist_lookup_set. }
  split; [exact Hreply|]. split; [exact Hagent|]. split; [exact Hlookup|].
  split; [rewrite Hrooms; apply addToRoom_member|].
  assert (connection ∈ filter isOpen (findConnectionsByRoom room (router h'))) as Hin.
  { apply list_elem_of_filter. split; [exact Hopen|].
    apply list_elem_of_filter. split; [reflexivity|].
    apply list_elem_of_fmap. exists (id, connection). split; [reflexivity|].
    by apply alist_lookup_elem. }
  unfold forwardAudioToTeams.
  destruct (length (findConnectionsByRoom room (router h')) =? 0)%nat eqn:E.
  - apply Nat.eqb_eq, nil_length_inv in E. rewrite E in Hin. by apply elem_of_nil in Hin.
  - destruct (foldl_forwardTo (forwardMessage later audio room pid)
                (findConnectionsByRoom room (router h')) (router h')) as [_ ->].
    apply elem_of_app. right. apply list_elem_of_fmap. by exists connection.
Qed.

Lemma refused_join_stays_registered_witness :
  fst (handleJoinRoom 5 (socketOf "conn_9") (joining "room9" None) busy_hub)
    = Failed "Failed to join room: Room not found" ∧
  (∃ members,
     rooms (snd (handleJoinRoom 5 (socketOf "conn_9") (joining "room9" None) busy_hub))
       !! "room9" = Some members ∧ "conn_9" ∈ members) ∧
  ("conn_9", forwardMessage 6 "AAAA" "room9" None)
    ∈ sent (forwardAudioToTeams 6 "AAAA" "room9" None
              (router (snd (handleJoinRoom 5 (socketOf "conn_9") (joining "room9" None)
                              busy_hub)))).
Proof.
  destruct (refused_join_stays_registered 5 6 (socketOf "conn_9") (joining "room9" None)
              "room9" "AAAA" None busy_hub)
    as (Hreply & _ & _ & Hmember & Hsent);
    [reflexivity | reflexivity | by vm_compute | reflexivity |].
  split; [exact Hreply|]. split; [exact Hmember | exact Hsent].
Defined.




(** X24. A join followed by a leave of the same socket puts the
    connections, the messages sent and the rooms back as they were,
    provided the socket had no connection, its id was in no stale
    membership of that room, and no room was kept empty. *)
Theorem join_then_leave_restores_tables (t1 : Z) (socket : Socket) (payload : JoinPayload)
    (room : string) (h : Hub) :
  truthy (jp_roomName payload) = Some room →
  connectionId socket ∉ (connections (router h)).*1 →
  connectionId socket ∉ default ∅ (rooms h !! room) →
  (∀ members, rooms h !! room = Some members → members ≠ ∅) →
  let h' := snd (handleLeaveRoom socket (snd (handleJoinRoom t1 socket payload h))) in
  fst (handleLeaveRoom socket (snd (handleJoinRoom t1 socket payload h))) = Left room ∧
  router h' = router h ∧ rooms h' = rooms h.
Proof.
  intros Hroom Hfresh Hmember Hne h'. subst h'.
  set (h1 := snd (handleJoinRoom t1 socket payload h)).
  destruct (handleJoinRoom_tables t1 socket payload room h Hroom) as [Hrouter Hrooms].
  fold h1 in Hrouter, Hrooms.
  unfold handleLeaveRoom. rewrite Hrouter. simpl. rewrite alist_lookup_set. simpl.
  split; [reflexivity|]. split.
  - unfold deleteConnection. rewrite Hrouter. simpl.
    rewrite alist_set_absent by exact Hfresh. rewrite alist_delete_snoc by exact Hfresh.
    by destruct (router h).
  - rewrite Hrooms. by apply add_then_remove.
Qed.

Lemma join_then_leave_restores_tables_witness :
  fst (handleLeaveRoom (socketOf "conn_4")
         (snd (handleJoinRoom 7 (socketOf "conn_4") (joining "room1" None) busy_hub)))
    = Left "room1" ∧
  router (snd (handleLeaveRoom (socketOf "conn_4")
                 (snd (handleJoinRoom 7 (socketOf "conn_4") (joining "room1" None) busy_hub))))
    = router busy_hub ∧
  rooms (snd (handleLeaveRoom (socketOf "conn_4")
                (snd (handleJoinRoom 7 (socketOf "conn_4") (joining "room1" None) busy_hub))))
    = rooms busy_hub.
Proof.
  apply (join_then_leave_restores_tables 7 (socketOf "conn_4") (joining "room1" None)
           "room1" busy_hub).
  - reflexivity.
  - vm_compute. intros H. by repeat (apply elem_of_cons in H as [H|H]; [discriminate|]);
      apply elem_of_nil in H.
  - vm_compute. discriminate.
  - intros members Hm. vm_compute in Hm. injection Hm as <-.
    intros H. vm_compute in H. discriminate H.
Defined.

(** X25. Once a socket has left, or been disconnected, it has no
    connection: a further leave is answered "Connection not found" and,
    like a further disconnection, changes nothing. *)
Theorem second_leave_is_rejected (socket : Socket) (h : Hub) :
  let left := snd (handleLeaveRoom socket h) in
  let gone := handleDisconnection socket h in
  handleLeaveRoom socket left = (Failed "Connection not found", left) ∧
  handleDisconnection socket left = left ∧
  handleLeaveRoom socket gone = (Failed "Connection not found", gone) ∧
  handleDisconnection socket gone = gone.
Proof.
  assert (∀ h0, alist_lookup (connectionId socket) (connections (router h0)) = None →
                handleLeaveRoom socket h0 = (Failed "Connection not found", h0) ∧
                handleDisconnection socket h0 = h0) as Hnone.
  { intros h0 E. unfold handleLeaveRoom, handleDisconnection. by rewrite E. }
  assert (alist_lookup (connectionId socket)
            (connections (router (handleDisconnection socket h))) = None) as Hgone.
  { unfold handleDisconnection.
    destruct (alist_lookup _ (connections (router h))) eqn:E; [|exact E].
    apply alist_lookup_delete. }
  assert (snd (handleLeaveRoom socket h) = handleDisconnection socket h) as Hsame.
  { unfold handleLeaveRoom, handleDisconnection.
    destruct (alist_lookup (connectionId socket) (connections (router h))); reflexivity. }
  intros left gone. subst left gone. rewrite Hsame.
  destruct (Hnone _ Hgone) as [Hl Hd]. by rewrite Hl, Hd.
Qed.

End Bridge.

(** * Processing statistics and sample conversions of the audio engine *)
Module Engine.

Local Open Scope Z_scope.

(** ** [updateProcessingStats] and [getProcessingStats] *)

(** One entry of [this.processingStats]; [minTime] is [None] while it is
    still [Infinity]. *)
Record ProcessingStats := {
  totalProcessed : Z;
  totalTime : Z;
  minTime : option Z;
  maxTime : Z;
  recentTimes : list Z
}.

Definition initialStats : ProcessingStats :=
  {| totalProcessed := 0; totalTime := 0; minTime := None; maxTime := 0; recentTimes := [] |}.

(** [Math.min(stats.minTime, processingTime)] *)
Definition minWith (m : option Z) (t : Z) : Z :=
  match m with
  | None => t
  | Some x => Z.min x t
  end.

(** [recentTimes.push(t)], then one [shift()] once there are more than 100. *)
Definition pushRecent (recent : list Z) (t : Z) : list Z :=
  let r := recent ++ [t] in
  if (100 <? length r)%nat then drop 1 r else r.

Definition recordTime (stats : ProcessingStats) (processingTime : Z) : ProcessingStats :=
  {| totalProcessed := totalProcessed stats + 1;
     totalTime := totalTime stats + processingTime;
     minTime := Some (minWith (minTime stats) processingTime);
     maxTime := Z.max (maxTime stats) processingTime;
     recentTimes := pushRecent (recentTimes stats) processingTime |}.

Definition updateProcessingStats (meetingId : string) (processingTime : Z)
    (table : gmap string ProcessingStats) : gmap string ProcessingStats :=
  let stats := default initialStats (table !! meetingId) in
  <[meetingId := recordTime stats processingTime]> table.

(** The object [getProcessingStats] returns; the quotients are rationals. *)
Record StatsReport := {
  rep_totalProcessed : Z;
  rep_averageTime : Q;
  rep_minTime : Z;
  rep_maxTime : Z;
  rep_recentAverageTime : Q;
  rep_withinTargetPercentage : Q;
  rep_targetLatency : option Z
}.

Definition sumZ (l : list Z) : Z := foldr Z.add 0 l.

Definition getProcessingStats (maxLatency : Z) (meetingId : string)
    (table : gmap string ProcessingStats) : StatsReport :=
  match table !! meetingId with
  | None =>
      {| rep_totalProcessed := 0; rep_averageTime := 0%Q; rep_minTime := 0; rep_maxTime := 0;
         rep_recentAverageTime := 0%Q; rep_withinTargetPercentage := 0%Q;
         rep_targetLatency := None |}
  | Some stats =>
      let recent := recentTimes stats in
      let n := inject_Z (Z.of_nat (length recent)) in
      let within := filter (λ t, t < maxLatency) recent in
      {| rep_totalProcessed := totalProcessed stats;
         rep_averageTime := (inject_Z (totalTime stats) / inject_Z (totalProcessed stats))%Q;
         rep_minTime := default 0 (minTime stats);
         rep_maxTime := maxTime stats;
         rep_recentAverageTime :=
           if (0 <? length recent)%nat then (inject_Z (sumZ recent) / n)%Q else 0%Q;
         rep_withinTargetPercentage :=
           if (0 <? length recent)%nat
           then (inject_Z (Z.of_nat (length within)) / n * 100)%Q else 0%Q;
         rep_targetLatency := Some maxLatency |}
  end.

(** The table after the processing times [ts] of one meeting, in order. *)
Definition recordAll (meetingId : string) (ts : list Z)
    (table : gmap string ProcessingStats) : gmap string ProcessingStats :=
  foldl (λ tbl t, updateProcessingStats meetingId t tbl) table ts.

(** The last [n] elements of a list. *)
Definition lastN {A} (n : nat) (l : list A) : list A := drop (length l - n) l.

(** What the entry of a meeting says about the times [ts] recorded for it. *)
Definition summarizes (ts : list Z) (s : ProcessingStats) : Prop :=
  totalProcessed s = Z.of_nat (length ts) ∧
  totalTime s = sumZ ts ∧
  recentTimes s = lastN 100 ts ∧
  (ts = [] → minTime s = None) ∧
  (ts ≠ [] → ∃ mn, minTime s = Some mn ∧ mn ∈ ts ∧ ∀ x, x ∈ ts → mn ≤ x) ∧
  (∀ x, x ∈ ts → x ≤ maxTime s) ∧
  (maxTime s = 0 ∨ maxTime s ∈ ts).

Lemma sumZ_snoc l t : sumZ (l ++ [t]) = sumZ l + t.
Proof. unfold sumZ. induction l as [|x l IH]; simpl; [lia | rewrite IH; lia]. Qed.

Lemma lastN_app_lastN {A} (n : nat) (l k : list A) :
  lastN n (lastN n l ++ k) = lastN n (l ++ k).
Proof.
  unfold lastN. rewrite !length_app, length_drop, !skipn_app, drop_drop, length_drop.
  destruct (le_lt_dec (length l) n) as [H|H]; f_equal; f_equal; lia.
Qed.

Lemma length_lastN {A} (n : nat) (l : list A) : (length (lastN n l) ≤ n)%nat.
Proof. unfold lastN. rewrite length_drop. lia. Qed.

Lemma pushRecent_lastN (recent : list Z) (t : Z) :
  (length recent ≤ 100)%nat → pushRecent recent t = lastN 100 (recent ++ [t]).
Proof.
  intros Hlen. unfold pushRecent, lastN. rewrite length_app. simpl.
  destruct (Nat.ltb_spec 100 (length recent + 1)) as [H|H].
  - f_equal. lia.
  - by replace (length recent + 1 - 100)%nat with 0%nat by lia.
Qed.

Lemma summarizes_initial : summarizes [] initialStats.
Proof.
  unfold summarizes. simpl. repeat split; try done.
  - intros x Hx. by apply elem_of_nil in Hx.
  - by left.
Qed.

Lemma summarizes_record ts s t : summarizes ts s → summarizes (ts ++ [t]) (recordTime s t).
Proof.
  intros (Hn & Hsum & Hrec & Hnone & Hmin & Hmax & Hmx). unfold summarizes. simpl.
  split; [rewrite length_app; simpl; lia|].
  split; [rewrite sumZ_snoc; lia|].
  split.
  { rewrite Hrec, pushRecent_lastN by apply length_lastN. apply lastN_app_lastN. }
  split; [intros E; by apply app_nil in E as [_ ?]|].
  split.
  { intros _. destruct (decide (ts = [])) as [->|Hts].
    - rewrite Hnone by reflexivity. simpl. exists t.
      split; [reflexivity|]. split; [apply list_elem_of_here|].
      intros x Hx. apply list_elem_of_singleton in Hx. lia.
    - destruct (Hmin Hts) as (mn & Hmn & Hin & Hle). rewrite Hmn. simpl.
      exists (Z.min mn t). split; [reflexivity|]. split.
      + apply elem_of_app. destruct (Z.min_spec mn t) as [[_ ->]|[_ ->]];
          [by left | right; apply list_elem_of_here].
      + intros x Hx. apply elem_of_app in Hx as [Hx|Hx].
        * specialize (Hle x Hx). lia.
        * apply list_elem_of_singleton in Hx. lia. }
  split.
  { intros x Hx. apply elem_of_app in Hx as [Hx|Hx].
    - specialize (Hmax x Hx). lia.
    - apply list_elem_of_singleton in Hx. lia. }
  destruct (Z.max_spec (maxTime s) t) as [[_ ->]|[_ ->]].
  - right. apply elem_of_app. right. apply list_elem_of_here.
  - destruct Hmx as [H0|Hin]; [by left | right; apply elem_of_app; by left].
Qed.

Lemma recordAll_snoc meetingId ts t table :
  recordAll meetingId (ts ++ [t]) table =
  updateProcessingStats meetingId t (recordAll meetingId ts table).
Proof. unfold recordAll. by rewrite foldl_app. Qed.

Lemma recordAll_other meetingId other ts table :
  other ≠ meetingId → recordAll meetingId ts table !! other = table !! other.
Proof.
  intros Hne. induction ts as [|t ts IH] using rev_ind; [reflexivity|].
  rewrite recordAll_snoc. unfold updateProcessingStats. by rewrite lookup_insert_ne.
Qed.

Lemma recordAll_summarizes meetingId ts table :
  table !! meetingId = None →
  summarizes ts (default initialStats (recordAll meetingId ts table !! meetingId)) ∧
  (ts ≠ [] → is_Some (recordAll meetingId ts table !! meetingId)).
Proof.
  intros Hnone. induction ts as [|t ts [IH _]] using rev_ind.
  - simpl. rewrite Hnone. split; [apply summarizes_initial | done].
  - rewrite recordAll_snoc. unfold updateProcessingStats. rewrite lookup_insert_eq. simpl.
    split; [by apply summarizes_record | by eexists].
Qed.

(** X16. For a meeting without statistics yet, after the processing times
    [ts] have been recorded in order, its entry counts them, sums them,
    keeps the last 100 of them as recent times, has the smallest of them as
    [minTime] and bounds all of them by [maxTime] (which is one of them, or
    0); the entries of other meetings are untouched. *)
Theorem processing_stats_summarize_recorded_times (meetingId : string) (ts : list Z)
    (table : gmap string ProcessingStats) :
  table !! meetingId = None →
  ts ≠ [] →
  (∃ s, recordAll meetingId ts table !! meetingId = Some s ∧ summarizes ts s) ∧
  (∀ other, other ≠ meetingId → recordAll meetingId ts table !! other = table !! other).
Proof.
  intros Hnone Hne. split.
  - destruct (recordAll_summarizes meetingId ts table Hnone) as [Hs Hsome].
    destruct (Hsome Hne) as [s Hlook]. rewrite Hlook in Hs. by exists s.
  - intros other Ho. by apply recordAll_other.
Qed.

Lemma processing_stats_summarize_recorded_times_witness :
  (∅ : gmap string ProcessingStats) !! "m1" = None ∧
  [12; 7; 30] ≠ [] ∧
  recordAll "m1" [12; 7; 30] ∅ !! "m1" =
    Some {| totalProcessed := 3; totalTime := 49; minTime := Some 7; maxTime := 30;
            recentTimes := [12; 7; 30] |} ∧
  ∃ s, recordAll "m1" [12; 7; 30] ∅ !! "m1" = Some s ∧ summarizes [12; 7; 30] s.
Proof.
  assert ((∅ : gmap string ProcessingStats) !! "m1" = None) as Hnone by reflexivity.
  assert ([12; 7; 30] ≠ ([] : list Z)) as Hne by discriminate.
  split; [exact Hnone|]. split; [exact Hne|]. split; [vm_compute; reflexivity|].
  exact (proj1 (processing_stats_summarize_recorded_times "m1" [12; 7; 30] ∅ Hnone Hne)).
Defined.

(** ** [convertPCM16ToFloat32] and [convertFloat32ToPCM16] *)

(** An element of a [Float32Array]: a number, [NaN], or an infinity. *)
Inductive float32 := F32 (q : Q) | F32NaN | F32Inf (negative : bool).

Definition isInt16 (x : Z) : Prop := -32768 ≤ x ≤ 32767.

(** [float32Buffer[i] = pcm16Buffer[i] / 32768.0]: the quotient of a 16-bit
    integer by a power of two is stored without rounding. *)
Definition convertPCM16ToFloat32 (pcm16Buffer : list Z) : list float32 :=
  (λ x, F32 (inject_Z x / 32768)) <$> pcm16Buffer.

Definition Qmin2 (a b : Q) : Q := if Qle_bool a b then a else b.
Definition Qmax2 (a b : Q) : Q := if Qle_bool a b then b else a.

(** [Math.max(-1, Math.min(1, x))]; [None] is [NaN]. *)
Definition clampUnit (x : float32) : option Q :=
  match x with
  | F32 q => Some (Qmax2 (-1) (Qmin2 1 q))
  | F32NaN => None
  | F32Inf false => Some 1%Q
  | F32Inf true => Some (-1)%Q
  end.

(** Storing a number into an [Int16Array]: [NaN] becomes 0, any other number
    is truncated towards zero and wrapped to 16 bits. *)
Definition truncate (q : Q) : Z := Z.quot (Qnum q) (Z.pos (Qden q)).

Definition wrap16 (n : Z) : Z := (n + 32768) mod 65536 - 32768.

Definition storeInt16 (v : option Q) : Z :=
  match v with
  | None => 0
  | Some q => wrap16 (truncate q)
  end.

(** [pcm16Buffer[i] = sample * 32767]; the product of a clamped 32-bit float
    and 32767 is exact in double precision. *)
Definition convertFloat32ToPCM16 (float32Buffer : list float32) : list Z :=
  (λ x, storeInt16 ((λ sample, sample * 32767)%Q <$> clampUnit x)) <$> float32Buffer.

Lemma wrap16_small n : -32768 ≤ n ≤ 32767 → wrap16 n = n.
Proof. intros H. unfold wrap16. rewrite Z.mod_small by lia. lia. Qed.

Lemma quot_scaled x : -32768 ≤ x ≤ 32768 → Z.quot (x * 32767) 32768 = x - Z.sgn x.
Proof.
  intros Hx. destruct (Z.lt_trichotomy x 0) as [Hneg|[->|Hpos]].
  - replace (x * 32767) with (- ((- x) * 32767)) by lia.
    rewrite Z.quot_opp_l by lia. rewrite Z.quot_div_nonneg by lia.
    rewrite Z.sgn_neg by lia.
    assert (- x * 32767 / 32768 = - x - 1) as ->; [|lia].
    symmetry. apply (Z.div_unique _ _ _ (32768 + x)); lia.
  - reflexivity.
  - rewrite Z.quot_div_nonneg by lia. rewrite Z.sgn_pos by lia.
    symmetry. apply (Z.div_unique _ _ _ (32768 - x)); lia.
Qed.

Lemma roundtrip_sample x :
  isInt16 x →
  storeInt16 ((λ sample, sample * 32767)%Q <$> clampUnit (F32 (inject_Z x / 32768))) =
  x - Z.sgn x.
Proof.
  intros Hx. unfold isInt16 in Hx. simpl. unfold Qmin2, Qmax2.
  assert (Qle_bool 1 (inject_Z x / 32768) = false) as ->.
  { apply not_true_is_false. intros H. apply Qle_bool_iff in H.
    unfold Qle in H. simpl in H. lia. }
  assert (Qle_bool (-1) (inject_Z x / 32768) = true) as ->.
  { apply Qle_bool_iff. unfold Qle. simpl. lia. }
  unfold truncate. simpl. rewrite Z.mul_1_r, quot_scaled by lia.
  apply wrap16_small. destruct (Z.sgn_spec x) as [[? ->]|[[? ->]|[? ->]]]; lia.
Qed.

(** X17. Converting 16-bit samples to floats and back does not give the
    samples back: every sample other than 0 comes back one step closer to
    0 (and 0 stays 0). *)
Theorem pcm16_float32_roundtrip_loses_one_step (pcm : list Z) :
  Forall isInt16 pcm →
  convertFloat32ToPCM16 (convertPCM16ToFloat32 pcm) = (λ x, x - Z.sgn x) <$> pcm.
Proof.
  intros Hpcm. unfold convertFloat32ToPCM16, convertPCM16ToFloat32.
  rewrite <- list_fmap_compose. apply Forall_fmap_ext_1.
  eapply Forall_impl; [exact Hpcm|]. intros x Hx. by apply roundtrip_sample.
Qed.

Lemma pcm16_float32_roundtrip_loses_one_step_witness :
  Forall isInt16 [-32768; -5; 0; 1; 32767] ∧
  convertFloat32ToPCM16 (convertPCM16ToFloat32 [-32768; -5; 0; 1; 32767]) =
    [-32767; -4; 0; 0; 32766].
Proof.
  assert (Forall isInt16 [-32768; -5; 0; 1; 32767]) as H
    by (repeat constructor; unfold isInt16; lia).
  split; [exact H|].
  exact (pcm16_float32_roundtrip_loses_one_step [-32768; -5; 0; 1; 32767] H).
Defined.

Lemma clampUnit_range x c : clampUnit x = Some c → (-1 <= c ∧ c <= 1)%Q.
Proof.
  destruct x as [q| |[|]]; simpl; try discriminate.
  - intros [= <-]. unfold Qmax2, Qmin2.
    destruct (Qle_bool 1 q) eqn:E1.
    + assert (Qle_bool (-1) 1 = true) as -> by reflexivity. split; [by compute | apply Qle_refl].
    + destruct (Qle_bool (-1) q) eqn:E2.
      * apply Qle_bool_iff in E2. split; [exact E2|].
        apply Qlt_le_weak, Qnot_le_lt. intros H. apply Qle_bool_iff in H. congruence.
      * split; [apply Qle_refl | by compute].
  - intros [= <-]. split; [apply Qle_refl | by compute].
  - intros [= <-]. split; [by compute | apply Qle_refl].
Qed.

Lemma truncate_range (r : Q) :
  (-32767 <= r ∧ r <= 32767)%Q → -32767 ≤ truncate r ≤ 32767.
Proof.
  intros [Hlo Hhi]. unfold truncate. unfold Qle in *. simpl in *.
  set (d := Z.pos (Qden r)) in *.
  assert (Z.quot (-32767 * d) d ≤ Z.quot (Qnum r) d) as H1
    by (apply Z.quot_le_mono; lia).
  assert (Z.quot (Qnum r) d ≤ Z.quot (32767 * d) d) as H2
    by (apply Z.quot_le_mono; lia).
  rewrite Z.quot_mul in H1, H2 by lia. lia.
Qed.

(** X18. Whatever a float buffer holds, [convertFloat32ToPCM16] returns one
    sample per element, each between -32767 and 32767 (-32768 is never
    produced); [NaN] gives 0 and the infinities give the two extremes. *)
Theorem float32_to_pcm16_range (fs : list float32) :
  length (convertFloat32ToPCM16 fs) = length fs ∧
  Forall (λ y, -32767 ≤ y ≤ 32767) (convertFloat32ToPCM16 fs) ∧
  convertFloat32ToPCM16 [F32NaN; F32Inf false; F32Inf true] = [0; 32767; -32767].
Proof.
  split; [apply length_fmap|]. split; [|reflexivity].
  unfold convertFloat32ToPCM16. apply Forall_fmap, Forall_forall. intros x _. simpl.
  destruct (clampUnit x) as [c|] eqn:E; simpl; [|lia].
  apply clampUnit_range in E as [Hlo Hhi].
  assert (-32767 ≤ truncate (c * 32767) ≤ 32767) as Ht.
  { apply truncate_range. split; lra. }
  rewrite wrap16_small; lia.
Qed.

End Engine.

(** * The voice agent: conversation histories and the WAV container

    [generateAIResponse] and [pcmToWav] of [LiveKitVoiceAgent]
    (src/livekit/VoiceAgent.js), over the agent state of [Bridge]. *)
Module VoiceAgent.

Import Bridge.

(** ** [generateAIResponse] *)

Definition systemMessage (a : Agent) : ChatMessage :=
  {| cm_role := "system"; cm_content := systemPrompt a |}.

Definition userMessage (transcript : string) : ChatMessage :=
  {| cm_role := "user"; cm_content := transcript |}.

Definition assistantMessage (response : string) : ChatMessage :=
  {| cm_role := "assistant"; cm_content := response |}.

(** [conversationHistory.splice(1, 2)] *)
Definition splice_1_2 {A} (l : list A) : list A := take 1 l ++ drop 3 l.

Definition setHistory (room : string) (history : list ChatMessage) (a : Agent) : Agent :=
  {| activeRooms := activeRooms a;
     conversationHistories := <[room := history]> (conversationHistories a);
     processingQueues := processingQueues a;
     systemPrompt := systemPrompt a |}.

Definition quote : string := String "034"%char "".

(** The mock response of the demo mode; [String.substring 0 30] stands for
    [transcript.substring(0, 30)]. *)
Definition demoResponse (transcript : string) : string :=
  "Thank you for saying " +:+ quote +:+ String.substring 0 30 transcript +:+ "..." +:+ quote +:+
  ". This is a demo response from the AI voice agent. In production, this would be powered by OpenAI's GPT-4o model for natural conversation.".

(** [completion] is what the request to OpenAI comes to: it fails, or gives
    [completion.choices[0]?.message?.content], which may be missing.  The
    array the map holds for the room is the one the user's message is
    pushed to; without one the message goes to a fresh array, which reaches
    the map only through the [set] that follows a response.  The result is
    [response], and [null] (here [None]) when the request failed.  A call
    is taken to end before the next one for the room starts. *)
Definition generateAIResponse (demoMode : bool) (completion : Outcome (option string))
    (transcript room : string) (a : Agent) : option string * Agent :=
  let stored := conversationHistories a !! room in
  let history := default [systemMessage a] stored ++ [userMessage transcript] in
  let pushed := match stored with Some _ => setHistory room history a | None => a end in
  match (if demoMode then Return (Some (demoResponse transcript)) else completion) with
  | Throw _ => (None, pushed)
  | Return response =>
      match truthy response with
      | Some text =>
          let history := history ++ [assistantMessage text] in
          let history := if (20 <? length history)%nat then splice_1_2 history else history in
          (response, setHistory room history a)
      | None => (response, pushed)
      end
  end.

Inductive AgentOp :=
  | CreateRoom (now : Z) (room : string) (meeting : option string)
  | Respond (demoMode : bool) (completion : Outcome (option string)) (transcript room : string).

Definition act (op : AgentOp) (a : Agent) : Agent :=
  match op with
  | CreateRoom now room meeting => snd (createRoom now room meeting a)
  | Respond demoMode completion transcript room =>
      snd (generateAIResponse demoMode completion transcript room a)
  end.

Definition actAll (ops : list AgentOp) (a : Agent) : Agent := foldl (λ a op, act op a) a ops.


(** A request of the production mode that produced none. *)
Definition unanswered (completion : Outcome (option string)) : Prop :=
  match completion with
  | Throw _ => True
  | Return response => truthy response = None
  end.















(** X27. A request of the production mode that gets no response (the
    completion fails, or has no content) still leaves the user's message in
    the history the room already has, and nothing is trimmed: after any
    number of such requests the history is the old one followed by all
    their messages, so its length has no bound. *)
Theorem unanswered_messages_accumulate (calls : list (Outcome (option string) * string))
    (room : string) (history : list ChatMessage) (a : Agent) :
  conversationHistories a !! room = Some history →
  Forall (λ call, unanswered call.1) calls →
  conversationHistories
    (actAll ((λ call, Respond false call.1 call.2 room) <$> calls) a) !! room
    = Some (history ++ (userMessage ∘ snd <$> calls)).
Proof.
  intros Hlookup Hcalls. revert a history Hlookup.
  induction Hcalls as [|[completion transcript] calls Hcall _ IH]; intros a history Hlookup.
  - simpl. by rewrite app_nil_r.
  - simpl. rewrite (IH _ (history ++ [userMessage transcript])).
    + by rewrite <- app_assoc.
    + unfold generateAIResponse. rewrite Hlookup. simpl in *.
      destruct completion as [msg|response]; simpl.
      * unfold setHistory. cbn [conversationHistories]. by rewrite lookup_insert_eq.
      * rewrite Hcall. unfold setHistory. cbn [conversationHistories snd].
        by rewrite lookup_insert_eq.
Qed.

Lemma unanswered_messages_accumulate_witness :
  conversationHistories
    (actAll [Respond false (Throw "timeout") "hello" "room1";
             Respond false (Return None) "anyone?" "room1"]
       (snd (createRoom 0 "room1" (Some "m1") (newAgent "prompt")))) !! "room1"
  = Some [ {| cm_role := "system"; cm_content := "prompt" |};
           userMessage "hello"; userMessage "anyone?" ].
Proof.
  apply (unanswered_messages_accumulate [(Throw "timeout", "hello"); (Return None, "anyone?")]
           "room1" [{| cm_role := "system"; cm_content := "prompt" |}]
           (snd (createRoom 0 "room1" (Some "m1") (newAgent "prompt")))).
  - vm_compute. reflexivity.
  - repeat (apply Forall_cons; split; [simpl; auto|]). apply Forall_nil_2.
Defined.

(** ** [pcmToWav] *)

(** The byte a [DataView] stores for the integer [n]: its residue modulo 256. *)
Definition byteOf (n : Z) : byte := default x00 (Byte.of_N (Z.to_N (n mod 256))).

(** [view.setUint16(offset, v, true)] and [view.setInt16(offset, v, true)]
    store the same two bytes, [view.setUint32(offset, v, true)] four:
    least significant first. *)
Definition littleEndian16 (v : Z) : list byte := [byteOf v; byteOf (v / 256)].

Definition littleEndian32 (v : Z) : list byte :=
  [byteOf v; byteOf (v / 256); byteOf (v / 65536); byteOf (v / 16777216)].

(** The bytes [writeString] stores: [string.charCodeAt(i)], one by one. *)
Definition charCodes (s : string) : list byte := byte_of_ascii <$> String.list_ascii_of_string s.

(** A store of [bytes] at [offset] of the buffer.  All stores of
    [pcmToWav] lie within the buffer it allocates. *)
Definition writeAt (offset : nat) (bytes buffer : list byte) : list byte :=
  take offset buffer ++ bytes ++ drop (offset + length bytes) buffer.

(** The loop over [pcmData]. *)
Fixpoint writeSamples (pcmData : list Z) (offset : nat) (buffer : list byte) : list byte :=
  match pcmData with
  | [] => buffer
  | sample :: rest => writeSamples rest (offset + 2) (writeAt offset (littleEndian16 sample) buffer)
  end.

(** The thirteen stores of the header. *)
Definition writeHeader (sampleRate channels dataLength : Z) (buffer : list byte) : list byte :=
  let bitsPerSample := 16%Z in
  let buffer := writeAt 0 (charCodes "RIFF") buffer in
  let buffer := writeAt 4 (littleEndian32 (36 + dataLength)) buffer in
  let buffer := writeAt 8 (charCodes "WAVE") buffer in
  let buffer := writeAt 12 (charCodes "fmt ") buffer in
  let buffer := writeAt 16 (littleEndian32 16) buffer in
  let buffer := writeAt 20 (littleEndian16 1) buffer in
  let buffer := writeAt 22 (littleEndian16 channels) buffer in
  let buffer := writeAt 24 (littleEndian32 sampleRate) buffer in
  let buffer := writeAt 28 (littleEndian32 (sampleRate * channels * (bitsPerSample / 8))) buffer in
  let buffer := writeAt 32 (littleEndian16 (channels * (bitsPerSample / 8))) buffer in
  let buffer := writeAt 34 (littleEndian16 bitsPerSample) buffer in
  let buffer := writeAt 36 (charCodes "data") buffer in
  writeAt 40 (littleEndian32 dataLength) buffer.

Definition pcmToWav (sampleRate channels : Z) (pcmData : list Z) : list byte :=
  let dataLength := length pcmData * 2 in
  let buffer := replicate (44 + dataLength) x00 in
  let buffer := writeHeader sampleRate channels (Z.of_nat dataLength) buffer in
  writeSamples pcmData 44 buffer.

Lemma uint8_byteOf (n : Z) : Z.of_N (Byte.to_N (byteOf n)) = (n mod 256)%Z.
Proof.
  unfold byteOf. assert (0 ≤ n mod 256 < 256)%Z as Hr by (apply Z.mod_pos_bound; lia).
  destruct (Byte.of_N (Z.to_N (n mod 256))) as [b|] eqn:E; simpl.
  - apply Byte.to_of_N in E. rewrite E. lia.
  - apply Byte.of_N_None_iff in E. lia.
Qed.

Lemma int16_littleEndian (v : Z) :
  Engine.isInt16 v → Codec.int16 (byteOf v) (byteOf (v / 256)) = v.
Proof.
  unfold Engine.isInt16, Codec.int16. intros Hv. rewrite !uint8_byteOf.
  assert (v mod 256 + 256 * ((v / 256) mod 256) = v mod 65536)%Z as ->.
  { rewrite (Z.mod_eq v 65536), (Z.mod_eq v 256), (Z.mod_eq (v / 256) 256) by lia.
    replace (v / 256 / 256)%Z with (v / 65536)%Z; [lia|].
    rewrite Z.div_div by lia. reflexivity. }
  destruct (v mod 65536 <? 32768)%Z eqn:E.
  - apply Z.ltb_lt in E. assert (0 ≤ v mod 65536)%Z by (apply Z.mod_pos_bound; lia).
    destruct (Z_lt_le_dec v 0) as [Hneg|Hpos].
    + rewrite <- (Z.mod_add v 1 65536) in E by lia.
      rewrite Z.mod_small in E by lia. lia.
    + apply Z.mod_small. lia.
  - apply Z.ltb_ge in E.
    destruct (Z_lt_le_dec v 0) as [Hneg|Hpos].
    + rewrite <- (Z.mod_add v 1 65536) by lia. rewrite Z.mod_small by lia. lia.
    + rewrite Z.mod_small in E by lia. lia.
Qed.

Lemma writeAt_end (bytes done rest : list byte) :
  writeAt (length done) bytes (done ++ replicate (length bytes) x00 ++ rest)
  = (done ++ bytes) ++ rest.
Proof.
  unfold writeAt. rewrite take_app_length, <- app_assoc. f_equal. f_equal.
  rewrite drop_app_add, drop_app_length'; [reflexivity | by rewrite length_replicate].
Qed.

Lemma writeSamples_fills (pcmData : list Z) (done : list byte) :
  writeSamples pcmData (length done) (done ++ replicate (length pcmData * 2) x00)
  = done ++ (pcmData ≫= littleEndian16).
Proof.
  revert done. induction pcmData as [|sample rest IH]; intros done; simpl.
  - reflexivity.
  - change (x00 :: x00 :: replicate (length rest * 2) x00)
      with (replicate (length (littleEndian16 sample)) x00 ++ replicate (length rest * 2) x00).
    rewrite writeAt_end.
    replace (length done + 2) with (length (done ++ littleEndian16 sample))
      by (rewrite length_app; reflexivity).
    rewrite IH. by rewrite <- app_assoc.
Qed.

(** The forty-four bytes of the header. *)
Definition header (sampleRate channels dataLength : Z) : list byte :=
  charCodes "RIFF" ++ littleEndian32 (36 + dataLength) ++ charCodes "WAVE" ++
  charCodes "fmt " ++ littleEndian32 16 ++ littleEndian16 1 ++ littleEndian16 channels ++
  littleEndian32 sampleRate ++ littleEndian32 (sampleRate * channels * 2) ++
  littleEndian16 (channels * 2) ++ littleEndian16 16 ++
  charCodes "data" ++ littleEndian32 dataLength.

Lemma writeHeader_fills (sampleRate channels dataLength : Z) (rest : list byte) :
  writeHeader sampleRate channels dataLength (replicate 44 x00 ++ rest)
  = header sampleRate channels dataLength ++ rest.
Proof. reflexivity. Qed.

Lemma pcmToWav_layout (sampleRate channels : Z) (pcmData : list Z) :
  pcmToWav sampleRate channels pcmData
  = header sampleRate channels (Z.of_nat (length pcmData * 2)) ++ (pcmData ≫= littleEndian16).
Proof.
  unfold pcmToWav. cbv zeta. rewrite replicate_add, writeHeader_fills.
  apply (writeSamples_fills pcmData (header _ _ _)).
Qed.

Lemma int16s_littleEndian (pcmData : list Z) (rest : list byte) :
  Forall Engine.isInt16 pcmData →
  Codec.int16s (length pcmData) ((pcmData ≫= littleEndian16) ++ rest) = pcmData.
Proof.
  induction 1 as [|sample pcmData Hs _ IH]; [reflexivity|].
  cbn [length mbind list_bind littleEndian16 app Codec.int16s].
  by rewrite int16_littleEndian, IH.
Qed.

Lemma length_samples (pcmData : list Z) :
  length (pcmData ≫= littleEndian16) = length pcmData * 2.
Proof.
  induction pcmData as [|s rest IH]; [reflexivity|].
  change ((s :: rest) ≫= littleEndian16) with (littleEndian16 s ++ (rest ≫= littleEndian16)).
  rewrite length_app, IH. reflexivity.
Qed.

(** X28. The WAV file made of 16-bit samples is 44 bytes of header and two
    bytes per sample; it starts with "RIFF", the two sizes the header
    declares are those of the file, and an [Int16Array] over its bytes from
    offset 44 on, as [decodeAudioData] makes one, holds the samples again. *)
Theorem wav_data_decodes_to_the_samples (sampleRate channels : Z) (pcmData : list Z) :
  Forall Engine.isInt16 pcmData →
  let wav := pcmToWav sampleRate channels pcmData in
  let n := length pcmData in
  length wav = 44 + 2 * n ∧
  take 4 wav = charCodes "RIFF" ∧
  take 4 (drop 4 wav) = littleEndian32 (Z.of_nat (length wav) - 8) ∧
  take 4 (drop 40 wav) = littleEndian32 (Z.of_nat (length wav) - 44) ∧
  ∃ samples, Codec.newTypedArray Codec.Int16 wav 44 n = Return samples ∧
             Codec.int16Elements samples = pcmData.
Proof.
  intros Hpcm wav n. subst wav n. rewrite pcmToWav_layout.
  set (data := pcmData ≫= littleEndian16).
  assert (length (header sampleRate channels (Z.of_nat (length pcmData * 2)) ++ data)
            = 44 + 2 * length pcmData) as Hlen.
  { rewrite length_app. unfold data. rewrite length_samples. simpl. lia. }
  rewrite Hlen.
  replace (Z.of_nat (44 + 2 * length pcmData) - 8)%Z
    with (36 + Z.of_nat (length pcmData * 2))%Z by lia.
  replace (Z.of_nat (44 + 2 * length pcmData) - 44)%Z
    with (Z.of_nat (length pcmData * 2)) by lia.
  split; [reflexivity|]. split; [reflexivity|]. split; [reflexivity|]. split; [reflexivity|].
  eexists. split.
  - unfold Codec.newTypedArray. rewrite Hlen.
    change (44 mod Codec.bytesPerElement Codec.Int16 =? 0) with true.
    cbn [negb Codec.bytesPerElement].
    replace (44 + 2 * length pcmData <? 44 + length pcmData * 2) with false; [reflexivity|].
    symmetry. apply Nat.ltb_ge. lia.
  - unfold Codec.int16Elements. cbn [Codec.ta_length Codec.ta_byteOffset Codec.ta_buffer].
    change (drop 44 (header sampleRate channels (Z.of_nat (length pcmData * 2)) ++ data))
      with data.
    unfold data. rewrite <- (app_nil_r (pcmData ≫= littleEndian16)).
    by apply int16s_littleEndian.
Qed.

Lemma wav_data_decodes_to_the_samples_witness :
  Forall Engine.isInt16 [0; 1; -1; 32767; -32768]%Z ∧
  length (pcmToWav 16000 1 [0; 1; -1; 32767; -32768]%Z) = 54 ∧
  ∃ samples,
    Codec.newTypedArray Codec.Int16 (pcmToWav 16000 1 [0; 1; -1; 32767; -32768]%Z) 44 5
      = Return samples ∧
    Codec.int16Elements samples = [0; 1; -1; 32767; -32768]%Z.
Proof.
  assert (Forall Engine.isInt16 [0; 1; -1; 32767; -32768]%Z) as Hpcm.
  { repeat (apply Forall_cons; split; [unfold Engine.isInt16; lia|]). apply Forall_nil_2. }
  destruct (wav_data_decodes_to_the_samples 16000 1 [0; 1; -1; 32767; -32768]%Z Hpcm)
    as (Hlen & _ & _ & _ & Hdecode).
  split; [exact Hpcm|]. split; [exact Hlen | exact Hdecode].
Defined.

End VoiceAgent.

(** * The table of active calls

    [joinMeeting] (demo mode), [handleCallback], [processNotification] and
    the three notification handlers of [TeamsMediaBotController]
    (src/teams/MediaBotController.js).  A notification is an object; its
    [changeType] and the optional fields of its resource may be missing. *)
Module MediaBot.

Record CallParticipant := {
  cp_id : string;
  cp_displayName : option string;
  cp_joinTime : Z
}.

Record CallInfo := {
  ci_meetingId : string;
  ci_joinTime : Z;
  ci_status : option string;
  ci_lastUpdate : option Z;
  ci_participants : list CallParticipant
}.

Definition set_ci_participants (ps : list CallParticipant) (info : CallInfo) : CallInfo :=
  {| ci_meetingId := ci_meetingId info; ci_joinTime := ci_joinTime info;
     ci_status := ci_status info; ci_lastUpdate := ci_lastUpdate info;
     ci_participants := ps |}.

Definition demoCallId (meetingId : string) (now : Z) : string :=
  "demo_call_" +:+ meetingId +:+ "_" +:+ pretty now.

(** [joinMeeting] in demo mode: the id of the call, and [this.activeCalls]. *)
Definition joinMeeting (now : Z) (meetingId : string) (calls : gmap string CallInfo)
    : string * gmap string CallInfo :=
  let callId := demoCallId meetingId now in
  (callId,
   <[callId := {| ci_meetingId := meetingId; ci_joinTime := now;
                  ci_status := Some "connected"; ci_lastUpdate := None;
                  ci_participants := [] |}]> calls).

(** The resource of a notification, by its ['@odata.type']. *)
Inductive Resource :=
  | CallResource (id : string) (state : option string)
  | ParticipantResource (id : string) (displayName : option string)
  | OperationResource (id : string) (operationType status : option string)
  | OtherResource (odataType : option string).

Record Notification := {
  changeType : option string;
  resource : Resource
}.

(** The object a handler returns; each carries [status: 'processed'], the
    last one [status: 'ignored']. *)
Inductive Processed :=
  | CallProcessed (callId : string) (callState changeType : option string)
  | ParticipantProcessed (participantId : string) (displayName changeType : option string)
  | OperationProcessed (operationId : string) (operationType changeType : option string)
  | Ignored (changeType odataType : option string).

Definition handleCallNotification (now : Z) (callId : string) (callState changeType : option string)
    (calls : gmap string CallInfo) : Processed * gmap string CallInfo :=
  let calls' :=
    if decide (changeType = Some "created" ∨ changeType = Some "updated") then
      match calls !! callId with
      | Some callInfo =>
          <[callId := {| ci_meetingId := ci_meetingId callInfo;
                         ci_joinTime := ci_joinTime callInfo;
                         ci_status := callState; ci_lastUpdate := Some now;
                         ci_participants := ci_participants callInfo |}]> calls
      | None => calls
      end
    else if decide (changeType = Some "deleted") then delete callId calls
    else calls in
  (CallProcessed callId callState changeType, calls').

(** The body of the loop over the entries of [this.activeCalls]. *)
Definition updateParticipants (now : Z) (participantId : string) (displayName changeType : option string)
    (callInfo : CallInfo) : CallInfo :=
  if decide (changeType = Some "created") then
    set_ci_participants
      (ci_participants callInfo ++
         [{| cp_id := participantId; cp_displayName := displayName; cp_joinTime := now |}])
      callInfo
  else if decide (changeType = Some "deleted") then
    set_ci_participants (filter (λ p, cp_id p ≠ participantId) (ci_participants callInfo)) callInfo
  else callInfo.

Definition handleParticipantNotification (now : Z) (participantId : string)
    (displayName changeType : option string) (calls : gmap string CallInfo) : Processed * gmap string CallInfo :=
  (ParticipantProcessed participantId displayName changeType,
   updateParticipants now participantId displayName changeType <$> calls).

Definition handleOperationNotification (operationId : string)
    (operationType changeType : option string) : Processed :=
  OperationProcessed operationId operationType changeType.

Definition processNotification (now : Z) (notification : Notification) (calls : gmap string CallInfo)
    : Processed * gmap string CallInfo :=
  match resource notification with
  | CallResource id state => handleCallNotification now id state (changeType notification) calls
  | ParticipantResource id displayName =>
      handleParticipantNotification now id displayName (changeType notification) calls
  | OperationResource id operationType _ =>
      (handleOperationNotification id operationType (changeType notification), calls)
  | OtherResource odataType => (Ignored (changeType notification) odataType, calls)
  end.

(** The body of a callback: [value] when it is an array, else the body
    itself as the one notification; each notification with the clock
    reading of its handler. *)
Inductive NotificationData :=
  | Batch (value : list (Z * Notification))
  | Single (now : Z) (notification : Notification).

Definition notificationsOf (data : NotificationData) : list (Z * Notification) :=
  match data with
  | Batch value => value
  | Single now notification => [(now, notification)]
  end.

Fixpoint processAll (notifications : list (Z * Notification)) (calls : gmap string CallInfo)
    : list Processed * gmap string CallInfo :=
  match notifications with
  | [] => ([], calls)
  | (now, notification) :: rest =>
      let '(result, calls) := processNotification now notification calls in
      let '(results, calls) := processAll rest calls in
      (result :: results, calls)
  end.

Record CallbackResult := {
  processed : nat;
  results : list Processed
}.

Definition handleCallback (data : NotificationData) (calls : gmap string CallInfo)
    : CallbackResult * gmap string CallInfo :=
  let '(results, calls) := processAll (notificationsOf data) calls in
  ({| processed := length results; results := results |}, calls).

(** ** What notifications can do to the table *)

(** The same call: the meeting and the time of the join. *)
Definition sameCall (info info' : CallInfo) : Prop :=
  ci_meetingId info' = ci_meetingId info ∧ ci_joinTime info' = ci_joinTime info.

(** A notification that a call was deleted. *)
Definition deletes (callId : string) (notification : Notification) : Prop :=
  changeType notification = Some "deleted" ∧
  ∃ state, resource notification = CallResource callId state.

Definition keptOrDeleted (notifications : list (Z * Notification)) (calls calls' : gmap string CallInfo)
    : Prop :=
  dom calls' ⊆ dom calls ∧
  ∀ callId info, calls !! callId = Some info →
    match calls' !! callId with
    | Some info' => sameCall info info'
    | None => ∃ now notification, (now, notification) ∈ notifications ∧ deletes callId notification
    end.

Lemma sameCall_updateParticipants now pid name change info :
  sameCall info (updateParticipants now pid name change info).
Proof. unfold updateParticipants. by repeat case_decide. Qed.

Lemma keptOrDeleted_step now notification calls :
  keptOrDeleted [(now, notification)] calls (snd (processNotification now notification calls)).
Proof.
  destruct notification as [change [id state|id name|id ty st|ty]];
    unfold processNotification; simpl.
  - unfold handleCallNotification. simpl. split.
    + repeat case_decide.
      * destruct (calls !! id) eqn:E; [|done].
        rewrite dom_insert_lookup_L; [done | by eexists].
      * rewrite dom_delete_L. apply subseteq_difference_l. done.
      * done.
    + intros callId info Hlookup. repeat case_decide.
      * destruct (calls !! id) as [callInfo|] eqn:E.
        -- destruct (decide (callId = id)) as [->|Hne].
           ++ rewrite lookup_insert_eq. assert (callInfo = info) as -> by congruence. done.
           ++ rewrite lookup_insert_ne by (by apply not_eq_sym). by rewrite Hlookup.
        -- by rewrite Hlookup.
      * destruct (decide (callId = id)) as [->|Hne].
        -- rewrite lookup_delete_eq. exists now, {| changeType := change; resource := CallResource id state |}.
           split; [apply list_elem_of_here|]. split; [done | by exists state].
        -- rewrite lookup_delete_ne by (by apply not_eq_sym). by rewrite Hlookup.
      * by rewrite Hlookup.
  - split.
    + by rewrite dom_fmap_L.
    + intros callId info Hlookup. rewrite lookup_fmap, Hlookup. simpl.
      apply sameCall_updateParticipants.
  - split; [done|]. intros callId info Hlookup. by rewrite Hlookup.
  - split; [done|]. intros callId info Hlookup. by rewrite Hlookup.
Qed.

Lemma keptOrDeleted_all notifications calls :
  keptOrDeleted notifications calls (snd (processAll notifications calls)) ∧
  length (fst (processAll notifications calls)) = length notifications.
Proof.
  revert calls. induction notifications as [|[now notification] rest IH]; intros calls.
  - split; [|reflexivity]. split; [done|]. intros callId info Hlookup. simpl.
    by rewrite Hlookup.
  - simpl. pose proof (keptOrDeleted_step now notification calls) as [Hdom1 Hstep].
    destruct (processNotification now notification calls) as [result calls1]. simpl in *.
    destruct (IH calls1) as [[Hdom2 Hrest] Hlen].
    destruct (processAll rest calls1) as [results calls2]. simpl in *.
    split; [|by rewrite Hlen]. split; [by etrans|].
    intros callId info Hlookup. specialize (Hstep callId info Hlookup).
    destruct (calls1 !! callId) as [info1|] eqn:E1.
    + specialize (Hrest callId info1 E1). destruct (calls2 !! callId) as [info2|].
      * destruct Hstep as [? ?], Hrest as [? ?]. split; congruence.
      * destruct Hrest as (now' & n' & Hin & Hdel). exists now', n'.
        split; [by apply list_elem_of_further | exact Hdel].
    + assert (calls2 !! callId = None) as ->.
      { apply not_elem_of_dom. intros Hin. apply Hdom2 in Hin.
        by apply not_elem_of_dom in E1. }
      destruct Hstep as (now' & n' & Hin & Hdel). exists now', n'.
      apply list_elem_of_singleton in Hin as [= -> ->].
      split; [apply list_elem_of_here | exact Hdel].
Qed.

(** X29. A callback answers with the number of notifications it was given,
    and it never adds a call: afterwards a call of the table is still
    there, with its meeting and the time of its join unchanged, unless one
    of the notifications said that this call was deleted. *)
Theorem notifications_keep_or_delete_calls (data : NotificationData) (calls : gmap string CallInfo)
    (callId : string) (info : CallInfo) :
  calls !! callId = Some info →
  let result := fst (handleCallback data calls) in
  let calls' := snd (handleCallback data calls) in
  processed result = length (notificationsOf data) ∧
  dom calls' ⊆ dom calls ∧
  match calls' !! callId with
  | Some info' => sameCall info info'
  | None => ∃ now notification,
      (now, notification) ∈ notificationsOf data ∧ deletes callId notification
  end.
Proof.
  intros Hlookup result calls'. subst result calls'. unfold handleCallback.
  destruct (keptOrDeleted_all (notificationsOf data) calls) as [[Hdom Hkept] Hlen].
  destruct (processAll (notificationsOf data) calls) as [results calls']. simpl in *.
  split; [exact Hlen|]. split; [exact Hdom|]. by apply Hkept.
Qed.

(** Two calls joined in demo mode. *)
Definition two_calls : gmap string CallInfo :=
  snd (joinMeeting 200 "m2" (snd (joinMeeting 100 "m1" ∅))).

Definition call_m1 : CallInfo :=
  {| ci_meetingId := "m1"; ci_joinTime := 100; ci_status := Some "connected";
     ci_lastUpdate := None; ci_participants := [] |}.

Definition call_events : NotificationData :=
  Batch [ (300%Z, {| changeType := Some "updated";
                     resource := CallResource "demo_call_m1_100" (Some "established") |});
          (310%Z, {| changeType := Some "created";
                     resource := CallResource "call_9" (Some "establishing") |});
          (320%Z, {| changeType := Some "deleted";
                     resource := CallResource "demo_call_m2_200" None |}) ].

Lemma notifications_keep_or_delete_calls_witness :
  two_calls !! "demo_call_m1_100" = Some call_m1 ∧
  processed (fst (handleCallback call_events two_calls)) = 3 ∧
  dom (snd (handleCallback call_events two_calls)) ⊆ dom two_calls ∧
  snd (handleCallback call_events two_calls) !! "call_9" = None ∧
  snd (handleCallback call_events two_calls) !! "demo_call_m2_200" = None.
Proof.
  assert (two_calls !! "demo_call_m1_100" = Some call_m1) as Hlookup
    by (vm_compute; reflexivity).
  destruct (notifications_keep_or_delete_calls call_events two_calls "demo_call_m1_100"
              call_m1 Hlookup) as (Hcount & Hdom & _).
  split; [exact Hlookup|]. split; [exact Hcount|]. split; [exact Hdom|].
  split; vm_compute; reflexivity.
Defined.

(** X30. A participant notification names no call: a participant that was
    created is appended to the participants of every active call, and one
    that was deleted is taken out of all of them, together with every
    other entry of the same id. *)
Theorem participant_notification_reaches_every_call (t1 t2 : Z) (participantId : string)
    (name name' : option string) (calls : gmap string CallInfo) (callId : string) (info : CallInfo) :
  calls !! callId = Some info →
  let created := {| changeType := Some "created";
                    resource := ParticipantResource participantId name |} in
  let deleted := {| changeType := Some "deleted";
                    resource := ParticipantResource participantId name' |} in
  let joined := snd (processNotification t1 created calls) in
  let left := snd (processNotification t2 deleted joined) in
  joined !! callId =
    Some (set_ci_participants
            (ci_participants info ++
               [{| cp_id := participantId; cp_displayName := name; cp_joinTime := t1 |}]) info) ∧
  left !! callId =
    Some (set_ci_participants
            (filter (λ p, cp_id p ≠ participantId) (ci_participants info)) info).
Proof.
  intros Hlookup created deleted joined left. subst created deleted joined left.
  unfold processNotification, handleParticipantNotification. simpl.
  rewrite !lookup_fmap, Hlookup. simpl. split; [reflexivity|].
  unfold updateParticipants. simpl. f_equal. unfold set_ci_participants. simpl. f_equal.
  rewrite filter_app, filter_singleton_False with (l := []) by (intros H; by apply H).
  by rewrite app_nil_r.
Qed.

Definition ada_joined : Notification :=
  {| changeType := Some "created"; resource := ParticipantResource "p1" (Some "Ada") |}.

Lemma participant_notification_reaches_every_call_witness :
  (ci_participants <$> snd (processNotification 300 ada_joined two_calls) !! "demo_call_m1_100")
    = Some [{| cp_id := "p1"; cp_displayName := Some "Ada"; cp_joinTime := 300 |}] ∧
  (ci_participants <$> snd (processNotification 300 ada_joined two_calls) !! "demo_call_m2_200")
    = Some [{| cp_id := "p1"; cp_displayName := Some "Ada"; cp_joinTime := 300 |}].
Proof.
  split.
  - destruct (participant_notification_reaches_every_call 300 400 "p1" (Some "Ada") None
                two_calls "demo_call_m1_100" call_m1) as [Hjoined _];
      [vm_compute; reflexivity|].
    unfold ada_joined. rewrite Hjoined. reflexivity.
  - vm_compute. reflexivity.
Defined.

End MediaBot.
